(** * Calendar reconciliation: a shallow embedding of [src/sync.py]

    The three reconcilers of the repository ([sync_caldav_caldav],
    [sync_caldav_busy], [sync_caldav_full_oneway]) are embedded as functions
    in a small trace-and-exception monad: every backend call the Python code
    issues is appended to a trace, and a Python exception that is not caught
    ends the run with [Raise].  The iCalendar payload is modelled by the
    structure the [icalendar] library parses it into; dictionaries are
    [gmap]s and sets are [gset]s. *)

From stdpp Require Import gmap strings list sorting.
From Stdlib Require Import ZArith Lia.

#[local] Set Warnings "-clear-no-such-hyp".

Local Open Scope string_scope.
Local Open Scope Z_scope.
Local Open Scope list_scope.

(** ** Python exceptions and the two monads *)

Inductive exn : Type :=
| ValueError
| TypeError
| AttributeError
| KeyError
| OSError
| PutError
| DAVError.

Inductive result (X : Type) : Type :=
| Ok (x : X)
| Raise (e : exn).
Arguments Ok {X} x.
Arguments Raise {X} e.

#[global] Instance result_ret : MRet result := fun _ x => Ok x.
#[global] Instance result_bind : MBind result := fun _ _ f m =>
  match m with
  | Ok x => f x
  | Raise e => Raise e
  end.

(** ** Timestamps

    An aware [datetime]: the instant on the time line and the UTC offset it
    is written with.  Python compares aware datetimes by instant only, while
    [isoformat] keeps the offset. *)

Record datetime : Type := mk_datetime { instant : Z; utcoffset : Z }.

#[global] Instance datetime_eq_dec : EqDecision datetime.
Proof. solve_decision. Defined.

Definition dt_gt (a b : datetime) : bool := (instant b <? instant a)%Z.

(** The [.dt] of a date-time property: a [datetime], or a plain [date]
    (all-day events). *)
Inductive dt_value : Type :=
| dt_datetime (d : datetime)
| dt_date (day : Z).

#[global] Instance dt_value_eq_dec : EqDecision dt_value.
Proof. solve_decision. Defined.

(** ** iCalendar payloads

    [ICalendar.from_ical] either raises [ValueError] or returns a calendar
    whose [walk()] lists its components.  A component carries the properties
    the engine reads, and the rest as opaque text. *)

Record component : Type := mk_component {
  name : string;
  UID : option string;
  LAST_MODIFIED : option dt_value;
  DTSTAMP : option dt_value;
  SUMMARY : option string;
  DTSTART : option dt_value;
  DTEND : option dt_value;
  other_props : list (string * string)
}.

#[global] Instance component_eq_dec : EqDecision component.
Proof. solve_decision. Defined.

Inductive ical_bytes : Type :=
| not_ical
| ical (walk : list component).

#[global] Instance ical_bytes_eq_dec : EqDecision ical_bytes.
Proof. solve_decision. Defined.

Definition from_ical (raw : ical_bytes) : result (list component) :=
  match raw with
  | not_ical => Raise ValueError
  | ical walk => Ok walk
  end.

Definition is_vevent (comp : component) : bool :=
  bool_decide (name comp = "VEVENT").

(** [str(comp.get("UID"))]: a missing UID prints as the text [None]. *)
Definition str_uid (u : option string) : string :=
  match u with
  | Some s => s
  | None => "None"
  end.

(** [comp.get("LAST-MODIFIED") or comp.get("DTSTAMP")] *)
Definition or_else {X : Type} (a b : option X) : option X :=
  match a with
  | Some x => Some x
  | None => b
  end.

Definition _parse_ical_metadata (ical_bytes : ical_bytes)
  : result (string * datetime) :=
  walk ← from_ical ical_bytes;
  match List.find is_vevent walk with
  | Some comp =>
      let uid := str_uid (UID comp) in
      let lm := or_else (LAST_MODIFIED comp) (DTSTAMP comp) in
      match lm with
      | Some (dt_datetime last_mod) => Ok (uid, last_mod)
      | _ => Raise ValueError
      end
  | None => Raise ValueError
  end.

Definition _parse_dt_range (ical_bytes : ical_bytes)
  : result (dt_value * dt_value) :=
  walk ← from_ical ical_bytes;
  match List.find is_vevent walk with
  | Some comp =>
      match DTSTART comp, DTEND comp with
      | Some dtstart, Some dtend => Ok (dtstart, dtend)
      | _, _ => Raise AttributeError
      end
  | None => Raise ValueError
  end.

Definition _build_busy_ical (now : datetime) (uid : string)
    (dtstart dtend : dt_value) : ical_bytes :=
  ical
    [ mk_component "VCALENDAR" None None None None None None
        [("PRODID", "-//busy-sync//"); ("VERSION", "2.0")];
      mk_component "VEVENT" (Some uid) None (Some (dt_datetime now))
        (Some "Busy") (Some dtstart) (Some dtend) [] ].

(** [_get_summary]: SUMMARY of the first VEVENT ([None] when the property
    is missing), the empty text when there is no VEVENT. *)
Definition _get_summary (raw_ical : ical_bytes) : result (option string) :=
  walk ← from_ical raw_ical;
  match List.find is_vevent walk with
  | Some comp => Ok (SUMMARY comp)
  | None => Ok (Some "")
  end.

Definition set_times (new_start new_end : dt_value) (comp : component)
  : component :=
  mk_component (name comp) (UID comp) (LAST_MODIFIED comp) (DTSTAMP comp)
    (SUMMARY comp) (Some new_start) (Some new_end) (other_props comp).

Fixpoint patch_walk (walk : list component) (new_start new_end : dt_value)
  : result (list component) :=
  match walk with
  | [] => Ok []
  | comp :: rest =>
      if is_vevent comp then
        match DTSTART comp, DTEND comp with
        | Some _, Some _ =>
            rest' ← patch_walk rest new_start new_end;
            Ok (set_times new_start new_end comp :: rest')
        | _, _ => Raise KeyError
        end
      else
        rest' ← patch_walk rest new_start new_end;
        Ok (comp :: rest')
  end.

Definition _update_src_ical (raw : ical_bytes) (new_start new_end : dt_value)
  : result ical_bytes :=
  walk ← from_ical raw;
  walk' ← patch_walk walk new_start new_end;
  Ok (ical walk').

(** ** Events and backend calls *)

Record CaldavEvent : Type := mk_event { url : string; to_ical : ical_bytes }.

#[global] Instance CaldavEvent_eq_dec : EqDecision CaldavEvent.
Proof. solve_decision. Defined.

(** Which client a call goes to: the first pair of arguments of a
    reconciler ([client_a], [client_source]) or the second ([client_b],
    [client_target]). *)
Inductive client : Type := client_source | client_target.

#[global] Instance client_eq_dec : EqDecision client.
Proof. solve_decision. Defined.

Inductive call : Type :=
| delete_event (c : client) (event_url : string)
| create_event (c : client) (raw : ical_bytes)
| update_event (c : client) (event_url : string) (raw : ical_bytes).

#[global] Instance call_eq_dec : EqDecision call.
Proof. solve_decision. Defined.

(** The trace of backend calls issued so far, and how the run stands. *)
Definition M (X : Type) : Type := (list call * result X)%type.

#[global] Instance M_ret : MRet M := fun _ x => ([], Ok x).
#[global] Instance M_bind : MBind M := fun _ _ f m =>
  match m with
  | (t, Ok x) => let '(t', r) := f x in (t ++ t', r)
  | (t, Raise e) => (t, Raise e)
  end.

Definition lift {X : Type} (r : result X) : M X := ([], r).

(** [try: m except PutError: handler] *)
Definition try_except_PutError (m : M unit) (handler : M unit) : M unit :=
  match m with
  | (t, Raise PutError) => let '(t', r) := handler in (t ++ t', r)
  | other => other
  end.

Fixpoint for_each {X S : Type} (body : X → S → M S) (l : list X) (s : S)
  : M S :=
  match l with
  | [] => mret s
  | x :: rest => s' ← body x s; for_each body rest s'
  end.

(** [d[k]] on a dictionary *)
Definition getitem {V : Type} (d : gmap string V) (k : string) : result V :=
  match d !! k with
  | Some v => Ok v
  | None => Raise KeyError
  end.

Definition contains {V : Type} (d : gmap string V) (k : string) : bool :=
  bool_decide (k ∈ dom d).

(** [sorted(all_uids)]: Python orders text by code point. *)
Definition str_le : relation string := fun a b => String.leb a b.

#[global] Instance str_le_dec : RelDecision str_le.
Proof. intros a b. unfold str_le. apply _. Defined.

Definition sorted (s : gset string) : list string :=
  merge_sort str_le (elements s).

(** An entry of the BUSY-mode dictionaries: [(event, raw_ical, last_mod)]. *)
Abbreviation meta3 := (CaldavEvent * ical_bytes * datetime)%type.

(** ** Sync state of BUSY mode *)

Record busy_state : Type := mk_busy_state {
  synced : gmap string datetime;
  busy_uids : gset string;
  tombstones : gset string;
  real_uids : gset string
}.

Definition empty_busy_state : busy_state := mk_busy_state ∅ ∅ ∅ ∅.

(** ** The reconcilers

    [backend] is the answer of the remote side to a call ([None]: the call
    returns; [Some e]: it raises [e]).  [now uid] is the clock reading
    [datetime.now(timezone.utc)] taken when the placeholder of [uid] is
    built.  A loop over a Python set visits [elements] of it. *)

Section Reconcilers.
Variable backend : call → option exn.
Variable now : string → datetime.

Definition do_call (c : call) : M unit :=
  ([c], match backend c with
        | None => Ok ()
        | Some e => Raise e
        end).

(** *** FULL mode: [sync_caldav_caldav] *)

Fixpoint build_meta (evts : list CaldavEvent)
    (meta : gmap string (datetime * CaldavEvent))
  : result (gmap string (datetime * CaldavEvent)) :=
  match evts with
  | [] => Ok meta
  | e :: rest =>
      '(uid, lm) ← _parse_ical_metadata (to_ical e);
      build_meta rest (<[uid := (lm, e)]> meta)
  end.

Definition full_body (old_state : gmap string datetime)
    (meta_a meta_b : gmap string (datetime * CaldavEvent))
    (uid : string) (new_state : gmap string datetime)
  : M (gmap string datetime) :=
  let in_a := contains meta_a uid in
  let in_b := contains meta_b uid in
  let prev := contains old_state uid in
  if prev && in_a && negb in_b then
    '(_, evt_a) ← lift (getitem meta_a uid);
    do_call (delete_event client_source (url evt_a));;
    mret new_state
  else if prev && in_b && negb in_a then
    '(_, evt_b) ← lift (getitem meta_b uid);
    do_call (delete_event client_target (url evt_b));;
    mret new_state
  else if negb prev && in_a && negb in_b then
    '(lm_a, evt_a) ← lift (getitem meta_a uid);
    do_call (create_event client_target (to_ical evt_a));;
    mret (<[uid := lm_a]> new_state)
  else if negb prev && in_b && negb in_a then
    '(lm_b, evt_b) ← lift (getitem meta_b uid);
    do_call (create_event client_source (to_ical evt_b));;
    mret (<[uid := lm_b]> new_state)
  else if in_a && in_b then
    '(lm_a, evt_a) ← lift (getitem meta_a uid);
    '(lm_b, evt_b) ← lift (getitem meta_b uid);
    if dt_gt lm_a lm_b then
      do_call (update_event client_target (url evt_b) (to_ical evt_a));;
      mret (<[uid := lm_a]> new_state)
    else if dt_gt lm_b lm_a then
      do_call (update_event client_source (url evt_a) (to_ical evt_b));;
      mret (<[uid := lm_b]> new_state)
    else
      mret (<[uid := lm_a]> new_state)
  else
    mret new_state.

Definition sync_caldav_caldav (old_state : gmap string datetime)
    (evts_a evts_b : list CaldavEvent) : M (gmap string datetime) :=
  meta_a ← lift (build_meta evts_a ∅);
  meta_b ← lift (build_meta evts_b ∅);
  let all_uids := dom old_state ∪ dom meta_a ∪ dom meta_b in
  for_each (full_body old_state meta_a meta_b) (elements all_uids) ∅.

(** *** BUSY mode: [sync_caldav_busy] *)

Fixpoint build_src_meta (src_events : list CaldavEvent)
    (src_meta : gmap string meta3) : result (gmap string meta3) :=
  match src_events with
  | [] => Ok src_meta
  | e :: rest =>
      let raw := to_ical e in
      '(uid, lm) ← _parse_ical_metadata raw;
      build_src_meta rest (<[uid := (e, raw, lm)]> src_meta)
  end.

(** [real_meta], [busy_meta] and the current [real_uids] *)
Record tgt_index : Type := mk_tgt_index {
  real_meta : gmap string meta3;
  busy_meta : gmap string meta3;
  cur_real_uids : gset string
}.

Fixpoint build_tgt_index (tgt_events : list CaldavEvent) (ix : tgt_index)
  : result tgt_index :=
  match tgt_events with
  | [] => Ok ix
  | e :: rest =>
      let raw := to_ical e in
      '(uid, lm) ← _parse_ical_metadata raw;
      summary ← _get_summary raw;
      if bool_decide (summary ≠ Some "Busy") then
        build_tgt_index rest
          (mk_tgt_index (<[uid := (e, raw, lm)]> (real_meta ix))
             (busy_meta ix) ({[uid]} ∪ cur_real_uids ix))
      else
        build_tgt_index rest
          (mk_tgt_index (real_meta ix)
             (<[uid := (e, raw, lm)]> (busy_meta ix)) (cur_real_uids ix))
  end.

(** Lines 214-219: deletions on A of events that were real B-events. *)
Definition deleted_on_a_body (real_meta : gmap string meta3) (uid : string)
    (tombstones : gset string) : M (gset string) :=
  (if contains real_meta uid then
     '(e_tgt, _, _) ← lift (getitem real_meta uid);
     do_call (delete_event client_target (url e_tgt))
   else mret ());;
  mret ({[uid]} ∪ tombstones).

(** Lines 223-228 and 231-236: both loops have the same body. *)
Definition deleted_on_b_body (uid : string)
    (st : gmap string meta3 * gset string)
  : M (gmap string meta3 * gset string) :=
  let '(src_meta, tombstones) := st in
  if contains src_meta uid then
    '(e_src, _, _) ← lift (getitem src_meta uid);
    do_call (delete_event client_source (url e_src));;
    mret (delete uid src_meta, {[uid]} ∪ tombstones)
  else
    mret (src_meta, {[uid]} ∪ tombstones).

(** Lines 269-272: the fallback after a [PutError]. *)
Fixpoint put_fallback (tgt_events : list CaldavEvent) (uid : string)
    (busy_ical : ical_bytes) : M unit :=
  match tgt_events with
  | [] => mret ()
  | e :: rest =>
      '(uid', _) ← lift (_parse_ical_metadata (to_ical e));
      if bool_decide (uid' = uid) then
        do_call (update_event client_target (url e) busy_ical)
      else
        put_fallback rest uid busy_ical
  end.

(** The state of the reconcile loop: [new_synced], [new_busy] and the
    [tombstones] set the earlier passes have filled. *)
Record busy_acc : Type := mk_busy_acc {
  new_synced : gmap string datetime;
  new_busy : gset string;
  acc_tombstones : gset string
}.

Definition busy_body (old_synced : gmap string datetime)
    (src_meta : gmap string meta3) (ix : tgt_index)
    (tgt_events : list CaldavEvent) (uid : string) (acc : busy_acc)
  : M busy_acc :=
  let in_src := contains src_meta uid in
  let in_busy := contains (busy_meta ix) uid in
  if bool_decide (uid ∈ cur_real_uids ix) then
    mret acc
  else if contains old_synced uid && negb in_src && in_busy then
    '(e_tgt, _, _) ← lift (getitem (busy_meta ix) uid);
    do_call (delete_event client_target (url e_tgt));;
    mret (mk_busy_acc (new_synced acc) (new_busy acc)
            (acc_tombstones acc ∖ {[uid]}))
  else if in_src && negb in_busy then
    if bool_decide (uid ∈ acc_tombstones acc) then
      mret acc
    else
      '(_, raw_src, lm_src) ← lift (getitem src_meta uid);
      '(dtstart, dtend) ← lift (_parse_dt_range raw_src);
      let busy_ical := _build_busy_ical (now uid) uid dtstart dtend in
      try_except_PutError
        (do_call (create_event client_target busy_ical))
        (put_fallback tgt_events uid busy_ical);;
      mret (mk_busy_acc (<[uid := lm_src]> (new_synced acc))
              ({[uid]} ∪ new_busy acc) (acc_tombstones acc))
  else if in_src && in_busy then
    '(e_src, raw_src, lm_src) ← lift (getitem src_meta uid);
    '(e_tgt, raw_tgt, lm_tgt) ← lift (getitem (busy_meta ix) uid);
    if dt_gt lm_src lm_tgt then
      '(dtstart, dtend) ← lift (_parse_dt_range raw_src);
      let busy_ical := _build_busy_ical (now uid) uid dtstart dtend in
      do_call (update_event client_target (url e_tgt) busy_ical);;
      mret (mk_busy_acc (<[uid := lm_src]> (new_synced acc))
              ({[uid]} ∪ new_busy acc) (acc_tombstones acc))
    else if dt_gt lm_tgt lm_src then
      '(dtstart, dtend) ← lift (_parse_dt_range raw_tgt);
      updated ← lift (_update_src_ical raw_src dtstart dtend);
      do_call (update_event client_source (url e_src) updated);;
      mret (mk_busy_acc (<[uid := lm_tgt]> (new_synced acc))
              ({[uid]} ∪ new_busy acc) (acc_tombstones acc))
    else
      mret (mk_busy_acc (<[uid := lm_src]> (new_synced acc))
              ({[uid]} ∪ new_busy acc) (acc_tombstones acc))
  else
    mret acc.

Definition sync_caldav_busy (old : busy_state)
    (src_events tgt_events : list CaldavEvent) : M busy_state :=
  let old_synced := synced old in
  let old_busy := busy_uids old in
  let tombstones := tombstones old in
  let old_real_uids := real_uids old in
  src_meta ← lift (build_src_meta src_events ∅);
  ix ← lift (build_tgt_index tgt_events (mk_tgt_index ∅ ∅ ∅));
  let deleted_on_a := old_real_uids ∖ dom src_meta in
  tombstones ← for_each (deleted_on_a_body (real_meta ix))
                 (elements deleted_on_a) tombstones;
  let deleted_real := old_real_uids ∖ cur_real_uids ix in
  '(src_meta, tombstones) ← for_each deleted_on_b_body
                 (elements deleted_real) (src_meta, tombstones);
  let deleted_busy := old_busy ∖ dom (busy_meta ix) in
  '(src_meta, tombstones) ← for_each deleted_on_b_body
                 (elements deleted_busy) (src_meta, tombstones);
  let all_uids := dom old_synced ∪ dom src_meta ∪ dom (busy_meta ix) in
  acc ← for_each (busy_body old_synced src_meta ix tgt_events)
          (sorted all_uids) (mk_busy_acc ∅ ∅ tombstones);
  mret (mk_busy_state (new_synced acc) (new_busy acc) (acc_tombstones acc)
          (cur_real_uids ix)).

(** *** FULL_ONEWAY mode: [sync_caldav_full_oneway] *)

Definition first_summary (walk : list component) : option string :=
  match List.find is_vevent walk with
  | Some c => SUMMARY c
  | None => None
  end.

Fixpoint build_meta_src (src_events : list CaldavEvent)
    (meta_src : gmap string (datetime * ical_bytes))
  : result (gmap string (datetime * ical_bytes)) :=
  match src_events with
  | [] => Ok meta_src
  | e :: rest =>
      let raw := to_ical e in
      cal ← from_ical raw;
      let summ := first_summary cal in
      if bool_decide (summ = Some "Busy") then
        build_meta_src rest meta_src
      else
        '(uid, lm) ← _parse_ical_metadata raw;
        build_meta_src rest (<[uid := (lm, raw)]> meta_src)
  end.

Definition oneway_body (old_state : gmap string datetime)
    (meta_src : gmap string (datetime * ical_bytes))
    (meta_tgt : gmap string (datetime * CaldavEvent))
    (uid : string) (new_state : gmap string datetime)
  : M (gmap string datetime) :=
  let in_src := contains meta_src uid in
  let in_tgt := contains meta_tgt uid in
  let prev := contains old_state uid in
  if prev && negb in_src && in_tgt then
    '(_, te) ← lift (getitem meta_tgt uid);
    do_call (delete_event client_target (url te));;
    mret new_state
  else if in_src && negb in_tgt then
    '(lm, raw) ← lift (getitem meta_src uid);
    do_call (create_event client_target raw);;
    mret (<[uid := lm]> new_state)
  else if in_src && in_tgt then
    '(lm_src, raw) ← lift (getitem meta_src uid);
    '(lm_tgt, te) ← lift (getitem meta_tgt uid);
    if dt_gt lm_src lm_tgt then
      do_call (update_event client_target (url te) raw);;
      mret (<[uid := lm_src]> new_state)
    else
      mret (<[uid := lm_tgt]> new_state)
  else
    mret new_state.

Definition sync_caldav_full_oneway (old_state : gmap string datetime)
    (src_events tgt_events : list CaldavEvent) : M (gmap string datetime) :=
  meta_src ← lift (build_meta_src src_events ∅);
  meta_tgt ← lift (build_meta tgt_events ∅);
  let all_uids := dom old_state ∪ dom meta_src ∪ dom meta_tgt in
  for_each (oneway_body old_state meta_src meta_tgt) (elements all_uids) ∅.

End Reconcilers.

(** ** The state store

    A state file as the loaders meet it: [os.path.exists] is false
    ([absent]), [open] raises ([unreadable]), [json.load] raises
    ([malformed]), or [json.load] returns a document. *)

#[local] Unset Elimination Schemes.
Inductive json : Type :=
| JNull
| JBool (b : bool)
| JNumber (z : Z)
| JString (s : string)
| JArray (items : list json)
| JObject (members : list (string * json)).
#[local] Set Elimination Schemes.

Inductive state_file : Type :=
| absent
| unreadable
| malformed
| document (data : json).

Inductive log_level : Type := INFO | WARNING.

(** [data.get(key, default)] and [data.items()]; [json.load] returns a
    dictionary with one member per key. *)
Fixpoint assoc (members : list (string * json)) (key : string) : option json :=
  match members with
  | [] => None
  | (k, v) :: rest => if bool_decide (k = key) then Some v else assoc rest key
  end.

Definition dict_get (data : json) (key : string) (dflt : json)
  : result json :=
  match data with
  | JObject members => Ok (default dflt (assoc members key))
  | _ => Raise AttributeError
  end.

Definition dict_items (data : json) : result (list (string * json)) :=
  match data with
  | JObject members => Ok members
  | _ => Raise AttributeError
  end.

(** [set(x)] for a value read from JSON.  Text iterates over its
    characters, a dictionary over its keys; a number, a boolean or [null]
    is not iterable, and an array or object member is not hashable.  The
    sets of the engine hold uids, which are text: a member of an array that
    is a number, a boolean or [null] can equal no uid and is left out. *)
Fixpoint chars (s : string) : list string :=
  match s with
  | EmptyString => []
  | String c rest => String c EmptyString :: chars rest
  end.

Fixpoint set_of_items (items : list json) : result (gset string) :=
  match items with
  | [] => Ok ∅
  | JString s :: rest => acc ← set_of_items rest; Ok ({[s]} ∪ acc)
  | JArray _ :: _ | JObject _ :: _ => Raise TypeError
  | _ :: rest => set_of_items rest
  end.

Definition py_set (x : json) : result (gset string) :=
  match x with
  | JArray items => set_of_items items
  | JString s => Ok (list_to_set (chars s))
  | JObject members => Ok (list_to_set (members.*1))
  | _ => Raise TypeError
  end.

Section StateStore.
(** [datetime.fromisoformat] and [datetime.isoformat] of the Python
    library, and the text chunks [json.dump(obj, f, indent=2)] writes. *)
Variable fromisoformat : string → option datetime.
Variable isoformat : datetime → string.
Variable json_chunks : json → list string.

Definition py_fromisoformat (ts : json) : result datetime :=
  match ts with
  | JString s =>
      match fromisoformat s with
      | Some d => Ok d
      | None => Raise ValueError
      end
  | _ => Raise TypeError
  end.

(** [{uid: datetime.fromisoformat(ts) for uid, ts in items}] *)
Fixpoint parse_entries (items : list (string * json))
    (acc : gmap string datetime) : result (gmap string datetime) :=
  match items with
  | [] => Ok acc
  | (uid, ts) :: rest =>
      d ← py_fromisoformat ts;
      parse_entries rest (<[uid := d]> acc)
  end.

(** Lines 47-54 of [sync_caldav_caldav]. *)
Definition load_full (f : state_file) : result (gmap string datetime) :=
  match f with
  | absent => Ok ∅
  | unreadable => Raise OSError
  | malformed => Raise ValueError
  | document old_state =>
      items ← dict_items old_state;
      parse_entries items ∅
  end.

(** Lines 168-180 of [sync_caldav_busy]. *)
Definition load_busy (f : state_file) : result busy_state :=
  match f with
  | absent => Ok empty_busy_state
  | unreadable => Raise OSError
  | malformed => Raise ValueError
  | document data =>
      synced_json ← dict_get data "synced" (JObject []);
      items ← dict_items synced_json;
      old_synced ← parse_entries items ∅;
      old_busy ← dict_get data "busy_uids" (JArray []) ≫= py_set;
      tombstones ← dict_get data "tombstones" (JArray []) ≫= py_set;
      old_real_uids ← dict_get data "real_uids" (JArray []) ≫= py_set;
      Ok (mk_busy_state old_synced old_busy tombstones old_real_uids)
  end.

(** Lines 350-362 of [sync_caldav_full_oneway]: the loop fills
    [old_state] in place, inside the [try]. *)
Fixpoint oneway_entries (items : list (string * json))
    (old_state : gmap string datetime)
  : list log_level * gmap string datetime :=
  match items with
  | [] => ([], old_state)
  | (uid, ts) :: rest =>
      if bool_decide (uid = "__mode") then oneway_entries rest old_state
      else
        match py_fromisoformat ts with
        | Ok d => oneway_entries rest (<[uid := d]> old_state)
        | Raise _ => ([WARNING], old_state)
        end
  end.

Definition load_oneway (f : state_file)
  : list log_level * gmap string datetime :=
  match f with
  | absent => ([], ∅)
  | unreadable => ([WARNING], ∅)
  | malformed => ([WARNING], ∅)
  | document data =>
      match data with
      | JObject members =>
          match assoc members "__mode" with
          | Some (JString "full_oneway") => oneway_entries members ∅
          | _ => ([INFO], ∅)
          end
      | _ => ([WARNING], ∅)
      end
  end.

(** What each mode hands to [json.dump]. *)
Definition entries_json (state : gmap string datetime)
  : list (string * json) :=
  (fun kv => (kv.1, JString (isoformat kv.2))) <$> map_to_list state.

Definition set_json (s : gset string) : json :=
  JArray (JString <$> elements s).

Definition full_json (new_state : gmap string datetime) : json :=
  JObject (entries_json new_state).

Definition busy_json (st : busy_state) : json :=
  JObject [ ("synced", JObject (entries_json (synced st)));
            ("busy_uids", set_json (busy_uids st));
            ("tombstones", set_json (tombstones st));
            ("real_uids", set_json (real_uids st)) ].

(** [to_save = {"__mode": "full_oneway"}; to_save.update(new_state)] *)
Definition oneway_json (new_state : gmap string datetime) : json :=
  JObject
    (("__mode",
      match new_state !! "__mode" with
      | Some ts => JString (isoformat ts)
      | None => JString "full_oneway"
      end) :: entries_json (delete "__mode" new_state)).

(** *** Writing the file

    [with open(state_path, "w") as f: json.dump(obj, f, indent=2)]:
    opening for writing truncates the file, then the chunks are appended
    to it, then it is closed. *)
Inductive fs_op : Type :=
| fs_open_w (path : string)
| fs_write (path : string) (chunk : string)
| fs_close (path : string)
| fs_rename (src dst : string).

Definition persist (state_path : string) (obj : json) : list fs_op :=
  fs_open_w state_path
    :: (fs_write state_path <$> json_chunks obj) ++ [fs_close state_path].

(** The files of the state directory, by path. *)
Definition fs_step (files : gmap string string) (op : fs_op)
  : gmap string string :=
  match op with
  | fs_open_w path => <[path := ""]> files
  | fs_write path chunk => alter (fun s => s +:+ chunk) path files
  | fs_close path => files
  | fs_rename src dst =>
      match files !! src with
      | Some s => <[dst := s]> (delete src files)
      | None => files
      end
  end.

(** The files a crash leaves behind when it strikes after [k] steps. *)
Definition crash_after (k : nat) (ops : list fs_op)
    (files : gmap string string) : gmap string string :=
  foldl fs_step files (take k ops).

(** The text of a file the chunks were written to in full. *)
Definition join (chunks : list string) : string :=
foldr String.append "" chunks.

(** *** One mapping run: load, reconcile, write the next state

    The state file is written after the loop, so only by a run that no
    exception has ended. *)
Variable backend : call → option exn.
Variable now : string → datetime.

Definition run_full (f : state_file) (evts_a evts_b : list CaldavEvent)
  : M json :=
  old_state ← lift (load_full f);
  new_state ← sync_caldav_caldav backend old_state evts_a evts_b;
  mret (full_json new_state).

Definition run_busy (f : state_file)
    (src_events tgt_events : list CaldavEvent) : M json :=
  old ← lift (load_busy f);
  st ← sync_caldav_busy backend now old src_events tgt_events;
  mret (busy_json st).

Definition run_full_oneway (f : state_file)
    (src_events tgt_events : list CaldavEvent) : M json :=
  let '(_, old_state) := load_oneway f in
  new_state ← sync_caldav_full_oneway backend old_state src_events
                tgt_events;
  mret (oneway_json new_state).

Definition write_state (state_path : string) (run : M json)
  : list call * list fs_op :=
match run with
| (t, Ok obj) => (t, persist state_path obj)
| (t, Raise _) => (t, [])
end.

End StateStore.

(** ** The remote calendars

    The two calendars behind the clients, as the backend contract has
    them: an event is stored under its handle with the bytes it was given;
    [new_url] is the handle the server chooses for a created event. *)

Record remote : Type := mk_remote {
  cal_source : list CaldavEvent;
  cal_target : list CaldavEvent
}.

Section Server.
Variable new_url : client → ical_bytes → string.

Definition serve_calendar (c : client) (op : call)
    (events : list CaldavEvent) : list CaldavEvent :=
  match op with
  | delete_event c' u =>
      if bool_decide (c' = c)
      then filter (fun e => url e ≠ u) events
      else events
  | create_event c' raw =>
      if bool_decide (c' = c)
      then events ++ [mk_event (new_url c raw) raw]
      else events
  | update_event c' u raw =>
      if bool_decide (c' = c)
      then (fun e => if bool_decide (url e = u) then mk_event u raw else e)
             <$> events
      else events
  end.

Definition serve (r : remote) (op : call) : remote :=
  mk_remote (serve_calendar client_source op (cal_source r))
            (serve_calendar client_target op (cal_target r)).

Definition serve_all (r : remote) (trace : list call) : remote :=
  foldl serve r trace.
End Server.

(** ** The decision table of FULL mode, in the words of the specification

    [P] is the previous state, [A] and [B] the two views keyed by uid.  The
    table gives, for a uid, the backend operations and the timestamp
    recorded in the next state ([None]: the uid is omitted). *)

Definition full_table (P : gmap string datetime)
    (A B : gmap string (datetime * CaldavEvent)) (uid : string)
  : list call * option datetime :=
  match P !! uid, A !! uid, B !! uid with
  | Some _, Some (_, a), None =>
      ([delete_event client_source (url a)], None)
  | Some _, None, Some (_, b) =>
      ([delete_event client_target (url b)], None)
  | None, Some (ts_A, a), None =>
      ([create_event client_target (to_ical a)], Some ts_A)
  | None, None, Some (ts_B, b) =>
      ([create_event client_source (to_ical b)], Some ts_B)
  | _, Some (ts_A, a), Some (ts_B, b) =>
      if (instant ts_A >? instant ts_B)%Z then
        ([update_event client_target (url b) (to_ical a)], Some ts_A)
      else if (instant ts_B >? instant ts_A)%Z then
        ([update_event client_source (url a) (to_ical b)], Some ts_B)
      else ([], Some ts_A)
  | _, _, _ => ([], None)
  end.

(** Recording the timestamp of a row in the next state. *)
Definition record_ts (uid : string) (ts : option datetime)
    (state : gmap string datetime) : gmap string datetime :=
  match ts with
  | Some t => <[uid := t]> state
  | None => state
  end.

(** The first refusal among the calls of a plan. *)
Fixpoint refusal (backend : call → option exn) (plan : list call)
  : option exn :=
  match plan with
  | [] => None
  | c :: rest =>
      match backend c with
      | Some e => Some e
      | None => refusal backend rest
      end
  end.

(** ** Shapes of calls

    The calls a turn of the FULL_ONEWAY loop can issue: a deletion on the
    target of the event of a uid of the previous state that the source no
    longer has, a creation on the target, or an update on the target of the
    event of a uid the source has. *)
Definition oneway_call (old : gmap string datetime)
    (meta_src : gmap string (datetime * ical_bytes))
    (meta_tgt : gmap string (datetime * CaldavEvent)) (c : call) : Prop :=
  (∃ uid lm te, c = delete_event client_target (url te) ∧
      uid ∈ dom old ∧ (uid ∉ dom meta_src) ∧
      meta_tgt !! uid = Some (lm, te)) ∨
  (∃ raw, c = create_event client_target raw) ∨
  (∃ uid lm te raw, c = update_event client_target (url te) raw ∧
      uid ∈ dom meta_src ∧ meta_tgt !! uid = Some (lm, te)).

(** How the index of the target view stands to the events it was built
    from: the real uids are the keys of [real_meta]; an entry of
    [busy_meta] is an event of the view whose SUMMARY is Busy, an entry of
    [real_meta] one whose SUMMARY is not; every event of the view has its
    uid in one of the two. *)
Definition is_busy (e : CaldavEvent) : Prop :=
  _get_summary (to_ical e) = Ok (Some "Busy").

Record tgt_index_ok (seen : list CaldavEvent) (ix : tgt_index) : Prop :=
  mk_tgt_index_ok {
  ok_real_dom : dom (real_meta ix) = cur_real_uids ix;
  ok_busy : ∀ uid e raw lm,
    busy_meta ix !! uid = Some (e, raw, lm) →
    e ∈ seen ∧ raw = to_ical e ∧
    _parse_ical_metadata raw = Ok (uid, lm) ∧ is_busy e;
  ok_real : ∀ uid e raw lm,
    real_meta ix !! uid = Some (e, raw, lm) →
    e ∈ seen ∧ raw = to_ical e ∧
    _parse_ical_metadata raw = Ok (uid, lm) ∧ ¬ is_busy e;
  ok_all : ∀ e, e ∈ seen →
    ∃ uid lm, _parse_ical_metadata (to_ical e) = Ok (uid, lm) ∧
      (uid ∈ cur_real_uids ix ∨ uid ∈ dom (busy_meta ix))
}.

(** The calls a turn of the BUSY reconcile loop can issue, [tombs] being
    the tombstones the loop starts with: the deletion of a placeholder
    whose source event is gone, the creation of a placeholder for a uid
    that is not tombstoned, the update of a placeholder, or the update of a
    source event. *)
Definition busy_loop_call (now : string → datetime)
    (old_synced : gmap string datetime) (src_meta : gmap string meta3)
    (ix : tgt_index) (tombs : gset string) (c : call) : Prop :=
  (∃ uid e raw lm, c = delete_event client_target (url e) ∧
      busy_meta ix !! uid = Some (e, raw, lm) ∧
      (uid ∉ dom src_meta) ∧ uid ∈ dom old_synced) ∨
  (∃ uid dtstart dtend,
      c = create_event client_target
            (_build_busy_ical (now uid) uid dtstart dtend) ∧
      uid ∈ dom src_meta ∧ (uid ∉ dom (busy_meta ix)) ∧
      (uid ∉ cur_real_uids ix) ∧ (uid ∉ tombs)) ∨
  (∃ uid e raw lm dtstart dtend,
      c = update_event client_target (url e)
            (_build_busy_ical (now uid) uid dtstart dtend) ∧
      busy_meta ix !! uid = Some (e, raw, lm)) ∨
  (∃ uid e raw lm updated,
      c = update_event client_source (url e) updated ∧
      src_meta !! uid = Some (e, raw, lm)).

(** What the loop keeps true of its state, [done] being the uids already
    visited. *)
Record busy_loop_inv (old_synced : gmap string datetime)
    (src_meta : gmap string meta3) (ix : tgt_index) (tombs : gset string)
    (done : list string) (acc : busy_acc) : Prop := mk_busy_loop_inv {
  inv_tombs_sub : acc_tombstones acc ⊆ tombs;
  inv_tombs_kept : ∀ u, u ∈ tombs →
    u ∈ acc_tombstones acc ∨
    (u ∈ done ∧ u ∈ dom old_synced ∧ (u ∉ dom src_meta) ∧
     u ∈ dom (busy_meta ix) ∧ (u ∉ cur_real_uids ix));
  inv_synced_dom : dom (new_synced acc) = new_busy acc;
  inv_busy : ∀ u, u ∈ new_busy acc →
    u ∈ done ∧ u ∈ dom src_meta ∧ (u ∉ cur_real_uids ix) ∧
    (u ∈ tombs → u ∈ dom (busy_meta ix));
  inv_created : ∀ u, u ∈ done → u ∈ dom src_meta →
    (u ∉ cur_real_uids ix) → (u ∉ tombs) → u ∈ new_busy acc
}.

(** The calls a run of [sync_caldav_busy] can issue, in terms of what the
    run starts from: the previous state [old], the source view [src_meta]
    keyed by uid and the index [ix] of the target view. *)
Definition busy_run_call (now : string → datetime) (old : busy_state)
    (src_meta : gmap string meta3) (ix : tgt_index) (c : call) : Prop :=
  (∃ uid e raw lm, c = delete_event client_target (url e) ∧
      real_meta ix !! uid = Some (e, raw, lm) ∧
      uid ∈ real_uids old ∧ (uid ∉ dom src_meta)) ∨
  (∃ uid e raw lm, c = delete_event client_source (url e) ∧
      src_meta !! uid = Some (e, raw, lm) ∧
      (uid ∈ real_uids old ∖ cur_real_uids ix ∨
       uid ∈ busy_uids old ∖ dom (busy_meta ix))) ∨
  (∃ uid e raw lm, c = delete_event client_target (url e) ∧
      busy_meta ix !! uid = Some (e, raw, lm) ∧ uid ∈ dom (synced old)) ∨
  (∃ uid dtstart dtend,
      c = create_event client_target
            (_build_busy_ical (now uid) uid dtstart dtend) ∧
      uid ∈ dom src_meta ∧ (uid ∉ dom (busy_meta ix)) ∧
      (uid ∉ cur_real_uids ix) ∧ (uid ∉ tombstones old)) ∨
  (∃ uid e raw lm dtstart dtend,
      c = update_event client_target (url e)
            (_build_busy_ical (now uid) uid dtstart dtend) ∧
      busy_meta ix !! uid = Some (e, raw, lm)) ∨
  (∃ uid e raw lm updated,
      c = update_event client_source (url e) updated ∧
      src_meta !! uid = Some (e, raw, lm)).

(** The two ways a turn of the loop changes its state. *)
Definition discard_tombstone (uid : string) (acc : busy_acc) : busy_acc :=
  mk_busy_acc (new_synced acc) (new_busy acc) (acc_tombstones acc ∖ {[uid]}).

Definition record_busy (uid : string) (ts : datetime) (acc : busy_acc)
  : busy_acc :=
  mk_busy_acc (<[uid := ts]> (new_synced acc)) ({[uid]} ∪ new_busy acc)
    (acc_tombstones acc).

(** The states a mapping can be in: the empty state of a first run, and
    what a run that ended normally has persisted. *)
Inductive busy_reachable : busy_state → Prop :=
| reach_first_run : busy_reachable empty_busy_state
| reach_next_run backend now st src_events tgt_events t st' :
    busy_reachable st →
    sync_caldav_busy backend now st src_events tgt_events = (t, Ok st') →
    busy_reachable st'.

(** ** Reading [_update_src_ical] component by component

    A VEVENT can be patched when it has both DTSTART and DTEND (the code
    assigns to [comp["DTSTART"].dt] and [comp["DTEND"].dt]); the patched
    payload has every VEVENT at the new times and every other component as
    it was. *)
Definition can_patch (comp : component) : bool :=
  negb (is_vevent comp) ||
  (bool_decide (DTSTART comp ≠ None) && bool_decide (DTEND comp ≠ None)).

Definition patch_component (new_start new_end : dt_value) (comp : component)
  : component :=
  if is_vevent comp then set_times new_start new_end comp else comp.

(** The calls of a plan that get issued: the run stops at the first call
    the backend refuses. *)
Fixpoint issued (backend : call → option exn) (plan : list call) : list call :=
  match plan with
  | [] => []
  | c :: rest =>
      c :: match backend c with
           | Some _ => []
           | None => issued backend rest
           end
  end.

(** ** Reading calls and the loop of FULL_ONEWAY mode

    The client a call goes to and the payload it carries. *)
Definition call_client (c : call) : client :=
  match c with
  | delete_event cl _ | create_event cl _ | update_event cl _ _ => cl
  end.

Definition call_payload (c : call) : option ical_bytes :=
  match c with
  | delete_event _ _ => None
  | create_event _ raw | update_event _ _ raw => Some raw
  end.

(** One turn of the loop of [sync_caldav_full_oneway] as a row: the calls
    it plans and the timestamp it records. *)
Definition oneway_table (P : gmap string datetime)
    (S : gmap string (datetime * ical_bytes))
    (T : gmap string (datetime * CaldavEvent)) (uid : string)
  : list call * option datetime :=
  match S !! uid, T !! uid with
  | None, Some (_, te) =>
      if contains P uid then ([delete_event client_target (url te)], None)
      else ([], None)
  | Some (lm, raw), None => ([create_event client_target raw], Some lm)
  | Some (lm_src, raw), Some (lm_tgt, te) =>
      if dt_gt lm_src lm_tgt
      then ([update_event client_target (url te) raw], Some lm_src)
      else ([], Some lm_tgt)
  | None, None => ([], None)
  end.


(** The write-back of BUSY mode: an update of a source event carries the
    payload of that event patched to the time range of its placeholder,
    the placeholder being the later of the two. *)
Definition busy_write_back (src_meta : gmap string meta3) (ix : tgt_index)
    (c : call) : Prop :=
  ∀ u updated, c = update_event client_source u updated →
    ∃ uid e_src raw_src lm_src e_tgt raw_tgt lm_tgt dtstart dtend,
      src_meta !! uid = Some (e_src, raw_src, lm_src) ∧
      busy_meta ix !! uid = Some (e_tgt, raw_tgt, lm_tgt) ∧
      u = url e_src ∧ dt_gt lm_tgt lm_src = true ∧
      _parse_dt_range raw_tgt = Ok (dtstart, dtend) ∧
      _update_src_ical raw_src dtstart dtend = Ok updated.


(** ** FULL mode against the server

    A view keyed by uid in which each event is the entry of its uid, so
    that the uids of the view are distinct; a view whose handles are
    distinct; and where the events of a calendar come from while the calls
    of a trace are served: an event has the handle of an event of the view
    fetched at the start, or it was created by a call of the trace. *)
Definition keyed (evts : list CaldavEvent)
    (meta : gmap string (datetime * CaldavEvent)) : Prop :=
  (∀ uid lm e, meta !! uid = Some (lm, e) →
     e ∈ evts ∧ _parse_ical_metadata (to_ical e) = Ok (uid, lm)) ∧
  (∀ e, e ∈ evts → ∃ uid lm,
     _parse_ical_metadata (to_ical e) = Ok (uid, lm) ∧
     meta !! uid = Some (lm, e)).

Definition url_inj (evts : list CaldavEvent) : Prop :=
  ∀ e1 e2, e1 ∈ evts → e2 ∈ evts → url e1 = url e2 → e1 = e2.

Definition provenance (new_url : client → ical_bytes → string) (c : client)
    (evts0 : list CaldavEvent) (t : list call) (evts : list CaldavEvent)
  : Prop :=
  ∀ e, e ∈ evts →
    (∃ e0, e0 ∈ evts0 ∧ url e0 = url e) ∨
    (∃ raw, create_event c raw ∈ t ∧ e = mk_event (new_url c raw) raw).

Record cal_ok (new_url : client → ical_bytes → string) (c : client)
    (evts0 : list CaldavEvent) (t : list call) (evts : list CaldavEvent)
    (meta : gmap string (datetime * CaldavEvent)) : Prop := mk_cal_ok {
  cal_keyed : keyed evts meta;
  cal_urls : url_inj evts;
  cal_prov : provenance new_url c evts0 t evts
}.

(** The handles the server gives to the events a trace creates: none is
    the handle of an event of the views fetched at the start, and two
    payloads the trace creates on one calendar get two handles. *)
Definition fresh_urls (new_url : client → ical_bytes → string)
    (evts_a evts_b : list CaldavEvent) (t : list call) : Prop :=
  (∀ c raw e, create_event c raw ∈ t →
     e ∈ (match c with client_source => evts_a | client_target => evts_b end) →
     url e ≠ new_url c raw) ∧
  (∀ c raw raw', create_event c raw ∈ t → create_event c raw' ∈ t →
     new_url c raw = new_url c raw' → raw = raw').

(** The two calendars while the calls of a FULL run are served, [done]
    being the uids whose calls have been served. *)
Record settle_inv (new_url : client → ical_bytes → string)
    (old : gmap string datetime)
    (meta_a meta_b : gmap string (datetime * CaldavEvent))
    (evts_a evts_b : list CaldavEvent) (t : list call)
    (done : list string) (r : remote)
    (ma mb : gmap string (datetime * CaldavEvent)) : Prop := mk_settle_inv {
  settle_a : cal_ok new_url client_source evts_a t (cal_source r) ma;
  settle_b : cal_ok new_url client_target evts_b t (cal_target r) mb;
  settle_done : ∀ uid, uid ∈ done →
    fst <$> ma !! uid = (full_table old meta_a meta_b uid).2 ∧
    (fun v => instant v.1) <$> mb !! uid
    = instant <$> (full_table old meta_a meta_b uid).2;
  settle_todo : ∀ uid, uid ∉ done →
    ma !! uid = meta_a !! uid ∧ mb !! uid = meta_b !! uid
}.


(** ** Sample data for the scenarios *)

Definition utc (t : Z) : datetime := mk_datetime t 0.

(** A payload with one VEVENT, last modified at [lm]. *)
Definition vevent (uid : string) (lm : Z) (summary : string)
    (dtstart dtend : Z) : ical_bytes :=
  ical [ mk_component "VCALENDAR" None None None None None None [];
         mk_component "VEVENT" (Some uid) (Some (dt_datetime (utc lm))) None
           (Some summary) (Some (dt_datetime (utc dtstart)))
           (Some (dt_datetime (utc dtend))) [] ].

(** A backend that accepts every call. *)
Definition accept_all : call → option exn := fun _ => None.

(** A backend that answers every creation with the duplicate-uid error. *)
Definition refuse_creates : call → option exn := fun c =>
  match c with
  | create_event _ _ => Some PutError
  | _ => None
  end.

(** The two text conversions on a sample of two timestamps. *)
Definition sample_isoformat (d : datetime) : string :=
  if (instant d =? 10)%Z then "1970-01-01T00:00:10+00:00"
  else "1970-01-01T00:00:00+00:00".

Definition sample_fromisoformat (s : string) : option datetime :=
  if bool_decide (s = "1970-01-01T00:00:10+00:00") then Some (utc 10)
  else if bool_decide (s = "1970-01-01T00:00:00+00:00") then Some (utc 0)
  else None.

(** * Properties *)

(** ** The monads *)

Lemma contains_Some {V} (d : gmap string V) k v :
  d !! k = Some v → contains d k = true.
Proof.
  intros H. unfold contains. apply bool_decide_eq_true.
  apply elem_of_dom. eauto.
Qed.

Lemma contains_None {V} (d : gmap string V) k :
  d !! k = None → contains d k = false.
Proof.
  intros H. unfold contains. apply bool_decide_eq_false.
  rewrite elem_of_dom, H. intros [? ?]; discriminate.
Qed.

Lemma contains_true {V} (d : gmap string V) k :
  contains d k = true ↔ k ∈ dom d.
Proof. unfold contains. apply bool_decide_eq_true. Qed.

Lemma contains_false {V} (d : gmap string V) k :
  contains d k = false ↔ k ∉ dom d.
Proof. unfold contains. apply bool_decide_eq_false. Qed.

Lemma for_each_cons {X S} (body : X → S → M S) x l s :
  for_each body (x :: l) s = (body x s ≫= for_each body l).
Proof. reflexivity. Qed.

Lemma M_bind_Ok {X Y} (m : M X) (f : X → M Y) t y :
  (m ≫= f) = (t, Ok y) →
  ∃ t1 x t2, m = (t1, Ok x) ∧ f x = (t2, Ok y) ∧ t = t1 ++ t2.
Proof.
  destruct m as [t1 [x|e]]; unfold mbind, M_bind; [|discriminate].
  destruct (f x) as [t2 r] eqn:E. intros [= <- ->]. eauto 6.
Qed.

Lemma M_bind_trace {X Y} (m : M X) (f : X → M Y) c :
  c ∈ (m ≫= f).1 → c ∈ m.1 ∨ ∃ x, m.2 = Ok x ∧ c ∈ (f x).1.
Proof.
  destruct m as [t1 [x|e]]; unfold mbind, M_bind; simpl; [|auto].
  destruct (f x) as [t2 r] eqn:E. simpl. rewrite elem_of_app.
  intros [?|?]; [auto|]. right. exists x. rewrite E. auto.
Qed.

Lemma M_bind_Forall {X Y} (P : call → Prop) (m : M X) (f : X → M Y) :
  Forall P m.1 → (∀ x, m.2 = Ok x → Forall P (f x).1) →
  Forall P (m ≫= f).1.
Proof.
  destruct m as [t1 [x|e]]; unfold mbind, M_bind; simpl; [|done].
  intros H1 H2. specialize (H2 x eq_refl).
  destruct (f x) as [t2 r]. simpl in *. by apply Forall_app.
Qed.

(** A loop keeps an invariant [I] of its state, and every call it issues
    satisfies [P], when each turn does; [done] is the part of the list
    already visited. *)
Lemma for_each_inv {X S} (body : X → S → M S)
    (I : list X → S → Prop) (P : call → Prop) (l : list X) :
  ∀ done s,
    I done s →
    (∀ done' x rest s,
        done ++ l = done' ++ x :: rest → I done' s →
        Forall P (body x s).1 ∧
        ∀ s', (body x s).2 = Ok s' → I (done' ++ [x]) s') →
    Forall P (for_each body l s).1 ∧
    ∀ s', (for_each body l s).2 = Ok s' → I (done ++ l) s'.
Proof.
  induction l as [|x l IH]; intros done s HI Hstep.
  - simpl. split; [constructor|]. intros s' [= <-]. by rewrite app_nil_r.
  - rewrite for_each_cons.
    destruct (Hstep done x l s eq_refl HI) as [HP Hnext].
    destruct (body x s) as [t1 [s1|e]] eqn:Eb; unfold mbind, M_bind;
      simpl in *; [|split; [done|discriminate]].
    destruct (IH (done ++ [x]) s1) as [HP' Hfin].
    + by apply Hnext.
    + intros done' y rest s2 Heq. apply (Hstep done' y rest).
      by rewrite <- Heq, <- app_assoc.
    + destruct (for_each body l s1) as [t2 r] eqn:El. simpl in *. split.
      * by apply Forall_app.
      * intros s' ->. rewrite cons_middle, app_assoc. by apply Hfin.
Qed.

(** ** FULL mode *)

Section FullMode.
Variable backend : call → option exn.

Lemma full_body_table old meta_a meta_b uid new_state :
  full_body backend old meta_a meta_b uid new_state =
    let row := full_table old meta_a meta_b uid in
    (row.1, match refusal backend row.1 with
            | Some e => Raise e
            | None => Ok (record_ts uid row.2 new_state)
            end).
Proof.
  unfold full_body, full_table.
  destruct (old !! uid) as [p|] eqn:EP;
    destruct (meta_a !! uid) as [[lm_a ea]|] eqn:EA;
    destruct (meta_b !! uid) as [[lm_b eb]|] eqn:EB;
    repeat match goal with
      | H : _ !! _ = Some _ |- _ =>
          rewrite (contains_Some _ _ _ H); unfold getitem; rewrite ?H
      | H : _ !! _ = None |- _ => rewrite (contains_None _ _ H)
      end; simpl;
    unfold dt_gt; rewrite ?Z.gtb_ltb;
    repeat match goal with
      | |- context [(?a <? ?b)%Z] => destruct (a <? b)%Z
      end; simpl;
    unfold do_call, mbind, M_bind, mret, M_ret, lift; simpl;
    repeat match goal with
      | |- context [backend ?c] => destruct (backend c)
      end; reflexivity.
Qed.

Lemma for_each_table {X} (ops : X → list call)
    (upd : X → gmap string datetime → gmap string datetime)
    (body : X → gmap string datetime → M (gmap string datetime)) :
  (∀ x s, body x s = (ops x, match refusal backend (ops x) with
                             | Some e => Raise e
                             | None => Ok (upd x s)
                             end)) →
  ∀ l s,
    (∀ t s', for_each body l s = (t, Ok s') →
       t = flat_map ops l ∧ s' = foldl (fun s x => upd x s) s l) ∧
    (refusal backend (flat_map ops l) = None →
       for_each body l s
       = (flat_map ops l, Ok (foldl (fun s x => upd x s) s l))).
Proof.
  intros Hbody. induction l as [|x l IH]; intros s.
  - split; [intros t s' [= <- <-]; done | done].
  - rewrite for_each_cons, Hbody. simpl.
    assert (Href : ∀ a b, refusal backend (a ++ b) =
              match refusal backend a with
              | Some e => Some e
              | None => refusal backend b
              end).
    { induction a as [|c a IHa]; intros b; simpl; [done|].
      destruct (backend c); [done|apply IHa]. }
    rewrite Href.
    destruct (refusal backend (ops x)) as [e|]; unfold mbind, M_bind.
    + split; [intros t s' [=] | discriminate].
    + destruct (IH (upd x s)) as [IH1 IH2].
      destruct (for_each body l (upd x s)) as [t2 r] eqn:El. split.
      * intros t s' [= <- ->]. destruct (IH1 t2 s' eq_refl) as [-> ->]. done.
      * intros Hr. specialize (IH2 Hr). by injection IH2 as -> ->.
Qed.

Lemma foldl_record_lookup (f : string → option datetime) l uid :
  ∀ s : gmap string datetime,
    (foldl (fun s x => record_ts x (f x) s) s l) !! uid =
      if decide (uid ∈ l)
      then match f uid with Some t => Some t | None => s !! uid end
      else s !! uid.
Proof.
  induction l as [|x l IH]; intros s; simpl.
  - done.
  - rewrite IH. destruct (decide (uid = x)) as [->|Hne].
    + destruct (decide (x ∈ x :: l)) as [_|Hn];
        [|by destruct Hn; apply list_elem_of_here].
      unfold record_ts. destruct (f x) eqn:Ef.
      * rewrite lookup_insert_eq. by destruct (decide (x ∈ l)).
      * by destruct (decide (x ∈ l)).
    + assert (record_ts x (f x) s !! uid = s !! uid) as ->.
      { unfold record_ts. destruct (f x); [by rewrite lookup_insert_ne|done]. }
      destruct (decide (uid ∈ l)) as [Hin|Hnin];
        destruct (decide (uid ∈ x :: l)) as [Hin'|Hnin']; try done.
      * destruct Hnin'. by apply list_elem_of_further.
      * apply elem_of_cons in Hin' as [?|?]; done.
Qed.

Lemma full_table_outside P A B uid :
  uid ∉ dom P ∪ dom A ∪ dom B → full_table P A B uid = ([], None).
Proof.
  rewrite !not_elem_of_union, !not_elem_of_dom. intros [[HP HA] HB].
  unfold full_table. by rewrite HP, HA, HB.
Qed.
End FullMode.

(** C2.  [sync_caldav_caldav] implements the decision table of FULL mode.
    With [meta_a] and [meta_b] the two views keyed by uid, the calls of a
    run are, uid by uid over keys(P) ∪ keys(A) ∪ keys(B), the operations of
    the uid's row, and the next state holds for every uid exactly the
    timestamp of its row (nothing when the row omits it): when the backend
    refuses none of these calls the run ends with that trace and state, and
    every run that ends normally has that trace and state. *)
Theorem full_sync_decision_table (backend : call → option exn)
    (old : gmap string datetime) (evts_a evts_b : list CaldavEvent)
    (meta_a meta_b : gmap string (datetime * CaldavEvent)) :
  build_meta evts_a ∅ = Ok meta_a →
  build_meta evts_b ∅ = Ok meta_b →
  let uids := elements (dom old ∪ dom meta_a ∪ dom meta_b) in
  let plan := flat_map (fun uid => (full_table old meta_a meta_b uid).1) uids in
  (refusal backend plan = None →
   ∃ new_state,
     sync_caldav_caldav backend old evts_a evts_b = (plan, Ok new_state) ∧
     ∀ uid, new_state !! uid = (full_table old meta_a meta_b uid).2) ∧
  (∀ t new_state,
     sync_caldav_caldav backend old evts_a evts_b = (t, Ok new_state) →
     t = plan ∧
     ∀ uid, new_state !! uid = (full_table old meta_a meta_b uid).2).
Proof.
  intros Ha Hb uids plan.
  assert (Hrun : sync_caldav_caldav backend old evts_a evts_b
                 = for_each (full_body backend old meta_a meta_b) uids ∅).
  { unfold sync_caldav_caldav. rewrite Ha, Hb. unfold lift, mbind, M_bind.
    simpl. by destruct (for_each _ _ _). }
  pose proof (for_each_table backend
                (fun uid => (full_table old meta_a meta_b uid).1)
                (fun uid => record_ts uid (full_table old meta_a meta_b uid).2)
                (full_body backend old meta_a meta_b)
                (fun uid s => full_body_table backend old meta_a meta_b uid s)
                uids ∅) as [Hinv Hex].
  assert (Hlook : ∀ uid,
    foldl (fun s x => record_ts x (full_table old meta_a meta_b x).2 s) ∅ uids
      !! uid = (full_table old meta_a meta_b uid).2).
  { intros uid.
    rewrite (foldl_record_lookup
               (fun x => (full_table old meta_a meta_b x).2)).
    rewrite lookup_empty. case_decide as Hin.
    - by destruct (full_table old meta_a meta_b uid).2.
    - unfold uids in Hin. rewrite elem_of_elements in Hin.
      by rewrite full_table_outside. }
  split.
  - intros Hacc. eexists. split; [rewrite Hrun; by apply Hex|apply Hlook].
  - intros t new_state Hok. rewrite Hrun in Hok.
    destruct (Hinv t new_state Hok) as [-> ->]. split; [done|apply Hlook].
Qed.

Lemma full_sync_decision_table_witness :
  ∃ new_state,
    sync_caldav_caldav accept_all ∅
      [mk_event "/a/1.ics" (vevent "U1" 10 "Meet" 12 13)] []
    = ([create_event client_target (vevent "U1" 10 "Meet" 12 13)],
       Ok new_state) ∧
    ∀ uid, new_state !! uid =
      (full_table ∅
         {["U1" := (utc 10, mk_event "/a/1.ics" (vevent "U1" 10 "Meet" 12 13))]}
         ∅ uid).2.
Proof.
  destruct (full_sync_decision_table accept_all ∅
              [mk_event "/a/1.ics" (vevent "U1" 10 "Meet" 12 13)] []
              {["U1" := (utc 10,
                         mk_event "/a/1.ics" (vevent "U1" 10 "Meet" 12 13))]}
              ∅ eq_refl eq_refl) as [Hrun _].
  exact (Hrun eq_refl).
Defined.

(** ** Views keyed by uid *)

Lemma build_meta_lookup evts :
  ∀ meta meta' uid lm e,
    build_meta evts meta = Ok meta' →
    meta' !! uid = Some (lm, e) →
    meta !! uid = Some (lm, e) ∨
    (e ∈ evts ∧ _parse_ical_metadata (to_ical e) = Ok (uid, lm)).
Proof.
  induction evts as [|e0 evts IH]; intros meta meta' uid lm e; simpl.
  - intros [= <-]. auto.
  - destruct (_parse_ical_metadata (to_ical e0)) as [[uid0 lm0]|err] eqn:Ep;
      simpl; [|discriminate].
    intros Hb Hl. destruct (IH _ _ _ _ _ Hb Hl) as [Hprev|[Hin Hp]].
    + destruct (decide (uid0 = uid)) as [->|Hne].
      * rewrite lookup_insert_eq in Hprev. injection Hprev as -> ->.
        right. split; [apply list_elem_of_here|done].
      * rewrite lookup_insert_ne in Hprev by done. auto.
    + right. split; [by apply list_elem_of_further|done].
Qed.

Lemma NoDup_url_inj (l : list CaldavEvent) e1 e2 :
  NoDup (url <$> l) → e1 ∈ l → e2 ∈ l → url e1 = url e2 → e1 = e2.
Proof.
  induction l as [|e l IH]; simpl; intros Hnd H1 H2 Hu.
  - by apply elem_of_nil in H1.
  - apply NoDup_cons in Hnd as [Hnin Hnd].
    apply elem_of_cons in H1 as [->|H1]; apply elem_of_cons in H2 as [->|H2].
    + done.
    + destruct Hnin. rewrite Hu. by apply list_elem_of_fmap_2.
    + destruct Hnin. rewrite <- Hu. by apply list_elem_of_fmap_2.
    + by apply IH.
Qed.

(** ** FULL_ONEWAY mode *)

Ltac unfold_body :=
  repeat match goal with
    | H : _ !! _ = Some _ |- _ =>
        rewrite (contains_Some _ _ _ H); unfold getitem; rewrite ?H
    | H : _ !! _ = None |- _ => rewrite (contains_None _ _ H)
    end; simpl.

Ltac run_calls backend :=
  unfold do_call, mbind, M_bind, mret, M_ret, lift; simpl;
  repeat match goal with
    | |- context [backend ?c] => destruct (backend c)
    end; simpl.

Ltac trace_shape :=
  first [ by apply List.Forall_nil
        | apply List.Forall_cons; [|by apply List.Forall_nil] ].

Section OnewayMode.
Variable backend : call → option exn.
Variable old : gmap string datetime.
Variable meta_src : gmap string (datetime * ical_bytes).
Variable meta_tgt : gmap string (datetime * CaldavEvent).

Lemma oneway_body_calls uid new_state :
  Forall (oneway_call old meta_src meta_tgt)
    (oneway_body backend old meta_src meta_tgt uid new_state).1 ∧
  ∀ s', (oneway_body backend old meta_src meta_tgt uid new_state).2 = Ok s' →
        dom new_state ⊆ dom meta_src → dom s' ⊆ dom meta_src.
Proof.
  assert (Hdel : ∀ lm te, old !! uid ≠ None → meta_src !! uid = None →
             meta_tgt !! uid = Some (lm, te) →
             oneway_call old meta_src meta_tgt
               (delete_event client_target (url te))).
  { intros lm te HP HS HT. left. exists uid, lm, te.
    repeat split; [|by apply not_elem_of_dom|done].
    apply elem_of_dom. by destruct (old !! uid); [eauto|]. }
  assert (Hupd : ∀ lm te raw, meta_src !! uid ≠ None →
             meta_tgt !! uid = Some (lm, te) →
             oneway_call old meta_src meta_tgt
               (update_event client_target (url te) raw)).
  { intros lm te raw HS HT. right; right. exists uid, lm, te, raw.
    repeat split; [|done].
    apply elem_of_dom. by destruct (meta_src !! uid); [eauto|]. }
  unfold oneway_body.
  destruct (old !! uid) as [p|] eqn:EP;
    destruct (meta_src !! uid) as [[lm_s raw]|] eqn:ES;
    destruct (meta_tgt !! uid) as [[lm_t te]|] eqn:ET;
    unfold_body;
    repeat match goal with
      | |- context [dt_gt ?a ?b] => destruct (dt_gt a b)
      end; simpl;
    run_calls backend;
    (split;
     [ trace_shape;
       first [ by eapply Hdel | by eapply Hupd | right; left; by eauto ]
     | intros s' Hs' Hdom;
       first [ discriminate Hs'
             | simplify_eq;
               first [ done
                     | rewrite dom_insert_L; apply union_least;
                       [ apply singleton_subseteq_l, elem_of_dom; eauto
                       | done ] ] ] ]).
Qed.
End OnewayMode.

Lemma oneway_run_calls backend old src_events tgt_events meta_src meta_tgt :
  build_meta_src src_events ∅ = Ok meta_src →
  build_meta tgt_events ∅ = Ok meta_tgt →
  Forall (oneway_call old meta_src meta_tgt)
    (sync_caldav_full_oneway backend old src_events tgt_events).1 ∧
  ∀ new_state,
    (sync_caldav_full_oneway backend old src_events tgt_events).2 = Ok new_state →
    dom new_state ⊆ dom meta_src.
Proof.
  intros Hs Ht. unfold sync_caldav_full_oneway. rewrite Hs, Ht.
  unfold lift, mbind, M_bind. simpl.
  pose proof (for_each_inv (oneway_body backend old meta_src meta_tgt)
                (fun _ s => dom s ⊆ dom meta_src)
                (oneway_call old meta_src meta_tgt)
                (elements (dom old ∪ dom meta_src ∪ dom meta_tgt)) [] ∅) as H.
  destruct H as [HP HI].
  - rewrite dom_empty_L. apply empty_subseteq.
  - intros done' x rest s _ Hdom.
    destruct (oneway_body_calls backend old meta_src meta_tgt x s) as [H1 H2].
    split; [done|]. intros s' Hs'. by apply H2.
  - destruct (for_each _ _ _) as [t r]. simpl in *. split; [done|].
    intros new_state ->. by apply HI.
Qed.

(** C5.  In a run of [sync_caldav_full_oneway], every [delete_event] goes
    to the target and removes an event of the target view whose uid is a
    key of the previous state.  An event of the target view whose uid is
    neither in the previous state nor in the source view (taken without its
    Busy events) is not recorded in the next state, and, the handles of the
    target view being distinct, no deletion or update of the run carries
    its handle. *)
Theorem oneway_deletion_requires_prior_presence
    (backend : call → option exn) (old : gmap string datetime)
    (src_events tgt_events : list CaldavEvent)
    (meta_src : gmap string (datetime * ical_bytes))
    (meta_tgt : gmap string (datetime * CaldavEvent))
    (t : list call) (r : result (gmap string datetime)) :
  build_meta_src src_events ∅ = Ok meta_src →
  build_meta tgt_events ∅ = Ok meta_tgt →
  sync_caldav_full_oneway backend old src_events tgt_events = (t, r) →
  (∀ c u, delete_event c u ∈ t →
     c = client_target ∧
     ∃ e uid lm, e ∈ tgt_events ∧ url e = u ∧
       _parse_ical_metadata (to_ical e) = Ok (uid, lm) ∧ uid ∈ dom old) ∧
  (∀ e uid lm,
     e ∈ tgt_events →
     _parse_ical_metadata (to_ical e) = Ok (uid, lm) →
     uid ∉ dom meta_src → uid ∉ dom old →
     (∀ new_state, r = Ok new_state → new_state !! uid = None) ∧
     (NoDup (url <$> tgt_events) →
      ∀ op, op ∈ t →
        ∀ c raw, op ≠ delete_event c (url e) ∧
                 op ≠ update_event c (url e) raw)).
Proof.
  intros Hs Ht Hrun.
  destruct (oneway_run_calls backend old _ _ _ _ Hs Ht) as [Hcalls Hdom].
  rewrite Hrun in Hcalls, Hdom. simpl in *.
  rewrite Forall_forall in Hcalls.
  assert (Hview : ∀ uid lm te, meta_tgt !! uid = Some (lm, te) →
            te ∈ tgt_events ∧ _parse_ical_metadata (to_ical te) = Ok (uid, lm)).
  { intros uid lm te Hl.
    destruct (build_meta_lookup _ _ _ _ _ _ Ht Hl) as [Hem|?]; [|done].
    by rewrite lookup_empty in Hem. }
  split.
  - intros c u Hin.
    destruct (Hcalls _ Hin) as [(uid & lm & te & Heq & Hold & _ & Hl)
                               |[(raw & Heq)|(uid & lm & te & raw & Heq & _)]];
      try discriminate.
    injection Heq as -> ->. split; [done|].
    destruct (Hview _ _ _ Hl) as [Hin' Hp]. exists te, uid, lm. done.
  - intros e uid lm Hin Hp Hnsrc Hnold. split.
    + intros new_state ->. apply not_elem_of_dom.
      intros Hd. apply Hnsrc. by apply (Hdom new_state).
    + intros Hnd op Hop c raw.
      destruct (Hcalls _ Hop) as [(uid' & lm' & te & -> & Hold & _ & Hl)
                               |[(raw' & ->)|(uid' & lm' & te & raw' & -> & Hsrc & Hl)]].
      * split; [|discriminate]. intros [= _ Hu].
        destruct (Hview _ _ _ Hl) as [Hin' Hp'].
        assert (te = e) as -> by by apply (NoDup_url_inj tgt_events).
        rewrite Hp in Hp'. by injection Hp' as -> ->.
      * split; discriminate.
      * split; [discriminate|]. intros [= _ Hu _].
        destruct (Hview _ _ _ Hl) as [Hin' Hp'].
        assert (te = e) as -> by by apply (NoDup_url_inj tgt_events).
        rewrite Hp in Hp'. by injection Hp' as -> ->.
Qed.

Lemma oneway_deletion_requires_prior_presence_witness :
  let e0 := mk_event "/b/0.ics" (vevent "U0" 3 "Standup" 9 10) in
  let e1 := mk_event "/b/1.ics" (vevent "U1" 5 "Dentist" 15 16) in
  let t := [delete_event client_target "/b/0.ics"] in
  sync_caldav_full_oneway accept_all {["U0" := utc 3]} [] [e0; e1]
    = (t, Ok ∅) ∧
  (∃ e uid lm, e ∈ [e0; e1] ∧ url e = "/b/0.ics" ∧
     _parse_ical_metadata (to_ical e) = Ok (uid, lm) ∧
     uid ∈ dom ({["U0" := utc 3]} : gmap string datetime)) ∧
  (∀ op, op ∈ t →
     ∀ c raw, op ≠ delete_event c (url e1) ∧ op ≠ update_event c (url e1) raw).
Proof.
  intros e0 e1 t.
  assert (Hrun : sync_caldav_full_oneway accept_all {["U0" := utc 3]} []
                   [e0; e1] = (t, Ok ∅)) by (vm_compute; reflexivity).
  destruct (oneway_deletion_requires_prior_presence accept_all
              {["U0" := utc 3]} [] [e0; e1] ∅
              (<["U1" := (utc 5, e1)]> {["U0" := (utc 3, e0)]})
              t (Ok ∅) eq_refl eq_refl Hrun) as [Hdel Hkeep].
  split; [exact Hrun|]. split.
  - apply (Hdel client_target "/b/0.ics"). apply list_elem_of_here.
  - apply (Hkeep e1 "U1" (utc 5)).
    + apply list_elem_of_further, list_elem_of_here.
    + reflexivity.
    + rewrite dom_empty_L. apply not_elem_of_empty.
    + rewrite dom_singleton_L. by apply not_elem_of_singleton.
    + simpl. apply NoDup_cons. split.
      * by apply not_elem_of_cons; split; [|apply not_elem_of_nil].
      * apply NoDup_singleton.
Defined.

(** ** Codec failures *)

Lemma parse_metadata_raises raw e :
  _parse_ical_metadata raw = Raise e → e = ValueError.
Proof.
  unfold _parse_ical_metadata. destruct raw as [|walk]; simpl.
  - by intros [= <-].
  - destruct (List.find is_vevent walk) as [comp|]; [|by intros [= <-]].
    destruct (or_else _ _) as [[d|day]|]; [discriminate|by intros [= <-]..].
Qed.

Lemma get_summary_raises raw e :
  _get_summary raw = Raise e → e = ValueError.
Proof.
  unfold _get_summary. destruct raw as [|walk]; simpl.
  - by intros [= <-].
  - by destruct (List.find is_vevent walk).
Qed.

Lemma build_meta_raises evts e0 :
  e0 ∈ evts →
  (∃ err, _parse_ical_metadata (to_ical e0) = Raise err) →
  ∀ meta, build_meta evts meta = Raise ValueError.
Proof.
  intros Hin [err Herr]. induction evts as [|e evts IH]; intros meta.
  - by apply elem_of_nil in Hin.
  - simpl. destruct (_parse_ical_metadata (to_ical e)) as [[uid lm]|err'] eqn:Ep.
    + simpl. apply elem_of_cons in Hin as [->|Hin]; [congruence|by apply IH].
    + simpl. by rewrite (parse_metadata_raises _ _ Ep).
Qed.

Lemma build_meta_result evts :
  ∀ meta, (∃ meta', build_meta evts meta = Ok meta') ∨
          build_meta evts meta = Raise ValueError.
Proof.
  induction evts as [|e evts IH]; intros meta; simpl; [eauto|].
  destruct (_parse_ical_metadata (to_ical e)) as [[uid lm]|err] eqn:Ep; simpl.
  - apply IH.
  - right. by rewrite (parse_metadata_raises _ _ Ep).
Qed.

Lemma build_src_meta_raises evts e0 :
  e0 ∈ evts →
  (∃ err, _parse_ical_metadata (to_ical e0) = Raise err) →
  ∀ meta, build_src_meta evts meta = Raise ValueError.
Proof.
  intros Hin [err Herr]. induction evts as [|e evts IH]; intros meta.
  - by apply elem_of_nil in Hin.
  - simpl. destruct (_parse_ical_metadata (to_ical e)) as [[uid lm]|err'] eqn:Ep.
    + simpl. apply elem_of_cons in Hin as [->|Hin]; [congruence|by apply IH].
    + simpl. by rewrite (parse_metadata_raises _ _ Ep).
Qed.

Lemma build_src_meta_result evts :
  ∀ meta, (∃ meta', build_src_meta evts meta = Ok meta') ∨
          build_src_meta evts meta = Raise ValueError.
Proof.
  induction evts as [|e evts IH]; intros meta; simpl; [eauto|].
  destruct (_parse_ical_metadata (to_ical e)) as [[uid lm]|err] eqn:Ep; simpl.
  - apply IH.
  - right. by rewrite (parse_metadata_raises _ _ Ep).
Qed.

Lemma build_tgt_index_raises evts e0 :
  e0 ∈ evts →
  (∃ err, _parse_ical_metadata (to_ical e0) = Raise err) →
  ∀ ix, build_tgt_index evts ix = Raise ValueError.
Proof.
  intros Hin [err Herr]. induction evts as [|e evts IH]; intros ix.
  - by apply elem_of_nil in Hin.
  - simpl. destruct (_parse_ical_metadata (to_ical e)) as [[uid lm]|err'] eqn:Ep.
    + simpl. apply elem_of_cons in Hin as [->|Hin]; [congruence|].
      destruct (_get_summary (to_ical e)) as [summ|err'] eqn:Es; simpl.
      * case_bool_decide; by apply IH.
      * by rewrite (get_summary_raises _ _ Es).
    + simpl. by rewrite (parse_metadata_raises _ _ Ep).
Qed.

Lemma build_meta_src_result evts :
  ∀ meta, (∃ meta', build_meta_src evts meta = Ok meta') ∨
          build_meta_src evts meta = Raise ValueError.
Proof.
  induction evts as [|e evts IH]; intros meta; simpl; [eauto|].
  destruct (to_ical e) as [|walk] eqn:Er; simpl; [by right|].
  case_bool_decide; [apply IH|].
  destruct (_parse_ical_metadata (ical walk)) as [[uid lm]|err] eqn:Ep; simpl.
  - apply IH.
  - right. by rewrite (parse_metadata_raises _ _ Ep).
Qed.

Lemma build_meta_src_raises evts e0 :
  e0 ∈ evts →
  (∃ err, _parse_ical_metadata (to_ical e0) = Raise err) →
  (∀ walk, to_ical e0 = ical walk → first_summary walk ≠ Some "Busy") →
  ∀ meta, build_meta_src evts meta = Raise ValueError.
Proof.
  intros Hin [err Herr] Hsum. induction evts as [|e evts IH]; intros meta.
  - by apply elem_of_nil in Hin.
  - simpl. destruct (to_ical e) as [|walk] eqn:Er; simpl; [done|].
    apply elem_of_cons in Hin as [->|Hin].
    + rewrite bool_decide_eq_false_2 by by apply Hsum.
      rewrite <- Er, Herr. simpl. by rewrite (parse_metadata_raises _ _ Herr).
    + case_bool_decide; [by apply IH|].
      destruct (_parse_ical_metadata (ical walk)) as [[uid lm]|err'] eqn:Ep;
        simpl; [by apply IH|].
      by rewrite (parse_metadata_raises _ _ Ep).
Qed.

(** C8.  A fetched event whose payload yields no uid and timestamp is not
    skipped: the [ValueError] of the extraction ends the run of the mapping
    before any backend call, in each of the three reconcilers; there is no
    next state.  (In FULL_ONEWAY mode a source event whose SUMMARY is Busy
    is passed over before the extraction is tried.) *)
Theorem codec_failure_aborts_run (backend : call → option exn)
    (now : string → datetime) (e0 : CaldavEvent) (err : exn) :
  _parse_ical_metadata (to_ical e0) = Raise err →
  (∀ old evts_a evts_b,
     e0 ∈ evts_a ++ evts_b →
     sync_caldav_caldav backend old evts_a evts_b = ([], Raise ValueError)) ∧
  (∀ old src_events tgt_events,
     e0 ∈ src_events ++ tgt_events →
     sync_caldav_busy backend now old src_events tgt_events
     = ([], Raise ValueError)) ∧
  (∀ old src_events tgt_events,
     e0 ∈ tgt_events ∨
     (e0 ∈ src_events ∧
      ∀ walk, to_ical e0 = ical walk → first_summary walk ≠ Some "Busy") →
     sync_caldav_full_oneway backend old src_events tgt_events
     = ([], Raise ValueError)).
Proof.
  intros Herr. split; [|split].
  - intros old evts_a evts_b Hin. unfold sync_caldav_caldav.
    apply elem_of_app in Hin as [Hin|Hin].
    + by rewrite (build_meta_raises evts_a e0) by eauto.
    + destruct (build_meta_result evts_a ∅) as [[meta_a ->]| ->]; [|done].
      by rewrite (build_meta_raises evts_b e0) by eauto.
  - intros old src_events tgt_events Hin. unfold sync_caldav_busy.
    apply elem_of_app in Hin as [Hin|Hin].
    + by rewrite (build_src_meta_raises src_events e0) by eauto.
    + destruct (build_src_meta_result src_events ∅) as [[meta ->]| ->]; [|done].
      by rewrite (build_tgt_index_raises tgt_events e0) by eauto.
  - intros old src_events tgt_events [Hin|[Hin Hsum]];
      unfold sync_caldav_full_oneway.
    + destruct (build_meta_src_result src_events ∅) as [[meta ->]| ->]; [|done].
      by rewrite (build_meta_raises tgt_events e0) by eauto.
    + by rewrite (build_meta_src_raises src_events e0) by eauto.
Qed.

Lemma codec_failure_aborts_run_witness :
  let bad := mk_event "/a/0.ics"
               (ical [mk_component "VEVENT" (Some "U0") None None
                        (Some "Draft") None None []]) in
  let good := mk_event "/a/1.ics" (vevent "U1" 10 "Meet" 12 13) in
  sync_caldav_busy accept_all (fun _ => utc 20) empty_busy_state [good; bad] []
  = ([], Raise ValueError).
Proof.
  intros bad good.
  destruct (codec_failure_aborts_run accept_all (fun _ => utc 20) bad
              ValueError eq_refl) as (_ & Hbusy & _).
  apply Hbusy. simpl. apply list_elem_of_further, list_elem_of_here.
Defined.

(** C8, refuted as stated: with an event without timestamp in the view, the
    FULL reconciler does not go on to create the remaining event; the run
    ends with the exception and no call. *)
Lemma codec_failure_is_not_skipped :
  let bad := mk_event "/a/0.ics"
               (ical [mk_component "VEVENT" (Some "U0") None None
                        (Some "Draft") None None []]) in
  let good := mk_event "/a/1.ics" (vevent "U1" 10 "Meet" 12 13) in
  _parse_ical_metadata (to_ical bad) = Raise ValueError ∧
  sync_caldav_caldav accept_all ∅ [good] []
  = ([create_event client_target (to_ical good)], Ok {["U1" := utc 10]}) ∧
  sync_caldav_caldav accept_all ∅ [bad; good] [] = ([], Raise ValueError).
Proof. vm_compute. done. Qed.

(** ** The state store *)

Section Persist.
Variable json_chunks : json → list string.

Lemma append_assoc (a b c : string) : (a +:+ b) +:+ c = a +:+ (b +:+ c).
Proof.
  induction a as [|ch a IH]; [done|].
  change (String ch ((a +:+ b) +:+ c) = String ch (a +:+ (b +:+ c))).
  by rewrite IH.
Qed.

Lemma append_empty_r (a : string) : a +:+ "" = a.
Proof.
  induction a as [|ch a IH]; [done|].
  change (String ch (a +:+ "") = String ch a). by rewrite IH.
Qed.

Lemma write_chunks path (chunks : list string) :
  ∀ s (files : gmap string string),
    foldl fs_step (<[path := s]> files) (fs_write path <$> chunks)
    = <[path := s +:+ join chunks]> files.
Proof.
  induction chunks as [|c chunks IH]; intros s files; simpl.
  - by rewrite append_empty_r.
  - rewrite alter_insert_eq, IH. by rewrite append_assoc.
Qed.

Lemma crash_after_open path obj files k :
  crash_after (S k) (persist json_chunks path obj) files
  = <[path := join (take k (json_chunks obj))]> files.
Proof.
  unfold crash_after, persist. simpl.
  rewrite take_app, foldl_app, <- fmap_take, write_chunks.
  change ("" +:+ join (take k (json_chunks obj)))
    with (join (take k (json_chunks obj))).
  by destruct (k - length (fs_write path <$> json_chunks obj))%nat as [|[|n]].
Qed.
End Persist.

(** C7.  Every persist works on the state path itself: it opens the path
    for writing, which truncates the file, appends the chunks of the
    serialized state and closes it; no other path is written and nothing is
    renamed.  The file is written only by a run no exception has ended.  A
    crash before the open leaves the files as they were; a crash after the
    open and [k] further steps leaves at the state path the first [k]
    chunks of the new content (nothing when [k = 0]), and once all steps are
    done the path holds the complete new content. *)
Theorem persist_writes_in_place (json_chunks : json → list string)
    (state_path : string) (obj : json) (files : gmap string string) :
  let ops := persist json_chunks state_path obj in
  Forall (fun op => op = fs_open_w state_path ∨
                    (∃ chunk, op = fs_write state_path chunk) ∨
                    op = fs_close state_path) ops ∧
  (∀ t e, write_state json_chunks state_path (t, Raise e) = (t, [])) ∧
  (∀ t, write_state json_chunks state_path (t, Ok obj) = (t, ops)) ∧
  crash_after 0 ops files = files ∧
  (∀ k, crash_after (S k) ops files
        = <[state_path := join (take k (json_chunks obj))]> files) ∧
  crash_after (length ops) ops files !! state_path
  = Some (join (json_chunks obj)).
Proof.
  intros ops. repeat split.
  - unfold ops, persist. apply List.Forall_cons; [by left|].
    apply Forall_app. split.
    + apply Forall_fmap, Forall_true. intros chunk. right; left. by exists chunk.
    + apply List.Forall_cons; [by right; right|apply List.Forall_nil].
  - intros k. apply crash_after_open.
  - unfold ops at 1. unfold persist. simpl length. fold ops.
    unfold ops. rewrite crash_after_open, lookup_insert_eq.
    rewrite take_ge; [done|]. rewrite length_app, length_fmap. lia.
Qed.

(** C7, refuted as stated: the first step of a persist is the truncating
    open of the state path itself, no step renames, and a crash right after
    that step leaves an empty state file, which is neither the old content
    nor the new one. *)
Lemma persist_is_not_atomic :
  let ops := persist (fun _ => ["{}"]) "state.json" (JObject []) in
  let files : gmap string string := {["state.json" := "{}"]} in
  ops = [fs_open_w "state.json"; fs_write "state.json" "{}";
         fs_close "state.json"] ∧
  files !! "state.json" = Some "{}" ∧
  crash_after (length ops) ops files !! "state.json" = Some "{}" ∧
  crash_after 1 ops files !! "state.json" = Some "".
Proof. vm_compute. done. Qed.

(** C6.  The loaders of FULL and BUSY mode at a malformed state file, at an
    unreadable one and at a file of another mode: [json.load] and
    [fromisoformat] raise outside any [try], so the run of the mapping ends
    with the exception before any call; a FULL state file with the uid
    [tombstones] is read by the BUSY loader as a set of tombstones.  Only
    the FULL_ONEWAY loader answers a malformed file with a warning and the
    empty state. *)
Theorem full_and_busy_loaders_abort (fromisoformat : string → option datetime)
    (isoformat : datetime → string) (backend : call → option exn)
    (now : string → datetime) (evts_a evts_b : list CaldavEvent)
    (ts : datetime) :
  load_full fromisoformat malformed = Raise ValueError ∧
  load_busy fromisoformat malformed = Raise ValueError ∧
  load_full fromisoformat unreadable = Raise OSError ∧
  load_busy fromisoformat unreadable = Raise OSError ∧
  run_full fromisoformat isoformat backend malformed evts_a evts_b
  = ([], Raise ValueError) ∧
  run_busy fromisoformat isoformat backend now malformed evts_a evts_b
  = ([], Raise ValueError) ∧
  load_full fromisoformat (document (busy_json isoformat empty_busy_state))
  = Raise TypeError ∧
  load_busy fromisoformat
    (document (full_json isoformat {["tombstones" := ts]}))
  = Ok (mk_busy_state ∅ ∅ (list_to_set (chars (isoformat ts))) ∅) ∧
  load_oneway fromisoformat malformed = ([WARNING], ∅).
Proof.
  repeat split.
Qed.

(** ** BUSY mode: the index of the target view *)

Lemma tgt_index_ok_empty : tgt_index_ok [] (mk_tgt_index ∅ ∅ ∅).
Proof.
  split; simpl.
  - by rewrite dom_empty_L.
  - intros uid e raw lm H. by rewrite lookup_empty in H.
  - intros uid e raw lm H. by rewrite lookup_empty in H.
  - intros e H. by apply elem_of_nil in H.
Qed.

Lemma tgt_index_ok_real seen ix e uid lm summ :
  tgt_index_ok seen ix →
  _parse_ical_metadata (to_ical e) = Ok (uid, lm) →
  _get_summary (to_ical e) = Ok summ → summ ≠ Some "Busy" →
  tgt_index_ok (seen ++ [e])
    (mk_tgt_index (<[uid := (e, to_ical e, lm)]> (real_meta ix))
       (busy_meta ix) ({[uid]} ∪ cur_real_uids ix)).
Proof.
  intros [Hdom Hbusy Hreal Hall] Hp Hs Hne. split; simpl.
  - by rewrite dom_insert_L, Hdom.
  - intros u e' raw lm' Hl. destruct (Hbusy _ _ _ _ Hl) as (?&?&?&?).
    repeat split; try done. apply elem_of_app. by left.
  - intros u e' raw lm' Hl. destruct (decide (uid = u)) as [->|Hu].
    + rewrite lookup_insert_eq in Hl. injection Hl as <- <- <-.
      repeat split; try done.
      * apply elem_of_app. right. apply list_elem_of_here.
      * unfold is_busy. rewrite Hs. by intros [= ->].
    + rewrite lookup_insert_ne in Hl by done.
      destruct (Hreal _ _ _ _ Hl) as (?&?&?&?).
      repeat split; try done. apply elem_of_app. by left.
  - intros e' Hin. apply elem_of_app in Hin as [Hin|Hin].
    + destruct (Hall _ Hin) as (u & lm' & Hp' & Hor). exists u, lm'.
      split; [done|]. destruct Hor; [left|by right].
      apply elem_of_union. by right.
    + apply list_elem_of_singleton in Hin as ->. exists uid, lm.
      split; [done|]. left. apply elem_of_union. left.
      by apply elem_of_singleton.
Qed.

Lemma tgt_index_ok_busy seen ix e uid lm :
  tgt_index_ok seen ix →
  _parse_ical_metadata (to_ical e) = Ok (uid, lm) →
  _get_summary (to_ical e) = Ok (Some "Busy") →
  tgt_index_ok (seen ++ [e])
    (mk_tgt_index (real_meta ix)
       (<[uid := (e, to_ical e, lm)]> (busy_meta ix)) (cur_real_uids ix)).
Proof.
  intros [Hdom Hbusy Hreal Hall] Hp Hs. split; simpl.
  - done.
  - intros u e' raw lm' Hl. destruct (decide (uid = u)) as [->|Hu].
    + rewrite lookup_insert_eq in Hl. injection Hl as <- <- <-.
      repeat split; try done.
      apply elem_of_app. right. apply list_elem_of_here.
    + rewrite lookup_insert_ne in Hl by done.
      destruct (Hbusy _ _ _ _ Hl) as (?&?&?&?).
      repeat split; try done. apply elem_of_app. by left.
  - intros u e' raw lm' Hl. destruct (Hreal _ _ _ _ Hl) as (?&?&?&?).
    repeat split; try done. apply elem_of_app. by left.
  - intros e' Hin. apply elem_of_app in Hin as [Hin|Hin].
    + destruct (Hall _ Hin) as (u & lm' & Hp' & Hor). exists u, lm'.
      split; [done|]. destruct Hor; [by left|right].
      rewrite dom_insert_L. apply elem_of_union. by right.
    + apply list_elem_of_singleton in Hin as ->. exists uid, lm.
      split; [done|]. right. rewrite dom_insert_L. apply elem_of_union.
      left. by apply elem_of_singleton.
Qed.

Lemma build_tgt_index_ok evts :
  ∀ seen ix0 ix,
    tgt_index_ok seen ix0 →
    build_tgt_index evts ix0 = Ok ix →
    tgt_index_ok (seen ++ evts) ix.
Proof.
  induction evts as [|e evts IH]; intros seen ix0 ix Hok; simpl.
  - intros [= <-]. by rewrite app_nil_r.
  - destruct (_parse_ical_metadata (to_ical e)) as [[uid lm]|err] eqn:Ep;
      simpl; [|discriminate].
    destruct (_get_summary (to_ical e)) as [summ|err] eqn:Es;
      simpl; [|discriminate].
    rewrite cons_middle, app_assoc. case_bool_decide as Hs; intros Hb.
    + eapply IH; [|exact Hb]. by eapply tgt_index_ok_real.
    + eapply IH; [|exact Hb]. apply tgt_index_ok_busy; [done..|].
      rewrite Es. f_equal. by destruct (decide (summ = Some "Busy")).
Qed.

Lemma build_src_meta_lookup evts :
  ∀ meta meta' uid e raw lm,
    build_src_meta evts meta = Ok meta' →
    meta' !! uid = Some (e, raw, lm) →
    meta !! uid = Some (e, raw, lm) ∨
    (e ∈ evts ∧ raw = to_ical e ∧ _parse_ical_metadata raw = Ok (uid, lm)).
Proof.
  induction evts as [|e0 evts IH]; intros meta meta' uid e raw lm; simpl.
  - intros [= <-]. auto.
  - destruct (_parse_ical_metadata (to_ical e0)) as [[uid0 lm0]|err] eqn:Ep;
      simpl; [|discriminate].
    intros Hb Hl. destruct (IH _ _ _ _ _ _ Hb Hl) as [Hprev|(Hin & Hr & Hp)].
    + destruct (decide (uid0 = uid)) as [->|Hne].
      * rewrite lookup_insert_eq in Hprev. injection Hprev as <- <- <-.
        right. split; [apply list_elem_of_here|done].
      * rewrite lookup_insert_ne in Hprev by done. auto.
    + right. split; [by apply list_elem_of_further|done].
Qed.

(** ** BUSY mode: the deletion passes *)

Section BusyPasses.
Variable backend : call → option exn.

Lemma deleted_on_a_pass (real_meta : gmap string meta3) l tombs :
  Forall (fun c => ∃ uid e raw lm,
            c = delete_event client_target (url e) ∧ uid ∈ l ∧
            real_meta !! uid = Some (e, raw, lm))
    (for_each (deleted_on_a_body backend real_meta) l tombs).1 ∧
  ∀ tombs', (for_each (deleted_on_a_body backend real_meta) l tombs).2
            = Ok tombs' →
            tombs' = list_to_set l ∪ tombs.
Proof.
  apply (for_each_inv (deleted_on_a_body backend real_meta)
           (fun done s => s = list_to_set done ∪ tombs) _ l [] tombs).
  - set_solver.
  - intros done' uid rest s Hpos ->. simpl in Hpos.
    assert (Hin : uid ∈ l).
    { rewrite Hpos. apply elem_of_app. right. apply list_elem_of_here. }
    unfold deleted_on_a_body.
    destruct (real_meta !! uid) as [[[e raw] lm]|] eqn:El; unfold_body;
      run_calls backend;
      (split; [trace_shape; by exists uid, e, raw, lm
              | intros s' Hs'; first [discriminate Hs' | simplify_eq];
                rewrite list_to_set_app_L; set_solver]).
Qed.

Lemma deleted_on_b_body_eq uid (src : gmap string meta3) tombs :
  deleted_on_b_body backend uid (src, tombs) =
    match src !! uid with
    | Some (e, _, _) =>
        ([delete_event client_source (url e)],
         match backend (delete_event client_source (url e)) with
         | Some err => Raise err
         | None => Ok (delete uid src, {[uid]} ∪ tombs)
         end)
    | None => ([], Ok (src, {[uid]} ∪ tombs))
    end.
Proof.
  unfold deleted_on_b_body. cbn beta iota.
  destruct (src !! uid) as [[[e raw] lm]|] eqn:El; unfold_body;
    run_calls backend; reflexivity.
Qed.

Lemma deleted_on_b_pass (src : gmap string meta3) l tombs :
  Forall (fun c => ∃ uid e raw lm,
            c = delete_event client_source (url e) ∧ uid ∈ l ∧
            src !! uid = Some (e, raw, lm))
    (for_each (deleted_on_b_body backend) l (src, tombs)).1 ∧
  ∀ st, (for_each (deleted_on_b_body backend) l (src, tombs)).2 = Ok st →
        st.2 = list_to_set l ∪ tombs ∧
        ∀ k, st.1 !! k = if decide (k ∈ l) then None else src !! k.
Proof.
  destruct (for_each_inv (deleted_on_b_body backend)
           (fun done st =>
              st.2 = list_to_set done ∪ tombs ∧
              ∀ k, st.1 !! k = if decide (k ∈ done) then None else src !! k)
           (fun c => ∃ uid e raw lm,
              c = delete_event client_source (url e) ∧ uid ∈ l ∧
              src !! uid = Some (e, raw, lm))
           l [] (src, tombs)) as [HP HI]; [| |split; [exact HP|exact HI]].
  - split; [set_solver|]. intros k. simpl. done.
  - intros done' uid rest [s tb] Hpos [Htb Hs]. simpl in Hpos, Htb, Hs.
    assert (Hin : uid ∈ l).
    { rewrite Hpos. apply elem_of_app. right. apply list_elem_of_here. }
    rewrite deleted_on_b_body_eq.
    assert (Hstep : ∀ s' : gmap string meta3,
              (∀ k, s' !! k = if decide (k = uid) then None
                                          else s !! k) →
              ∀ k, s' !! k = if decide (k ∈ done' ++ [uid]) then None
                             else src !! k).
    { intros s' Hs' k. rewrite Hs', Hs.
      destruct (decide (k = uid)) as [->|Hne].
      - rewrite decide_True; [done|]. apply elem_of_app. right.
        apply list_elem_of_here.
      - destruct (decide (k ∈ done')) as [Hd|Hd].
        + rewrite decide_True; [done|]. apply elem_of_app. by left.
        + rewrite decide_False; [done|]. rewrite elem_of_app.
          intros [?|Hk]; [done|]. by apply list_elem_of_singleton in Hk. }
    destruct (s !! uid) as [[[e raw] lm]|] eqn:El; simpl.
    + split.
      * trace_shape. exists uid, e, raw, lm. repeat split; try done.
        specialize (Hs uid). rewrite El in Hs.
        by destruct (decide (uid ∈ done')).
      * intros st Hst. destruct (backend _); [discriminate|].
        injection Hst as <-. simpl. split.
        -- rewrite Htb, list_to_set_app_L. set_solver.
        -- apply Hstep. intros k. destruct (decide (k = uid)) as [->|Hne].
           ++ by rewrite lookup_delete_eq.
           ++ by rewrite lookup_delete_ne.
    + split; [trace_shape|]. intros st [= <-]. simpl. split.
      * rewrite Htb, list_to_set_app_L. set_solver.
      * apply Hstep. intros k. by destruct (decide (k = uid)) as [->|Hne].
Qed.

Lemma deleted_on_b_issued l :
  ∀ (src : gmap string meta3) tombs t st uid e raw lm,
    for_each (deleted_on_b_body backend) l (src, tombs) = (t, Ok st) →
    uid ∈ l → src !! uid = Some (e, raw, lm) →
    delete_event client_source (url e) ∈ t.
Proof.
  induction l as [|x l IH]; intros src tombs t st uid e raw lm Hrun Hin Hl.
  - by apply elem_of_nil in Hin.
  - rewrite for_each_cons in Hrun.
    apply M_bind_Ok in Hrun as (t1 & [s1 tb1] & t2 & Hb & Hrest & ->).
    rewrite deleted_on_b_body_eq in Hb. apply elem_of_app.
    destruct (decide (x = uid)) as [->|Hne].
    + rewrite Hl in Hb. injection Hb as <- _. left. apply list_elem_of_here.
    + right. apply elem_of_cons in Hin as [?|Hin]; [done|].
      eapply (IH s1 tb1 t2 st uid e raw lm); [done..|].
      destruct (src !! x) as [[[e' raw'] lm']|] eqn:El.
      * destruct (backend _); [discriminate|]. injection Hb as _ <- _.
        by rewrite lookup_delete_ne.
      * by injection Hb as _ <- _.
Qed.
End BusyPasses.

(** ** BUSY mode: the reconcile loop *)

Section BusyLoop.
Variable backend : call → option exn.
Variable now : string → datetime.
Variable old_synced : gmap string datetime.
Variable src_meta : gmap string meta3.
Variable ix : tgt_index.
Variable tgt_events : list CaldavEvent.
Hypothesis Hix : tgt_index_ok tgt_events ix.

Lemma put_fallback_skips evts uid busy_ical :
  (∀ e, e ∈ evts → ∃ uid' lm,
     _parse_ical_metadata (to_ical e) = Ok (uid', lm) ∧ uid' ≠ uid) →
  put_fallback backend evts uid busy_ical = ([], Ok ()).
Proof.
  induction evts as [|e evts IH]; intros Hall; simpl; [done|].
  destruct (Hall e) as (uid' & lm & -> & Hne); [apply list_elem_of_here|].
  simpl. rewrite bool_decide_eq_false_2 by done.
  rewrite IH; [done|]. intros e' Hin. apply Hall. by apply list_elem_of_further.
Qed.

(** The fallback finds no event to update: a uid that reaches the creation
    is neither real nor Busy on the target, so no event of the view has it. *)
Lemma put_fallback_nothing uid busy_ical :
  uid ∉ cur_real_uids ix → uid ∉ dom (busy_meta ix) →
  put_fallback backend tgt_events uid busy_ical = ([], Ok ()).
Proof.
  intros Hr Hb. apply put_fallback_skips. intros e Hin.
  destruct (ok_all _ _ Hix e Hin) as (uid' & lm & Hp & Hor).
  exists uid', lm. split; [done|]. intros ->. by destruct Hor.
Qed.

Lemma busy_body_outcome (T : gset string) uid acc :
  ((uid ∉ acc_tombstones acc) → uid ∉ T) →
  let r := busy_body backend now old_synced src_meta ix tgt_events uid acc in
  Forall (busy_loop_call now old_synced src_meta ix T) r.1 ∧
  ∀ acc', r.2 = Ok acc' →
    (acc' = acc ∧
     (uid ∈ cur_real_uids ix ∨
      (uid ∈ dom src_meta ∧ (uid ∉ dom (busy_meta ix)) ∧
       uid ∈ acc_tombstones acc) ∨
      ((uid ∉ dom src_meta) ∧
       ((uid ∉ dom (busy_meta ix)) ∨ uid ∉ dom old_synced)))) ∨
    (acc' = discard_tombstone uid acc ∧
     (uid ∉ cur_real_uids ix) ∧ uid ∈ dom old_synced ∧
     (uid ∉ dom src_meta) ∧ uid ∈ dom (busy_meta ix)) ∨
    (∃ ts, acc' = record_busy uid ts acc ∧
     (uid ∉ cur_real_uids ix) ∧ uid ∈ dom src_meta ∧
     (uid ∈ dom (busy_meta ix) ∨ uid ∉ acc_tombstones acc)).
Proof.
  intros HT r. unfold r, busy_body. clear r.
  destruct (decide (uid ∈ cur_real_uids ix)) as [Hreal|Hreal].
  { rewrite bool_decide_eq_true_2 by done. split; [trace_shape|].
    intros acc' [= <-]. left. auto. }
  rewrite bool_decide_eq_false_2 by done.
  destruct (old_synced !! uid) as [p|] eqn:EP;
    destruct (src_meta !! uid) as [[[e_src raw_src] lm_src]|] eqn:ES;
    destruct (busy_meta ix !! uid) as [[[e_tgt raw_tgt] lm_tgt]|] eqn:EB;
    unfold_body.
  all: try (pose proof (proj2 (elem_of_dom old_synced uid) (mk_is_Some _ _ EP))).
  all: try (pose proof (proj2 (elem_of_dom src_meta uid) (mk_is_Some _ _ ES))).
  all: try (pose proof (proj2 (elem_of_dom (busy_meta ix) uid) (mk_is_Some _ _ EB))).
  all: try (pose proof (proj2 (not_elem_of_dom old_synced uid) EP)).
  all: try (pose proof (proj2 (not_elem_of_dom src_meta uid) ES)).
  all: try (pose proof (proj2 (not_elem_of_dom (busy_meta ix) uid) EB)).
  all: try (destruct (decide (uid ∈ acc_tombstones acc)) as [Htomb|Htomb];
            [rewrite bool_decide_eq_true_2 by done
            |rewrite bool_decide_eq_false_2 by done]).
  all: repeat match goal with
         | |- context [dt_gt ?a ?b] => destruct (dt_gt a b)
         | |- context [_parse_dt_range ?raw] =>
             destruct (_parse_dt_range raw) as [[dtstart dtend]|err_dt]
         | |- context [_update_src_ical ?raw ?a ?b] =>
             destruct (_update_src_ical raw a b) as [updated|err_up]
         end; simpl.
  all: unfold try_except_PutError, do_call, mbind, M_bind, mret, M_ret, lift;
       simpl.
  all: repeat match goal with
         | |- context [backend ?c] => destruct (backend c) as [[]|]
         end; simpl.
  all: rewrite ?put_fallback_nothing by done; simpl.
  all: (split;
        [ trace_shape;
          first [ left; by eauto 10
                | right; left; exists uid, dtstart, dtend; by auto 10
                | right; right; left; by eauto 10
                | right; right; right; by eauto 10 ]
        | intros acc' Hacc'; first [discriminate Hacc' | simplify_eq];
          first [ left; split; [reflexivity|]; by auto 10
                | right; left; split; [reflexivity|]; by auto 10
                | right; right; eexists; split; [reflexivity|]; by auto 10 ] ]).
Qed.

Lemma busy_body_step tombs done uid acc :
  uid ∉ done →
  busy_loop_inv old_synced src_meta ix tombs done acc →
  Forall (busy_loop_call now old_synced src_meta ix tombs)
    (busy_body backend now old_synced src_meta ix tgt_events uid acc).1 ∧
  ∀ acc',
    (busy_body backend now old_synced src_meta ix tgt_events uid acc).2
    = Ok acc' →
    busy_loop_inv old_synced src_meta ix tombs (done ++ [uid]) acc'.
Proof.
  intros Hnew [Hsub Hkept Hdom Hbusy Hcreated].
  assert (HT : uid ∉ acc_tombstones acc → uid ∉ tombs).
  { intros Hn Hin. destruct (Hkept _ Hin) as [?|(? & _)]; done. }
  destruct (busy_body_outcome tombs uid acc HT) as [Hcalls Hout].
  split; [exact Hcalls|]. intros acc' Hacc'.
  destruct (Hout acc' Hacc') as [(-> & Hwhy)|[(-> & Hr & Hs & Hns & Hb)
                                             |(ts & -> & Hr & Hs & Hb)]].
  - split; try done.
    + intros u Hu. destruct (Hkept u Hu) as [?|(? & ?)]; [by left|right].
      split; [|done]. apply elem_of_app. by left.
    + intros u Hu. destruct (Hbusy u Hu) as (? & ?).
      split; [|done]. apply elem_of_app. by left.
    + intros u Hu Hsrc Hnr Hnt. apply elem_of_app in Hu as [Hu|Hu];
        [by apply Hcreated|].
      apply list_elem_of_singleton in Hu as ->.
      destruct Hwhy as [?|[(_ & _ & Htb)|(? & _)]]; try done.
      destruct Hnt. by apply Hsub.
  - unfold discard_tombstone. split; simpl; try done.
    + set_solver.
    + intros u Hu. destruct (decide (u = uid)) as [->|Hne].
      * right. repeat split; try done. apply elem_of_app. right.
        apply list_elem_of_here.
      * destruct (Hkept u Hu) as [?|(? & ?)].
        -- left. apply elem_of_difference. split; [done|].
           by rewrite not_elem_of_singleton.
        -- right. split; [|done]. apply elem_of_app. by left.
    + intros u Hu. destruct (Hbusy u Hu) as (? & ?).
      split; [|done]. apply elem_of_app. by left.
    + intros u Hu Hsrc Hnr Hnt. apply elem_of_app in Hu as [Hu|Hu];
        [by apply Hcreated|].
      by apply list_elem_of_singleton in Hu as ->.
  - unfold record_busy. split; simpl; try done.
    + intros u Hu. destruct (Hkept u Hu) as [?|(? & ?)]; [by left|right].
      split; [|done]. apply elem_of_app. by left.
    + by rewrite dom_insert_L, Hdom.
    + intros u Hu. apply elem_of_union in Hu as [Hu|Hu].
      * apply elem_of_singleton in Hu as ->. repeat split; try done.
        -- apply elem_of_app. right. apply list_elem_of_here.
        -- intros Hin. destruct Hb as [?|Hb]; [done|]. by destruct (HT Hb).
      * destruct (Hbusy u Hu) as (? & ?).
        split; [|done]. apply elem_of_app. by left.
    + intros u Hu Hsrc Hnr Hnt. apply elem_of_union.
      apply elem_of_app in Hu as [Hu|Hu]; [right; by apply Hcreated|].
      apply list_elem_of_singleton in Hu as ->. left.
      by apply elem_of_singleton.
Qed.

(** The loop as a whole, over the uids in sorted order. *)
Lemma busy_loop tombs (all_uids : gset string) :
  let r := for_each (busy_body backend now old_synced src_meta ix tgt_events)
             (sorted all_uids) (mk_busy_acc ∅ ∅ tombs) in
  Forall (busy_loop_call now old_synced src_meta ix tombs) r.1 ∧
  ∀ acc, r.2 = Ok acc →
    busy_loop_inv old_synced src_meta ix tombs (sorted all_uids) acc.
Proof.
  assert (Hnd : NoDup (sorted all_uids)).
  { unfold sorted. rewrite merge_sort_Permutation. apply NoDup_elements. }
  apply (for_each_inv _
           (busy_loop_inv old_synced src_meta ix tombs)
           (busy_loop_call now old_synced src_meta ix tombs)
           (sorted all_uids) [] (mk_busy_acc ∅ ∅ tombs)).
  - split; simpl.
    + done.
    + intros u Hu. by left.
    + by rewrite dom_empty_L.
    + intros u Hu. by apply not_elem_of_empty in Hu.
    + intros u Hu. by apply elem_of_nil in Hu.
  - intros done' uid rest acc Hpos Hinv. simpl in Hpos.
    apply busy_body_step; [|done].
    rewrite Hpos in Hnd. apply NoDup_app in Hnd as (_ & Hdisj & _).
    intros Hin. apply (Hdisj uid Hin). apply list_elem_of_here.
Qed.
End BusyLoop.

(** What the three deletion passes leave for the loop. *)
Lemma busy_passes_state (backend : call → option exn) (old : busy_state)
    (src0 : gmap string meta3) (ix : tgt_index) tomb1 src1 tomb2 src2 tomb3 :
  (for_each (deleted_on_a_body backend (real_meta ix))
     (elements (real_uids old ∖ dom src0)) (tombstones old)).2 = Ok tomb1 →
  (for_each (deleted_on_b_body backend)
     (elements (real_uids old ∖ cur_real_uids ix)) (src0, tomb1)).2
  = Ok (src1, tomb2) →
  (for_each (deleted_on_b_body backend)
     (elements (busy_uids old ∖ dom (busy_meta ix))) (src1, tomb2)).2
  = Ok (src2, tomb3) →
  tomb3 = (busy_uids old ∖ dom (busy_meta ix)) ∪
          (real_uids old ∖ cur_real_uids ix) ∪
          (real_uids old ∖ dom src0) ∪ tombstones old ∧
  (∀ k, src1 !! k = if decide (k ∈ real_uids old ∖ cur_real_uids ix)
                    then None else src0 !! k) ∧
  (∀ k, src2 !! k = if decide (k ∈ busy_uids old ∖ dom (busy_meta ix))
                    then None else src1 !! k).
Proof.
  intros H1 H5 H6.
  apply (proj2 (deleted_on_a_pass backend _ _ _)) in H1.
  apply (proj2 (deleted_on_b_pass backend _ _ _)) in H5 as [H5t H5s].
  apply (proj2 (deleted_on_b_pass backend _ _ _)) in H6 as [H6t H6s].
  simpl in H1, H5t, H5s, H6t, H6s.
  rewrite list_to_set_elements_L in H1, H5t, H6t.
  split; [|split].
  - rewrite H6t, H5t, H1. set_solver.
  - intros k. rewrite H5s.
    destruct (decide (k ∈ elements (real_uids old ∖ cur_real_uids ix)))
      as [Hin|Hin]; rewrite elem_of_elements in Hin;
      by destruct (decide (k ∈ real_uids old ∖ cur_real_uids ix)).
  - intros k. rewrite H6s.
    destruct (decide (k ∈ elements (busy_uids old ∖ dom (busy_meta ix))))
      as [Hin|Hin]; rewrite elem_of_elements in Hin;
      by destruct (decide (k ∈ busy_uids old ∖ dom (busy_meta ix))).
Qed.

(** ** BUSY mode: a whole run *)

Section BusyRun.
Variable backend : call → option exn.
Variable now : string → datetime.
Variable old : busy_state.
Variable src_events tgt_events : list CaldavEvent.
Variable src0 : gmap string meta3.
Variable ix : tgt_index.
Hypothesis Hsrc : build_src_meta src_events ∅ = Ok src0.
Hypothesis Hidx : build_tgt_index tgt_events (mk_tgt_index ∅ ∅ ∅) = Ok ix.

Lemma busy_index_ok : tgt_index_ok tgt_events ix.
Proof. apply (build_tgt_index_ok tgt_events [] _ ix tgt_index_ok_empty Hidx). Qed.

(** The four phases of a run that ends normally. *)
Lemma busy_run_ok t st :
  sync_caldav_busy backend now old src_events tgt_events = (t, Ok st) →
  ∃ t1 tomb1 t5 src1 tomb2 t6 src2 tomb3 t7 acc,
    for_each (deleted_on_a_body backend (real_meta ix))
      (elements (real_uids old ∖ dom src0)) (tombstones old) = (t1, Ok tomb1) ∧
    for_each (deleted_on_b_body backend)
      (elements (real_uids old ∖ cur_real_uids ix)) (src0, tomb1)
      = (t5, Ok (src1, tomb2)) ∧
    for_each (deleted_on_b_body backend)
      (elements (busy_uids old ∖ dom (busy_meta ix))) (src1, tomb2)
      = (t6, Ok (src2, tomb3)) ∧
    for_each (busy_body backend now (synced old) src2 ix tgt_events)
      (sorted (dom (synced old) ∪ dom src2 ∪ dom (busy_meta ix)))
      (mk_busy_acc ∅ ∅ tomb3) = (t7, Ok acc) ∧
    t = t1 ++ t5 ++ t6 ++ t7 ∧
    st = mk_busy_state (new_synced acc) (new_busy acc) (acc_tombstones acc)
           (cur_real_uids ix).
Proof.
  unfold sync_caldav_busy. rewrite Hsrc, Hidx. unfold lift.
  intros H.
  apply M_bind_Ok in H as (t0 & x0 & t' & [= <- <-] & H & ->).
  apply M_bind_Ok in H as (t0 & x0 & t'' & [= <- <-] & H & ->).
  apply M_bind_Ok in H as (t1 & tomb1 & tr1 & H1 & H & ->).
  apply M_bind_Ok in H as (t5 & [src1 tomb2] & tr5 & H5 & H & ->).
  apply M_bind_Ok in H as (t6 & [src2 tomb3] & tr6 & H6 & H & ->).
  apply M_bind_Ok in H as (t7 & acc & tr7 & H7 & [= <- <-] & ->).
  exists t1, tomb1, t5, src1, tomb2, t6, src2, tomb3, t7, acc.
  repeat split; try done. simpl. by rewrite app_nil_r.
Qed.

Lemma busy_run_calls :
  Forall (busy_run_call now old src0 ix)
    (sync_caldav_busy backend now old src_events tgt_events).1.
Proof.
  unfold sync_caldav_busy. rewrite Hsrc, Hidx. unfold lift.
  apply M_bind_Forall; [apply List.Forall_nil|]. intros ? [= <-].
  apply M_bind_Forall; [apply List.Forall_nil|]. intros ? [= <-].
  apply M_bind_Forall.
  { eapply Forall_impl; [apply deleted_on_a_pass|].
    intros c (uid & e & raw & lm & -> & Hin & Hl). left.
    exists uid, e, raw, lm. rewrite elem_of_elements in Hin.
    apply elem_of_difference in Hin as [? ?]. done. }
  intros tomb1 H1. apply M_bind_Forall.
  { eapply Forall_impl; [apply deleted_on_b_pass|].
    intros c (uid & e & raw & lm & -> & Hin & Hl). right; left.
    exists uid, e, raw, lm. rewrite elem_of_elements in Hin. auto. }
  intros [src1 tomb2] H5. apply M_bind_Forall.
  { eapply Forall_impl; [apply deleted_on_b_pass|].
    intros c (uid & e & raw & lm & -> & Hin & Hl). right; left.
    exists uid, e, raw, lm. rewrite elem_of_elements in Hin.
    repeat split; [|by right].
    apply (proj2 (deleted_on_b_pass backend _ _ _)) in H5 as [_ H5s].
    simpl in H5s. rewrite H5s in Hl. by case_decide. }
  intros [src2 tomb3] H6.
  destruct (busy_passes_state backend old src0 ix _ _ _ _ _ H1 H5 H6)
    as (Htomb & Hs1 & Hs2).
  assert (Hsub : ∀ uid v, src2 !! uid = Some v → src0 !! uid = Some v).
  { intros uid v Hl. rewrite Hs2 in Hl. case_decide; [done|].
    rewrite Hs1 in Hl. by case_decide. }
  apply M_bind_Forall; [|intros acc _; apply List.Forall_nil].
  eapply Forall_impl;
    [apply (busy_loop backend now (synced old) src2 ix tgt_events
              busy_index_ok tomb3)|].
  intros c [(uid & e & raw & lm & -> & Hl & _ & Hp)
           |[(uid & ds & de & -> & Hs & Hb & Hr & Ht)
            |[(uid & e & raw & lm & ds & de & -> & Hl)
             |(uid & e & raw & lm & upd & -> & Hl)]]].
  - right; right; left. by exists uid, e, raw, lm.
  - right; right; right; left. exists uid, ds, de. repeat split; try done.
    + apply elem_of_dom in Hs as [v Hv]. apply elem_of_dom.
      exists v. by apply Hsub.
    + intros Hin. apply Ht. rewrite Htomb. set_solver.
  - right; right; right; right; left. by exists uid, e, raw, lm, ds, de.
  - right; right; right; right; right. exists uid, e, raw, lm, upd.
    split; [done|]. by apply Hsub.
Qed.
End BusyRun.

Lemma build_src_meta_dom evts :
  ∀ meta meta',
    build_src_meta evts meta = Ok meta' →
    dom meta ⊆ dom meta' ∧
    ∀ e uid lm, e ∈ evts → _parse_ical_metadata (to_ical e) = Ok (uid, lm) →
                uid ∈ dom meta'.
Proof.
  induction evts as [|e0 evts IH]; intros meta meta'; simpl.
  - intros [= <-]. split; [done|]. intros e uid lm H. by apply elem_of_nil in H.
  - destruct (_parse_ical_metadata (to_ical e0)) as [[uid0 lm0]|err] eqn:Ep;
      simpl; [|discriminate].
    intros Hb. destruct (IH _ _ Hb) as [Hsub Hall].
    rewrite dom_insert_L in Hsub. split; [set_solver|].
    intros e uid lm Hin Hp. apply elem_of_cons in Hin as [->|Hin].
    + rewrite Ep in Hp. injection Hp as <- <-. set_solver.
    + by eapply Hall.
Qed.

Lemma build_tgt_index_result evts :
  ∀ ix, (∃ ix', build_tgt_index evts ix = Ok ix') ∨
        build_tgt_index evts ix = Raise ValueError.
Proof.
  induction evts as [|e evts IH]; intros ix; simpl; [eauto|].
  destruct (_parse_ical_metadata (to_ical e)) as [[uid lm]|err] eqn:Ep; simpl.
  - destruct (_get_summary (to_ical e)) as [summ|err] eqn:Es; simpl.
    + case_bool_decide; apply IH.
    + right. by rewrite (get_summary_raises _ _ Es).
  - right. by rewrite (parse_metadata_raises _ _ Ep).
Qed.

(** A run whose views cannot be keyed issues no call. *)
Lemma busy_run_views backend now old src_events tgt_events c :
  c ∈ (sync_caldav_busy backend now old src_events tgt_events).1 →
  ∃ src0 ix,
    build_src_meta src_events ∅ = Ok src0 ∧
    build_tgt_index tgt_events (mk_tgt_index ∅ ∅ ∅) = Ok ix.
Proof.
  unfold sync_caldav_busy.
  destruct (build_src_meta_result src_events ∅) as [[src0 Hs]|Hs]; rewrite Hs;
    [|by intros H; apply elem_of_nil in H].
  destruct (build_tgt_index_result tgt_events (mk_tgt_index ∅ ∅ ∅))
    as [[ix Hi]|Hi]; rewrite Hi; [eauto|].
  by intros H; apply elem_of_nil in H.
Qed.

(** C1.  In a run of [sync_caldav_busy], every [update_event] on the target
    carries the handle of an event of the target view whose SUMMARY is
    Busy.  Every [delete_event] on the target carries the handle of an
    event of the target view that is either a Busy placeholder whose uid is
    in the previous [synced] map, or (first pass) an event that is not Busy,
    whose uid is in the previous [real_uids] and which no event of the
    source view has. *)
Theorem busy_target_writes (backend : call → option exn)
    (now : string → datetime) (old : busy_state)
    (src_events tgt_events : list CaldavEvent) (t : list call) :
  t = (sync_caldav_busy backend now old src_events tgt_events).1 →
  (∀ u raw, update_event client_target u raw ∈ t →
     ∃ e, e ∈ tgt_events ∧ url e = u ∧ is_busy e) ∧
  (∀ u, delete_event client_target u ∈ t →
     ∃ e uid lm, e ∈ tgt_events ∧ url e = u ∧
       _parse_ical_metadata (to_ical e) = Ok (uid, lm) ∧
       ((is_busy e ∧ uid ∈ dom (synced old)) ∨
        (¬ is_busy e ∧ uid ∈ real_uids old ∧
         ∀ e' lm', e' ∈ src_events →
                   _parse_ical_metadata (to_ical e') ≠ Ok (uid, lm')))).
Proof.
  intros ->. split.
  - intros u raw Hin.
    destruct (busy_run_views _ _ _ _ _ _ Hin) as (src0 & ix & Hs & Hi).
    pose proof (busy_index_ok tgt_events ix Hi) as Hok.
    pose proof (busy_run_calls backend now old _ _ _ _ Hs Hi) as Hcalls.
    rewrite Forall_forall in Hcalls.
    destruct (Hcalls _ Hin)
      as [(uid & e & r & lm & Heq & _)
         |[(uid & e & r & lm & Heq & _)
          |[(uid & e & r & lm & Heq & _)
           |[(uid & ds & de & Heq & _)
            |[(uid & e & r & lm & ds & de & Heq & Hl)
             |(uid & e & r & lm & upd & Heq & _)]]]]]; try discriminate.
    injection Heq as -> ->.
    destruct (ok_busy _ _ Hok _ _ _ _ Hl) as (? & _ & _ & ?). by exists e.
  - intros u Hin.
    destruct (busy_run_views _ _ _ _ _ _ Hin) as (src0 & ix & Hs & Hi).
    pose proof (busy_index_ok tgt_events ix Hi) as Hok.
    pose proof (busy_run_calls backend now old _ _ _ _ Hs Hi) as Hcalls.
    rewrite Forall_forall in Hcalls.
    destruct (Hcalls _ Hin)
      as [(uid & e & r & lm & Heq & Hl & Hold & Hns)
         |[(uid & e & r & lm & Heq & _)
          |[(uid & e & r & lm & Heq & Hl & Hp)
           |[(uid & ds & de & Heq & _)
            |[(uid & e & r & lm & ds & de & Heq & Hl)
             |(uid & e & r & lm & upd & Heq & _)]]]]]; try discriminate.
    + injection Heq as ->.
      destruct (ok_real _ _ Hok _ _ _ _ Hl) as (? & -> & ? & ?).
      exists e, uid, lm. repeat split; try done. right.
      repeat split; try done. intros e' lm' Hin' Hp'. apply Hns.
      by apply (proj2 (build_src_meta_dom _ _ _ Hs) e' uid lm').
    + injection Heq as ->.
      destruct (ok_busy _ _ Hok _ _ _ _ Hl) as (? & -> & ? & ?).
      exists e, uid, lm. repeat split; try done. by left.
Qed.

Lemma busy_target_writes_witness :
  let lunch := mk_event "/b/1.ics" (vevent "U1" 10 "Lunch" 12 13) in
  let st1 := mk_busy_state ∅ ∅ ∅ {["U1"]} in
  ∃ e uid lm, e ∈ [lunch] ∧ url e = "/b/1.ics" ∧
    _parse_ical_metadata (to_ical e) = Ok (uid, lm) ∧
    ((is_busy e ∧ uid ∈ dom (synced st1)) ∨
     (¬ is_busy e ∧ uid ∈ real_uids st1 ∧
      ∀ e' lm', e' ∈ [] → _parse_ical_metadata (to_ical e') ≠ Ok (uid, lm'))).
Proof.
  intros lunch st1.
  destruct (busy_target_writes accept_all (fun _ => utc 30) st1 [] [lunch]
              [delete_event client_target "/b/1.ics"]) as [_ Hdel].
  - vm_compute. reflexivity.
  - apply Hdel. apply list_elem_of_here.
Defined.

(** C1, refuted as stated: a first run records the uid of a real event of
    the target in [real_uids]; the next run, the source still not having
    that uid, deletes the event from the target although its SUMMARY is not
    Busy. *)
Lemma busy_run_deletes_real_event :
  let lunch := mk_event "/b/1.ics" (vevent "U1" 10 "Lunch" 12 13) in
  let st1 := mk_busy_state ∅ ∅ ∅ {["U1"]} in
  _get_summary (to_ical lunch) = Ok (Some "Lunch") ∧
  sync_caldav_busy accept_all (fun _ => utc 20) empty_busy_state [] [lunch]
  = ([], Ok st1) ∧
  sync_caldav_busy accept_all (fun _ => utc 30) st1 [] [lunch]
  = ([delete_event client_target "/b/1.ics"],
     Ok (mk_busy_state ∅ ∅ {["U1"]} {["U1"]})).
Proof. vm_compute. done. Qed.

Lemma parse_busy_ical now_ uid dtstart dtend :
  _parse_ical_metadata (_build_busy_ical now_ uid dtstart dtend)
  = Ok (uid, now_).
Proof. reflexivity. Qed.

(** C9.  At the end of a run of [sync_caldav_busy] that ends normally, a
    uid that is both in the persisted tombstones and in the persisted
    [busy_uids] was already a tombstone of the previous state, is in the
    source view and is the uid of a Busy event of the target view.  So the
    two sets are disjoint whenever no tombstone of the previous state is at
    once on the source and Busy on the target; and [busy_uids] is the key
    set of [synced]. *)
Theorem busy_tombstones_meet_busy_uids (backend : call → option exn)
    (now : string → datetime) (old : busy_state)
    (src_events tgt_events : list CaldavEvent)
    (src0 : gmap string meta3) (ix : tgt_index)
    (t : list call) (st : busy_state) :
  build_src_meta src_events ∅ = Ok src0 →
  build_tgt_index tgt_events (mk_tgt_index ∅ ∅ ∅) = Ok ix →
  sync_caldav_busy backend now old src_events tgt_events = (t, Ok st) →
  tombstones st ∩ busy_uids st
    ⊆ tombstones old ∩ dom src0 ∩ dom (busy_meta ix) ∧
  (tombstones old ∩ dom src0 ∩ dom (busy_meta ix) = ∅ →
   tombstones st ∩ busy_uids st = ∅) ∧
  busy_uids st = dom (synced st).
Proof.
  intros Hs Hi Hrun.
  destruct (busy_run_ok backend now old _ _ _ _ Hs Hi _ _ Hrun)
    as (t1 & tomb1 & t5 & src1 & tomb2 & t6 & src2 & tomb3 & t7 & acc
        & H1 & H5 & H6 & H7 & -> & ->).
  destruct (busy_passes_state backend old src0 ix tomb1 src1 tomb2 src2 tomb3)
    as (Htomb & Hs1 & Hs2); [by rewrite ?H1, ?H5, ?H6..|].
  destruct (busy_loop backend now (synced old) src2 ix tgt_events
              (busy_index_ok _ _ Hi) tomb3
              (dom (synced old) ∪ dom src2 ∪ dom (busy_meta ix))) as [_ Hinv].
  rewrite H7 in Hinv. destruct (Hinv acc eq_refl) as [Hsub Hkept Hdom Hbusy _].
  simpl.
  assert (Hmeet : acc_tombstones acc ∩ new_busy acc
                  ⊆ tombstones old ∩ dom src0 ∩ dom (busy_meta ix)).
  { intros u Hu. apply elem_of_intersection in Hu as [Hut Hub].
    destruct (Hbusy u Hub) as (_ & Hsrc2 & _ & Hb).
    apply Hsub in Hut. specialize (Hb Hut).
    apply elem_of_dom in Hsrc2 as [v Hv].
    rewrite Hs2 in Hv. case_decide as Hn6; [done|].
    rewrite Hs1 in Hv. case_decide as Hn5; [done|].
    assert (u ∈ dom src0) by (apply elem_of_dom; eauto).
    rewrite Htomb in Hut. set_solver. }
  split; [exact Hmeet|]. split; [|done].
  intros Hempty. rewrite Hempty in Hmeet. set_solver.
Qed.

Lemma busy_tombstones_meet_busy_uids_witness :
  let a1 := mk_event "/a/1.ics" (vevent "U1" 10 "Lunch" 12 13) in
  let st1 := mk_busy_state {["U1" := utc 10]} {["U1"]} ∅ ∅ in
  let st2 := mk_busy_state ∅ ∅ {["U1"]} ∅ in
  tombstones st2 ∩ busy_uids st2 = ∅.
Proof.
  intros a1 st1 st2.
  destruct (busy_tombstones_meet_busy_uids accept_all (fun _ => utc 30) st1
              [a1] [] {["U1" := (a1, to_ical a1, utc 10)]}
              (mk_tgt_index ∅ ∅ ∅)
              [delete_event client_source "/a/1.ics"] st2)
    as (_ & Hdisj & _).
  - reflexivity.
  - reflexivity.
  - vm_compute. reflexivity.
  - apply Hdisj. simpl. rewrite dom_empty_L. set_solver.
Defined.

(** C9, refuted as stated: the first run mirrors U1, the second finds the
    placeholder deleted and tombstones U1, and in the third U1 is back on
    the source while a Busy event with uid U1 is on the target: the state
    then persisted has U1 both in [tombstones] and in [busy_uids]. *)
Lemma busy_tombstone_and_busy_uid_overlap :
  let a1 := mk_event "/a/1.ics" (vevent "U1" 10 "Lunch" 12 13) in
  let b1 := mk_event "/b/1.ics"
              (_build_busy_ical (utc 20) "U1" (dt_datetime (utc 12))
                 (dt_datetime (utc 13))) in
  let st1 := mk_busy_state {["U1" := utc 10]} {["U1"]} ∅ ∅ in
  let st2 := mk_busy_state ∅ ∅ {["U1"]} ∅ in
  let st3 := mk_busy_state {["U1" := utc 20]} {["U1"]} {["U1"]} ∅ in
  sync_caldav_busy accept_all (fun _ => utc 20) empty_busy_state [a1] []
  = ([create_event client_target (to_ical b1)], Ok st1) ∧
  sync_caldav_busy accept_all (fun _ => utc 30) st1 [a1] []
  = ([delete_event client_source "/a/1.ics"], Ok st2) ∧
  busy_reachable st2 ∧
  sync_caldav_busy accept_all (fun _ => utc 40) st2 [a1] [b1]
  = ([update_event client_source "/a/1.ics" (to_ical a1)], Ok st3) ∧
  tombstones st3 ∩ busy_uids st3 = {["U1"]}.
Proof.
  intros a1 b1 st1 st2 st3.
  assert (H1 : sync_caldav_busy accept_all (fun _ => utc 20) empty_busy_state
                 [a1] [] = ([create_event client_target (to_ical b1)], Ok st1))
    by (vm_compute; reflexivity).
  assert (H2 : sync_caldav_busy accept_all (fun _ => utc 30) st1 [a1] []
               = ([delete_event client_source "/a/1.ics"], Ok st2))
    by (vm_compute; reflexivity).
  split; [exact H1|]. split; [exact H2|]. split.
  - eapply reach_next_run; [|exact H2].
    eapply reach_next_run; [|exact H1]. constructor.
  - split; vm_compute; reflexivity.
Qed.

(** What a run that ends normally is made of: the calls of the three
    passes are deletions, the calls of the loop have the shapes of
    [busy_loop_call], and the loop invariant holds of the state it ends
    with. *)
Lemma busy_run_phases backend now old src_events tgt_events src0 ix t st :
  build_src_meta src_events ∅ = Ok src0 →
  build_tgt_index tgt_events (mk_tgt_index ∅ ∅ ∅) = Ok ix →
  sync_caldav_busy backend now old src_events tgt_events = (t, Ok st) →
  ∃ t1 t5 t6 t7 (src1 src2 : gmap string meta3) tomb3 acc,
    t = t1 ++ t5 ++ t6 ++ t7 ∧
    st = mk_busy_state (new_synced acc) (new_busy acc) (acc_tombstones acc)
           (cur_real_uids ix) ∧
    Forall (fun c => ∃ u, c = delete_event client_target u) t1 ∧
    Forall (fun c => ∃ u, c = delete_event client_source u) (t5 ++ t6) ∧
    (∀ uid e raw lm,
       uid ∈ real_uids old ∖ cur_real_uids ix →
       src0 !! uid = Some (e, raw, lm) →
       delete_event client_source (url e) ∈ t5) ∧
    (∀ uid e raw lm,
       uid ∈ busy_uids old ∖ dom (busy_meta ix) →
       src1 !! uid = Some (e, raw, lm) →
       delete_event client_source (url e) ∈ t6) ∧
    tomb3 = (busy_uids old ∖ dom (busy_meta ix)) ∪
            (real_uids old ∖ cur_real_uids ix) ∪
            (real_uids old ∖ dom src0) ∪ tombstones old ∧
    (∀ k, src1 !! k = if decide (k ∈ real_uids old ∖ cur_real_uids ix)
                      then None else src0 !! k) ∧
    (∀ k, src2 !! k = if decide (k ∈ busy_uids old ∖ dom (busy_meta ix))
                      then None else src1 !! k) ∧
    Forall (busy_loop_call now (synced old) src2 ix tomb3) t7 ∧
    busy_loop_inv (synced old) src2 ix tomb3
      (sorted (dom (synced old) ∪ dom src2 ∪ dom (busy_meta ix))) acc.
Proof.
  intros Hs Hi Hrun.
  destruct (busy_run_ok backend now old _ _ _ _ Hs Hi _ _ Hrun)
    as (t1 & tomb1 & t5 & src1 & tomb2 & t6 & src2 & tomb3 & t7 & acc
        & H1 & H5 & H6 & H7 & -> & ->).
  destruct (busy_passes_state backend old src0 ix tomb1 src1 tomb2 src2 tomb3)
    as (Htomb & Hs1 & Hs2); [by rewrite ?H1, ?H5, ?H6..|].
  destruct (busy_loop backend now (synced old) src2 ix tgt_events
              (busy_index_ok _ _ Hi) tomb3
              (dom (synced old) ∪ dom src2 ∪ dom (busy_meta ix)))
    as [Hcalls Hinv].
  rewrite H7 in Hcalls, Hinv. simpl in Hcalls.
  exists t1, t5, t6, t7, src1, src2, tomb3, acc.
  split; [done|]. split; [done|]. split; [|split].
  - pose proof (proj1 (deleted_on_a_pass backend (real_meta ix)
                         (elements (real_uids old ∖ dom src0))
                         (tombstones old))) as H.
    rewrite H1 in H. eapply Forall_impl; [exact H|].
    intros c (uid & e & raw & lm & -> & _). eauto.
  - apply Forall_app. split.
    + pose proof (proj1 (deleted_on_b_pass backend src0
                           (elements (real_uids old ∖ cur_real_uids ix))
                           tomb1)) as H.
      rewrite H5 in H. eapply Forall_impl; [exact H|].
      intros c (uid & e & raw & lm & -> & _). eauto.
    + pose proof (proj1 (deleted_on_b_pass backend src1
                           (elements (busy_uids old ∖ dom (busy_meta ix)))
                           tomb2)) as H.
      rewrite H6 in H. eapply Forall_impl; [exact H|].
      intros c (uid & e & raw & lm & -> & _). eauto.
  - split.
    { intros uid e raw lm Hin Hl.
      eapply (deleted_on_b_issued backend _ _ _ _ _ uid e raw lm H5);
        [by apply elem_of_elements|done]. }
    split.
    { intros uid e raw lm Hin Hl.
      eapply (deleted_on_b_issued backend _ _ _ _ _ uid e raw lm H6);
        [by apply elem_of_elements|done]. }
    split; [done|]. split; [done|]. split; [done|]. split; [done|].
    by apply Hinv.
Qed.

Lemma sorted_elem_of (s : gset string) uid : uid ∈ sorted s ↔ uid ∈ s.
Proof. unfold sorted. by rewrite merge_sort_Permutation, elem_of_elements. Qed.

(** C10.  In a run of [sync_caldav_busy] that ends normally, let the
    creation of a placeholder be refused with [PutError].  Then no event
    of the target view fetched at the start has the uid of the placeholder,
    the run issues no [update_event] for that uid on the target (the
    fallback loop finds nothing to update), and the uid is all the same a
    key of the persisted [synced] map and a member of the persisted
    [busy_uids]. *)
Theorem put_error_fallback_is_silent (backend : call → option exn)
    (now : string → datetime) (old : busy_state)
    (src_events tgt_events : list CaldavEvent)
    (t : list call) (st : busy_state) (raw : ical_bytes)
    (uid : string) (lm : datetime) :
  sync_caldav_busy backend now old src_events tgt_events = (t, Ok st) →
  create_event client_target raw ∈ t →
  backend (create_event client_target raw) = Some PutError →
  _parse_ical_metadata raw = Ok (uid, lm) →
  (∀ e lm', e ∈ tgt_events →
            _parse_ical_metadata (to_ical e) ≠ Ok (uid, lm')) ∧
  (∀ u raw' lm', update_event client_target u raw' ∈ t →
                 _parse_ical_metadata raw' ≠ Ok (uid, lm')) ∧
  uid ∈ dom (synced st) ∧ uid ∈ busy_uids st.
Proof.
  intros Hrun Hin Hput Hp.
  assert (Hv : create_event client_target raw
               ∈ (sync_caldav_busy backend now old src_events tgt_events).1)
    by by rewrite Hrun.
  destruct (busy_run_views _ _ _ _ _ _ Hv) as (src0 & ix & Hs & Hi).
  pose proof (busy_index_ok tgt_events ix Hi) as Hok.
  destruct (busy_run_phases _ _ _ _ _ _ _ _ _ Hs Hi Hrun)
    as (t1 & t5 & t6 & t7 & src1 & src2 & tomb3 & acc & -> & -> & Ht1 & Ht56
        & _ & _ & _ & _ & _ & Hcalls & Hinv).
  rewrite Forall_forall in Ht1, Ht56, Hcalls.
  assert (Hloop : ∀ c, (∀ u, c ≠ delete_event client_target u) →
            (∀ u, c ≠ delete_event client_source u) →
            c ∈ t1 ++ t5 ++ t6 ++ t7 → c ∈ t7).
  { intros c Hn1 Hn2 Hc. apply elem_of_app in Hc as [Hc|Hc].
    - destruct (Ht1 _ Hc) as [u ->]. by destruct (Hn1 u).
    - rewrite app_assoc in Hc. apply elem_of_app in Hc as [Hc|Hc]; [|done].
      destruct (Ht56 _ Hc) as [u ->]. by destruct (Hn2 u). }
  apply Hloop in Hin; [|discriminate..].
  destruct (Hcalls _ Hin)
    as [(u & e & r & l & Heq & _)
       |[(u & ds & de & Heq & Hsrc & Hnb & Hnr & Hnt)
        |[(u & e & r & l & ds & de & Heq & _)
         |(u & e & r & l & upd & Heq & _)]]]; try discriminate.
  injection Heq as ->. rewrite parse_busy_ical in Hp. injection Hp as -> <-.
  split; [|split].
  - intros e lm' He Hpe.
    destruct (ok_all _ _ Hok e He) as (u' & l' & Hp' & Hor).
    rewrite Hpe in Hp'. injection Hp' as <- <-. by destruct Hor.
  - intros u' raw' lm' Hup Hp'. apply Hloop in Hup; [|discriminate..].
    destruct (Hcalls _ Hup)
      as [(u2 & e & r & l & Heq & _)
         |[(u2 & ds2 & de2 & Heq & _)
          |[(u2 & e & r & l & ds2 & de2 & Heq & Hl)
           |(u2 & e & r & l & upd & Heq & _)]]]; try discriminate.
    injection Heq as -> ->. rewrite parse_busy_ical in Hp'.
    injection Hp' as -> <-. apply Hnb. apply elem_of_dom. eauto.
  - destruct Hinv as [_ _ Hdom _ Hcreated]. simpl. rewrite Hdom.
    assert (uid ∈ new_busy acc); [|done].
    apply Hcreated; try done. apply sorted_elem_of. set_solver.
Qed.

Lemma put_error_fallback_is_silent_witness :
  let a1 := mk_event "/a/1.ics" (vevent "U1" 10 "Lunch" 12 13) in
  let busy := _build_busy_ical (utc 20) "U1" (dt_datetime (utc 12))
                (dt_datetime (utc 13)) in
  let st := mk_busy_state {["U1" := utc 10]} {["U1"]} ∅ ∅ in
  sync_caldav_busy refuse_creates (fun _ => utc 20) empty_busy_state [a1] []
  = ([create_event client_target busy], Ok st) ∧
  "U1" ∈ dom (synced st) ∧ "U1" ∈ busy_uids st.
Proof.
  intros a1 busy st.
  assert (Hrun : sync_caldav_busy refuse_creates (fun _ => utc 20)
                   empty_busy_state [a1] []
                 = ([create_event client_target busy], Ok st))
    by (vm_compute; reflexivity).
  split; [exact Hrun|].
  apply (put_error_fallback_is_silent refuse_creates (fun _ => utc 20)
           empty_busy_state [a1] [] [create_event client_target busy] st
           busy "U1" (utc 20) Hrun).
  - apply list_elem_of_here.
  - reflexivity.
  - reflexivity.
Defined.

(** C3.  Let U be a uid.  (1) A run that ends normally, starts from a
    state whose [busy_uids] has U, finds no Busy event with uid U in the
    target view and finds U in the source view, deletes the source event of
    U and persists U among the tombstones.  (2) A run that starts from a
    state whose tombstones have U issues no creation of an event with uid
    U.  (3) A run that ends normally and lifts the tombstone of U found U
    in the previous [synced] map and a Busy event with uid U in the target
    view, and either U was not in the source view or the run itself
    deleted the source event of U: a placeholder for U can be created again
    only by a later run, once U is back on the source. *)
Theorem tombstone_resists_resurrection (backend : call → option exn)
    (now : string → datetime) (old : busy_state)
    (src_events tgt_events : list CaldavEvent)
    (src0 : gmap string meta3) (U : string) :
  build_src_meta src_events ∅ = Ok src0 →
  (∀ t st e raw lm,
     sync_caldav_busy backend now old src_events tgt_events = (t, Ok st) →
     U ∈ busy_uids old →
     (∀ e' lm', e' ∈ tgt_events → is_busy e' →
                _parse_ical_metadata (to_ical e') ≠ Ok (U, lm')) →
     src0 !! U = Some (e, raw, lm) →
     delete_event client_source (url e) ∈ t ∧ U ∈ tombstones st) ∧
  (U ∈ tombstones old →
   ∀ c raw lm,
     create_event c raw
       ∈ (sync_caldav_busy backend now old src_events tgt_events).1 →
     _parse_ical_metadata raw ≠ Ok (U, lm)) ∧
  (∀ t st,
     sync_caldav_busy backend now old src_events tgt_events = (t, Ok st) →
     U ∈ tombstones old → U ∉ tombstones st →
     U ∈ dom (synced old) ∧
     (∃ e' lm', e' ∈ tgt_events ∧ is_busy e' ∧
                _parse_ical_metadata (to_ical e') = Ok (U, lm')) ∧
     (U ∉ dom src0 ∨
      ∃ e raw lm, src0 !! U = Some (e, raw, lm) ∧
                  delete_event client_source (url e) ∈ t)).
Proof.
  intros Hs. split; [|split].
  - intros t st e raw lm Hrun Hbusy Hview Hl.
    assert (∃ ix, build_tgt_index tgt_events (mk_tgt_index ∅ ∅ ∅) = Ok ix)
      as [ix Hi].
    { unfold sync_caldav_busy in Hrun. rewrite Hs in Hrun.
      destruct (build_tgt_index_result tgt_events (mk_tgt_index ∅ ∅ ∅))
        as [[ix Hi]|Hi]; [eauto|]. by rewrite Hi in Hrun. }
    pose proof (busy_index_ok tgt_events ix Hi) as Hok.
    destruct (busy_run_phases _ _ _ _ _ _ _ _ _ Hs Hi Hrun)
      as (t1 & t5 & t6 & t7 & src1 & src2 & tomb3 & acc & -> & -> & _ & _
          & H5 & H6 & Htomb & Hs1 & Hs2 & _ & Hinv).
    assert (Hnb : U ∉ dom (busy_meta ix)).
    { intros Hd. apply elem_of_dom in Hd as [[[e' raw'] lm'] Hl'].
      destruct (ok_busy _ _ Hok _ _ _ _ Hl') as (Hin & -> & Hp & Hb).
      by apply (Hview e' lm'). }
    assert (H6in : U ∈ busy_uids old ∖ dom (busy_meta ix)) by set_solver.
    split.
    + destruct (decide (U ∈ real_uids old ∖ cur_real_uids ix)) as [H5in|H5out].
      * rewrite !elem_of_app. right; left. by eapply H5.
      * rewrite !elem_of_app. right; right; left.
        apply (H6 U e raw lm H6in). rewrite Hs1. by rewrite decide_False.
    + simpl. destruct Hinv as [_ Hkept _ _ _].
      destruct (Hkept U) as [?|(_ & _ & _ & ? & _)]; [|done..].
      rewrite Htomb. set_solver.
  - intros Htomb c raw lm Hin Hp.
    destruct (busy_run_views _ _ _ _ _ _ Hin) as (src0' & ix & Hs' & Hi).
    rewrite Hs in Hs'. injection Hs' as <-.
    pose proof (busy_run_calls backend now old _ _ _ _ Hs Hi) as Hcalls.
    rewrite Forall_forall in Hcalls.
    destruct (Hcalls _ Hin)
      as [(uid & e & r & l & Heq & _)
         |[(uid & e & r & l & Heq & _)
          |[(uid & e & r & l & Heq & _)
           |[(uid & ds & de & Heq & _ & _ & _ & Hnt)
            |[(uid & e & r & l & ds & de & Heq & _)
             |(uid & e & r & l & upd & Heq & _)]]]]]; try discriminate.
    injection Heq as -> ->. rewrite parse_busy_ical in Hp.
    by injection Hp as -> <-.
  - intros t st Hrun Htomb Hlift.
    assert (∃ ix, build_tgt_index tgt_events (mk_tgt_index ∅ ∅ ∅) = Ok ix)
      as [ix Hi].
    { unfold sync_caldav_busy in Hrun. rewrite Hs in Hrun.
      destruct (build_tgt_index_result tgt_events (mk_tgt_index ∅ ∅ ∅))
        as [[ix Hi]|Hi]; [eauto|]. by rewrite Hi in Hrun. }
    pose proof (busy_index_ok tgt_events ix Hi) as Hok.
    destruct (busy_run_phases _ _ _ _ _ _ _ _ _ Hs Hi Hrun)
      as (t1 & t5 & t6 & t7 & src1 & src2 & tomb3 & acc & -> & -> & _ & _
          & H5 & H6 & Htomb3 & Hs1 & Hs2 & _ & Hinv).
    simpl in Hlift. destruct Hinv as [_ Hkept _ _ _].
    destruct (Hkept U) as [?|(_ & Hsy & Hns & Hb & _)]; [|done|].
    { rewrite Htomb3. set_solver. }
    split; [done|]. split.
    + apply elem_of_dom in Hb as [[[e' raw'] lm'] Hl'].
      destruct (ok_busy _ _ Hok _ _ _ _ Hl') as (Hin & -> & Hp & Hbz).
      by exists e', lm'.
    + destruct (src0 !! U) as [[[e raw] lm]|] eqn:El;
        [right|left; by apply not_elem_of_dom].
      exists e, raw, lm. split; [done|].
      destruct (decide (U ∈ real_uids old ∖ cur_real_uids ix)) as [H5in|H5out].
      * rewrite !elem_of_app. right; left. by eapply H5.
      * assert (Hl1 : src1 !! U = Some (e, raw, lm)).
        { rewrite Hs1. by rewrite decide_False. }
        destruct (decide (U ∈ busy_uids old ∖ dom (busy_meta ix)))
          as [H6in|H6out].
        -- rewrite !elem_of_app. right; right; left. by eapply H6.
        -- destruct Hns. apply elem_of_dom. exists (e, raw, lm).
           rewrite Hs2. by rewrite decide_False.
Qed.

Lemma tombstone_resists_resurrection_witness :
  let a1 := mk_event "/a/1.ics" (vevent "U1" 10 "Lunch" 12 13) in
  let st1 := mk_busy_state {["U1" := utc 10]} {["U1"]} ∅ ∅ in
  let st2 := mk_busy_state ∅ ∅ {["U1"]} ∅ in
  sync_caldav_busy accept_all (fun _ => utc 30) st1 [a1] []
  = ([delete_event client_source "/a/1.ics"], Ok st2) ∧
  "U1" ∈ tombstones st2 ∧
  sync_caldav_busy accept_all (fun _ => utc 40) st2 [a1] [] = ([], Ok st2) ∧
  ∀ c raw lm,
    create_event c raw
      ∈ (sync_caldav_busy accept_all (fun _ => utc 40) st2 [a1] []).1 →
    _parse_ical_metadata raw ≠ Ok ("U1", lm).
Proof.
  intros a1 st1 st2.
  assert (Hrun : sync_caldav_busy accept_all (fun _ => utc 30) st1 [a1] []
                 = ([delete_event client_source "/a/1.ics"], Ok st2))
    by (vm_compute; reflexivity).
  destruct (tombstone_resists_resurrection accept_all (fun _ => utc 30) st1
              [a1] [] {["U1" := (a1, to_ical a1, utc 10)]} "U1" eq_refl)
    as (Hdel & _ & _).
  destruct (tombstone_resists_resurrection accept_all (fun _ => utc 40) st2
              [a1] [] {["U1" := (a1, to_ical a1, utc 10)]} "U1" eq_refl)
    as (_ & Hkeep & _).
  split; [exact Hrun|]. split.
  - apply (Hdel _ st2 a1 (to_ical a1) (utc 10) Hrun).
    + simpl. by apply elem_of_singleton.
    + intros e' lm' Hin. by apply elem_of_nil in Hin.
    + reflexivity.
  - split; [vm_compute; reflexivity|].
    apply Hkeep. simpl. by apply elem_of_singleton.
Defined.

(** C4, BUSY mode.  First run: the source has the event U1, last modified
    at 10, the target is empty and there is no state; the placeholder is
    built at 20 and created.  The calendars then hold what the calls of the
    run left there.  Second run, nothing else having changed: the
    placeholder's only timestamp is its DTSTAMP 20, which is newer than 10,
    so the run updates the source event and persists a different state. *)
Theorem busy_second_run_is_not_idle :
  let a1 := mk_event "/a/1.ics" (vevent "U1" 10 "Lunch" 12 13) in
  let busy := _build_busy_ical (utc 20) "U1" (dt_datetime (utc 12))
                (dt_datetime (utc 13)) in
  let r0 := mk_remote [a1] [] in
  let st1 := mk_busy_state {["U1" := utc 10]} {["U1"]} ∅ ∅ in
  let st2 := mk_busy_state {["U1" := utc 20]} {["U1"]} ∅ ∅ in
  let r1 := serve_all (fun _ _ => "/b/1.ics") r0
              [create_event client_target busy] in
  sync_caldav_busy accept_all (fun _ => utc 20) empty_busy_state
    (cal_source r0) (cal_target r0)
  = ([create_event client_target busy], Ok st1) ∧
  r1 = mk_remote [a1] [mk_event "/b/1.ics" busy] ∧
  sync_caldav_busy accept_all (fun _ => utc 30) st1
    (cal_source r1) (cal_target r1)
  = ([update_event client_source "/a/1.ics" (to_ical a1)], Ok st2) ∧
  st2 ≠ st1.
Proof.
  intros a1 busy r0 st1 st2 r1.
  split; [vm_compute; reflexivity|].
  split; [vm_compute; reflexivity|].
  split; [vm_compute; reflexivity|].
  intros Heq. apply (f_equal (fun st => synced st !! "U1")) in Heq.
  vm_compute in Heq. discriminate.
Qed.

(** ** The scenarios of the specification, run on the embedding *)

(** S1, first-run create, and the run after it, which is idle. *)
Example scenario_first_run_create :
  let a1 := mk_event "/a/1.ics" (vevent "U1" 10 "Meet" 12 13) in
  let r1 := serve_all (fun _ _ => "/b/1.ics") (mk_remote [a1] [])
              [create_event client_target (to_ical a1)] in
  sync_caldav_caldav accept_all ∅ [a1] []
  = ([create_event client_target (to_ical a1)], Ok {["U1" := utc 10]}) ∧
  sync_caldav_caldav accept_all {["U1" := utc 10]}
    (cal_source r1) (cal_target r1)
  = ([], Ok {["U1" := utc 10]}).
Proof. vm_compute. done. Qed.

(** S2, update with newer B. *)
Example scenario_update_with_newer_b :
  let a1 := mk_event "/a/1.ics" (vevent "U1" 10 "Meet" 12 13) in
  let b1 := mk_event "/b/1.ics" (vevent "U1" 11 "Meet" 14 15) in
  sync_caldav_caldav accept_all {["U1" := utc 10]} [a1] [b1]
  = ([update_event client_source "/a/1.ics" (to_ical b1)],
     Ok {["U1" := utc 11]}).
Proof. vm_compute. done. Qed.

(** S3, two-sided delete. *)
Example scenario_two_sided_delete :
  let b1 := mk_event "/b/1.ics" (vevent "U1" 10 "Meet" 12 13) in
  sync_caldav_caldav accept_all {["U1" := utc 10]} [] [b1]
  = ([delete_event client_target "/b/1.ics"], Ok ∅).
Proof. vm_compute. done. Qed.

(** S5, a placeholder deleted on B: the source event is deleted and
    tombstoned, and the run after that, the source now empty, does nothing. *)
Example scenario_placeholder_deleted :
  let a1 := mk_event "/a/1.ics" (vevent "U1" 10 "Lunch" 12 13) in
  let st1 := mk_busy_state {["U1" := utc 10]} {["U1"]} ∅ ∅ in
  let st2 := mk_busy_state ∅ ∅ {["U1"]} ∅ in
  sync_caldav_busy accept_all (fun _ => utc 30) st1 [a1] []
  = ([delete_event client_source "/a/1.ics"], Ok st2) ∧
  sync_caldav_busy accept_all (fun _ => utc 40) st2 [] [] = ([], Ok st2).
Proof. vm_compute. done. Qed.

(** S6, a placeholder moved on B patches the times of the source event
    and leaves its other properties alone. *)
Example scenario_reschedule_on_b :
  let a1 := mk_event "/a/1.ics" (vevent "U1" 10 "Lunch" 12 13) in
  let b1 := mk_event "/b/1.ics" (vevent "U1" 25 "Busy" 14 15) in
  let st1 := mk_busy_state {["U1" := utc 10]} {["U1"]} ∅ ∅ in
  sync_caldav_busy accept_all (fun _ => utc 30) st1 [a1] [b1]
  = ([update_event client_source "/a/1.ics" (vevent "U1" 10 "Lunch" 14 15)],
     Ok (mk_busy_state {["U1" := utc 25]} {["U1"]} ∅ ∅)).
Proof. vm_compute. done. Qed.

(** FULL_ONEWAY: a create, and the run after it, which is idle. *)
Example scenario_oneway_create :
  let a1 := mk_event "/a/1.ics" (vevent "U1" 10 "Meet" 12 13) in
  let r1 := serve_all (fun _ _ => "/b/1.ics") (mk_remote [a1] [])
              [create_event client_target (to_ical a1)] in
  sync_caldav_full_oneway accept_all ∅ [a1] []
  = ([create_event client_target (to_ical a1)], Ok {["U1" := utc 10]}) ∧
  sync_caldav_full_oneway accept_all {["U1" := utc 10]}
    (cal_source r1) (cal_target r1)
  = ([], Ok {["U1" := utc 10]}).
Proof. vm_compute. done. Qed.

(** The FULL_ONEWAY loader keeps the entries it has read before a value it
    cannot read, while it logs that it starts fresh. *)
Lemma load_oneway_keeps_read_entries (fromisoformat : string → option datetime)
    (s : string) (d : datetime) :
  fromisoformat s = Some d →
  load_oneway fromisoformat
    (document (JObject [("__mode", JString "full_oneway");
                        ("U1", JString s); ("U2", JNull)]))
  = ([WARNING], {["U1" := d]}).
Proof. intros H. simpl. by rewrite H. Qed.

(** * Further properties of the code *)

(** ** The codec helpers *)


Lemma patch_walk_spec walk s e :
  patch_walk walk s e =
    if forallb can_patch walk
    then Ok (patch_component s e <$> walk)
    else Raise KeyError.
Proof.
  induction walk as [|comp walk IH]; [done|].
  rewrite fmap_cons. cbn [patch_walk forallb].
  unfold can_patch at 1, patch_component at 1.
  destruct (is_vevent comp) eqn:Ev.
  - destruct (DTSTART comp) as [ds|], (DTEND comp) as [de|]; try done.
    rewrite IH. by destruct (forallb can_patch walk).
  - rewrite IH. by destruct (forallb can_patch walk).
Qed.





(** X2.  The patch fails with [ValueError] on bytes that are no calendar, with
    [KeyError] as soon as one VEVENT lacks DTSTART or DTEND, and succeeds
    otherwise, also when there is no VEVENT at all (the payload then comes
    back unchanged, where [_parse_dt_range] would raise). *)
Theorem update_src_ical_outcome (raw : ical_bytes)
    (new_start new_end : dt_value) :
  match raw with
  | not_ical => _update_src_ical raw new_start new_end = Raise ValueError
  | ical walk =>
      (Forall (fun comp => is_vevent comp = true →
                           is_Some (DTSTART comp) ∧ is_Some (DTEND comp)) walk ∧
       ∃ raw', _update_src_ical raw new_start new_end = Ok raw') ∨
      (Exists (fun comp => is_vevent comp = true ∧
                           (DTSTART comp = None ∨ DTEND comp = None)) walk ∧
       _update_src_ical raw new_start new_end = Raise KeyError)
  end ∧
  (∀ walk, raw = ical walk → List.find is_vevent walk = None →
     _update_src_ical raw new_start new_end = Ok raw ∧
     _parse_dt_range raw = Raise ValueError).
Proof.
  split.
  - destruct raw as [|walk]; [done|].
    unfold _update_src_ical. simpl. rewrite patch_walk_spec.
    destruct (forallb can_patch walk) eqn:Hc; simpl.
    + left. split; [|eauto]. apply Forall_forall. intros comp Hin Ev.
      rewrite forallb_forall in Hc. specialize (Hc comp).
      rewrite <- list_elem_of_In in Hc. specialize (Hc Hin).
      unfold can_patch in Hc. rewrite Ev in Hc. simpl in Hc.
      apply andb_true_iff in Hc as [H1 H2].
      apply bool_decide_eq_true in H1, H2.
      split; [by destruct (DTSTART comp)|by destruct (DTEND comp)].
    + right. split; [|done]. apply Exists_exists.
      assert (Hex : ∃ comp, comp ∈ walk ∧ can_patch comp = false).
      { clear -Hc. induction walk as [|c walk IH]; [done|]. simpl in Hc.
        apply andb_false_iff in Hc as [Hc|Hc].
        - exists c. split; [apply list_elem_of_here|done].
        - destruct (IH Hc) as (c' & ? & ?). exists c'.
          split; [by apply list_elem_of_further|done]. }
      destruct Hex as (comp & Hin & Hno). exists comp. split; [done|].
      unfold can_patch in Hno. destruct (is_vevent comp); [|done].
      split; [done|]. simpl in Hno. apply andb_false_iff in Hno as [Hno|Hno];
        apply bool_decide_eq_false in Hno.
      * left. destruct (DTSTART comp); [|done]. by destruct Hno.
      * right. destruct (DTEND comp); [|done]. by destruct Hno.
  - intros walk -> Hnone. unfold _update_src_ical, _parse_dt_range. simpl.
    rewrite Hnone. split; [|done].
    assert (Hid : ∀ w, List.find is_vevent w = None →
              patch_walk w new_start new_end = Ok w).
    { induction w as [|c w IH]; [done|]. simpl.
      destruct (is_vevent c); [discriminate|]. intros Hf. by rewrite IH. }
    by rewrite Hid.
Qed.

Lemma update_src_ical_outcome_witness :
  _update_src_ical (ical []) (dt_date 1) (dt_date 2) = Ok (ical []) ∧
  _parse_dt_range (ical []) = Raise ValueError.
Proof.
  destruct (update_src_ical_outcome (ical []) (dt_date 1) (dt_date 2))
    as [_ Hnone].
  by apply (Hnone []).
Defined.






(** ** FULL mode, further *)

Lemma refusal_app backend a b :
  refusal backend (a ++ b) =
    match refusal backend a with
    | Some e => Some e
    | None => refusal backend b
    end.
Proof.
  induction a as [|c a IH]; simpl; [done|]. by destruct (backend c).
Qed.

Lemma refusal_None backend plan :
  refusal backend plan = None ↔ Forall (fun c => backend c = None) plan.
Proof.
  induction plan as [|c plan IH]; simpl.
  - split; [constructor|done].
  - destruct (backend c) eqn:Ec.
    + split; [done|]. intros H. apply Forall_cons in H as [H _]. congruence.
    + rewrite IH. split; [by constructor|]. intros H.
      by apply Forall_cons in H as [_ H].
Qed.

Lemma issued_app backend a b :
  issued backend (a ++ b) =
    match refusal backend a with
    | Some _ => issued backend a
    | None => a ++ issued backend b
    end.
Proof.
  induction a as [|c a IH]; simpl; [done|].
  destruct (backend c); [done|]. rewrite IH.
  by destruct (refusal backend a).
Qed.

Lemma issued_refused backend plan e :
  refusal backend plan = Some e →
  ∃ pre c post,
    plan = pre ++ c :: post ∧ issued backend plan = pre ++ [c] ∧
    Forall (fun c' => backend c' = None) pre ∧ backend c = Some e.
Proof.
  induction plan as [|c plan IH]; simpl; [done|].
  destruct (backend c) as [e'|] eqn:Ec.
  - intros [= ->]. exists [], c, plan. by repeat split.
  - intros Hr. destruct (IH Hr) as (pre & c' & post & -> & -> & Hpre & Hc').
    exists (c :: pre), c', post. repeat split; try done. by constructor.
Qed.

(** A loop whose turns issue at most one call each, as the loops of FULL
    mode do: the trace is the plan as far as it was issued. *)
Lemma for_each_issued {X} backend (ops : X → list call)
    (upd : X → gmap string datetime → gmap string datetime)
    (body : X → gmap string datetime → M (gmap string datetime)) :
  (∀ x s, body x s = (ops x, match refusal backend (ops x) with
                             | Some e => Raise e
                             | None => Ok (upd x s)
                             end)) →
  (∀ x, length (ops x) ≤ 1)%nat →
  ∀ l s,
    for_each body l s
    = (issued backend (flat_map ops l),
       match refusal backend (flat_map ops l) with
       | Some e => Raise e
       | None => Ok (foldl (fun s x => upd x s) s l)
       end).
Proof.
  intros Hbody Hone. induction l as [|x l IH]; intros s; [done|].
  rewrite for_each_cons, Hbody. simpl. rewrite refusal_app, issued_app.
  assert (Hiss : refusal backend (ops x) ≠ None →
                 issued backend (ops x) = ops x).
  { specialize (Hone x). destruct (ops x) as [|c [|c' o]]; simpl in *;
      [done| |lia]. by destruct (backend c). }
  destruct (refusal backend (ops x)) as [e|] eqn:Er; unfold mbind, M_bind.
  - by rewrite Hiss.
  - rewrite IH. done.
Qed.

Lemma full_table_one P A B uid : (length (full_table P A B uid).1 ≤ 1)%nat.
Proof.
  unfold full_table.
  destruct (P !! uid), (A !! uid) as [[? ?]|], (B !! uid) as [[? ?]|];
    simpl; repeat case_match; simpl; lia.
Qed.

(** A run of FULL mode whose views can be keyed, in one equation. *)
Lemma full_run_eq backend old evts_a evts_b meta_a meta_b :
  build_meta evts_a ∅ = Ok meta_a →
  build_meta evts_b ∅ = Ok meta_b →
  ∀ l,
    for_each (full_body backend old meta_a meta_b) l ∅
    = (issued backend
         (flat_map (fun uid => (full_table old meta_a meta_b uid).1) l),
       match refusal backend
               (flat_map (fun uid => (full_table old meta_a meta_b uid).1) l)
       with
       | Some e => Raise e
       | None =>
           Ok (foldl (fun s uid =>
                        record_ts uid (full_table old meta_a meta_b uid).2 s)
                 ∅ l)
       end) ∧
    sync_caldav_caldav backend old evts_a evts_b
    = for_each (full_body backend old meta_a meta_b)
        (elements (dom old ∪ dom meta_a ∪ dom meta_b)) ∅.
Proof.
  intros Ha Hb l. split.
  - apply (for_each_issued backend
             (fun uid => (full_table old meta_a meta_b uid).1)
             (fun uid => record_ts uid (full_table old meta_a meta_b uid).2)).
    + intros uid s. apply full_body_table.
    + intros uid. apply full_table_one.
  - unfold sync_caldav_caldav. rewrite Ha, Hb. unfold lift, mbind, M_bind.
    simpl. by destruct (for_each _ _ _).
Qed.

(** X5.  FULL mode does not go on after a failed call: when the backend refuses
    a call of the plan, the run ends with the exception of the first
    refused call, the trace is the plan up to and including that call, and
    every call before it was accepted. *)
Theorem full_sync_stops_at_refusal (backend : call → option exn)
    (old : gmap string datetime) (evts_a evts_b : list CaldavEvent)
    (meta_a meta_b : gmap string (datetime * CaldavEvent)) (e : exn) :
  build_meta evts_a ∅ = Ok meta_a →
  build_meta evts_b ∅ = Ok meta_b →
  let plan := flat_map (fun uid => (full_table old meta_a meta_b uid).1)
                (elements (dom old ∪ dom meta_a ∪ dom meta_b)) in
  refusal backend plan = Some e →
  ∃ pre c post,
    plan = pre ++ c :: post ∧
    sync_caldav_caldav backend old evts_a evts_b = (pre ++ [c], Raise e) ∧
    Forall (fun c' => backend c' = None) pre ∧ backend c = Some e.
Proof.
  intros Ha Hb plan Hr.
  destruct (full_run_eq backend old _ _ _ _ Ha Hb
              (elements (dom old ∪ dom meta_a ∪ dom meta_b))) as [Heq Hrun].
  fold plan in Heq. rewrite Hr in Heq.
  destruct (issued_refused _ _ _ Hr) as (pre & c & post & Hp & Hi & Hpre & Hc).
  exists pre, c, post. repeat split; try done.
  by rewrite Hrun, Heq, Hi.
Qed.

Lemma full_sync_stops_at_refusal_witness :
  let a1 := mk_event "/a/1.ics" (vevent "U1" 10 "Meet" 12 13) in
  ∃ pre c post,
    [create_event client_target (to_ical a1)] = pre ++ c :: post ∧
    sync_caldav_caldav (fun _ => Some DAVError) ∅ [a1] []
    = (pre ++ [c], Raise DAVError) ∧
    Forall (fun c' => (fun _ : call => Some DAVError) c' = None) pre ∧
    (fun _ : call => Some DAVError) c = Some DAVError.
Proof.
  intros a1.
  exact (full_sync_stops_at_refusal (fun _ => Some DAVError) ∅ [a1] []
           {["U1" := (utc 10, a1)]} ∅ DAVError eq_refl eq_refl eq_refl).
Defined.

Lemma issued_accepted backend plan :
  refusal backend plan = None → issued backend plan = plan.
Proof.
  induction plan as [|c plan IH]; simpl; [done|].
  destruct (backend c); [done|]. intros H. by rewrite IH.
Qed.

Lemma issued_subseteq backend plan c : c ∈ issued backend plan → c ∈ plan.
Proof.
  induction plan as [|c' plan IH]; simpl; [done|].
  intros H. apply elem_of_cons in H as [->|H]; [apply list_elem_of_here|].
  destruct (backend c'); [by apply elem_of_nil in H|].
  apply list_elem_of_further. by apply IH.
Qed.

(** What a run of FULL mode that ends normally has done. *)
Lemma full_run_ok backend old evts_a evts_b meta_a meta_b t new_state :
  build_meta evts_a ∅ = Ok meta_a →
  build_meta evts_b ∅ = Ok meta_b →
  sync_caldav_caldav backend old evts_a evts_b = (t, Ok new_state) →
  ∀ uid, new_state !! uid = (full_table old meta_a meta_b uid).2.
Proof.
  intros Ha Hb Hrun uid.
  destruct (full_run_eq backend old _ _ _ _ Ha Hb
              (elements (dom old ∪ dom meta_a ∪ dom meta_b))) as [Heq Hrun'].
  rewrite Hrun', Heq in Hrun.
  destruct (refusal backend _); [discriminate|]. injection Hrun as _ <-.
  rewrite (foldl_record_lookup
             (fun x => (full_table old meta_a meta_b x).2)).
  rewrite lookup_empty. case_decide as Hin.
  - by destruct (full_table old meta_a meta_b uid).2.
  - rewrite elem_of_elements in Hin. by rewrite full_table_outside.
Qed.

(** X6.  The next state of FULL mode.  A uid is recorded exactly when it is on
    both sides, or on one side and not in the previous state.  For a uid on
    both sides the recorded timestamp is one of the two, and its instant is
    the later of the two instants; on one side only, it is that side's. *)
Theorem full_sync_next_state (backend : call → option exn)
    (old : gmap string datetime) (evts_a evts_b : list CaldavEvent)
    (meta_a meta_b : gmap string (datetime * CaldavEvent))
    (t : list call) (new_state : gmap string datetime) (uid : string) :
  build_meta evts_a ∅ = Ok meta_a →
  build_meta evts_b ∅ = Ok meta_b →
  sync_caldav_caldav backend old evts_a evts_b = (t, Ok new_state) →
  (uid ∈ dom new_state ↔
     (uid ∈ dom meta_a ∧ uid ∈ dom meta_b) ∨
     ((uid ∉ dom old) ∧ (uid ∈ dom meta_a ∨ uid ∈ dom meta_b))) ∧
  (∀ lm_a ea lm_b eb,
     meta_a !! uid = Some (lm_a, ea) → meta_b !! uid = Some (lm_b, eb) →
     ∃ ts, new_state !! uid = Some ts ∧ (ts = lm_a ∨ ts = lm_b) ∧
           instant ts = Z.max (instant lm_a) (instant lm_b)) ∧
  (∀ lm_a ea, meta_a !! uid = Some (lm_a, ea) → meta_b !! uid = None →
              old !! uid = None → new_state !! uid = Some lm_a) ∧
  (∀ lm_b eb, meta_b !! uid = Some (lm_b, eb) → meta_a !! uid = None →
              old !! uid = None → new_state !! uid = Some lm_b).
Proof.
  intros Ha Hb Hrun.
  pose proof (full_run_ok _ _ _ _ _ _ _ _ Ha Hb Hrun uid) as Hl.
  unfold full_table in Hl. split; [|split; [|split]].
  - rewrite !elem_of_dom, Hl. unfold is_Some.
    destruct (old !! uid), (meta_a !! uid) as [[? ?]|],
      (meta_b !! uid) as [[? ?]|]; simpl; repeat case_match; simpl;
      naive_solver.
  - intros lm_a ea lm_b eb HA HB. rewrite HA, HB in Hl.
    assert (Hl' : new_state !! uid =
              (if (instant lm_a >? instant lm_b)%Z then Some lm_a
               else if (instant lm_b >? instant lm_a)%Z then Some lm_b
               else Some lm_a)).
    { rewrite Hl. destruct (old !! uid); repeat case_match; done. }
    rewrite Hl'. destruct (instant lm_a >? instant lm_b)%Z eqn:E1.
    + exists lm_a. split; [done|]. split; [by left|]. lia.
    + destruct (instant lm_b >? instant lm_a)%Z eqn:E2.
      * exists lm_b. split; [done|]. split; [by right|]. lia.
      * exists lm_a. split; [done|]. split; [by left|]. lia.
  - intros lm_a ea HA HB HP. by rewrite HA, HB, HP in Hl.
  - intros lm_b eb HB HA HP. by rewrite HA, HB, HP in Hl.
Qed.

Lemma full_sync_next_state_witness :
  let a1 := mk_event "/a/1.ics" (vevent "U1" 10 "Meet" 12 13) in
  let b1 := mk_event "/b/1.ics" (vevent "U1" 11 "Meet" 14 15) in
  ∃ ts, ({["U1" := utc 11]} : gmap string datetime) !! "U1" = Some ts ∧
        (ts = utc 10 ∨ ts = utc 11) ∧
        instant ts = Z.max (instant (utc 10)) (instant (utc 11)).
Proof.
  intros a1 b1.
  destruct (full_sync_next_state accept_all {["U1" := utc 10]} [a1] [b1]
              {["U1" := (utc 10, a1)]} {["U1" := (utc 11, b1)]}
              [update_event client_source "/a/1.ics" (to_ical b1)]
              {["U1" := utc 11]} "U1" eq_refl eq_refl)
    as (_ & Hmax & _).
  - vm_compute. reflexivity.
  - apply (Hmax (utc 10) a1 (utc 11) b1); reflexivity.
Defined.

(** X7.  FULL mode deletes an event only when its uid is a key of the previous
    state and the other side has no event with that uid: no run, whether it
    ends normally or not, deletes an event that is on both sides, and a run
    that starts from the empty state deletes nothing. *)
Theorem full_sync_deletes_known (backend : call → option exn)
    (old : gmap string datetime) (evts_a evts_b : list CaldavEvent)
    (meta_a meta_b : gmap string (datetime * CaldavEvent))
    (c : client) (u : string) :
  build_meta evts_a ∅ = Ok meta_a →
  build_meta evts_b ∅ = Ok meta_b →
  delete_event c u ∈ (sync_caldav_caldav backend old evts_a evts_b).1 →
  ∃ uid lm e,
    uid ∈ dom old ∧ url e = u ∧
    ((c = client_source ∧ meta_a !! uid = Some (lm, e) ∧
      meta_b !! uid = None) ∨
     (c = client_target ∧ meta_b !! uid = Some (lm, e) ∧
      meta_a !! uid = None)).
Proof.
  intros Ha Hb Hin.
  destruct (full_run_eq backend old _ _ _ _ Ha Hb
              (elements (dom old ∪ dom meta_a ∪ dom meta_b))) as [Heq Hrun].
  rewrite Hrun, Heq in Hin. simpl in Hin. clear Heq Hrun.
  apply issued_subseteq in Hin. apply list_elem_of_In in Hin.
  apply in_flat_map in Hin as (uid & _ & Hin). apply list_elem_of_In in Hin.
  unfold full_table in Hin. exists uid.
  destruct (old !! uid) as [p|] eqn:EP;
    destruct (meta_a !! uid) as [[lm_a ea]|] eqn:EA;
    destruct (meta_b !! uid) as [[lm_b eb]|] eqn:EB;
    simpl in Hin; repeat case_match; simpl in Hin;
    repeat match goal with
      | H : _ ∈ [] |- _ => by apply elem_of_nil in H
      | H : _ ∈ [_] |- _ => apply list_elem_of_singleton in H; simplify_eq
      end.
  all: eexists _, _; (split; [by apply elem_of_dom|]);
    (split; [reflexivity|]); naive_solver.
Qed.

Lemma full_sync_deletes_known_witness :
  let b1 := mk_event "/b/1.ics" (vevent "U1" 10 "Meet" 12 13) in
  ∃ uid lm e,
    uid ∈ dom ({["U1" := utc 10]} : gmap string datetime) ∧
    url e = "/b/1.ics" ∧
    ((client_target = client_source ∧
      (∅ : gmap string (datetime * CaldavEvent)) !! uid = Some (lm, e) ∧
      ({["U1" := (utc 10, b1)]} : gmap string (datetime * CaldavEvent)) !! uid
      = None) ∨
     (client_target = client_target ∧
      ({["U1" := (utc 10, b1)]} : gmap string (datetime * CaldavEvent)) !! uid
      = Some (lm, e) ∧
      (∅ : gmap string (datetime * CaldavEvent)) !! uid = None)).
Proof.
  intros b1.
  apply (full_sync_deletes_known accept_all {["U1" := utc 10]} [] [b1]
           ∅ {["U1" := (utc 10, b1)]} client_target "/b/1.ics"
           eq_refl eq_refl).
  vm_compute. apply list_elem_of_here.
Defined.

(** X8.  The order in which FULL mode visits the uids does not matter: the loop
    runs over a Python set; visited in any other order it ends with the
    same next state, and with the same calls in another order, provided
    the backend accepts the calls. *)
Theorem full_sync_order_independent (backend : call → option exn)
    (old : gmap string datetime)
    (meta_a meta_b : gmap string (datetime * CaldavEvent))
    (l1 l2 : list string) :
  l1 ≡ₚ l2 →
  Forall (fun c => backend c = None)
    (flat_map (fun uid => (full_table old meta_a meta_b uid).1) l1) →
  ∃ t1 t2 new_state,
    for_each (full_body backend old meta_a meta_b) l1 ∅ = (t1, Ok new_state) ∧
    for_each (full_body backend old meta_a meta_b) l2 ∅ = (t2, Ok new_state) ∧
    t1 ≡ₚ t2.
Proof.
  intros Hperm Hacc.
  set (ops := fun uid => (full_table old meta_a meta_b uid).1) in *.
  set (upd := fun uid => record_ts uid (full_table old meta_a meta_b uid).2).
  assert (Heq : ∀ l, for_each (full_body backend old meta_a meta_b) l ∅
            = (issued backend (flat_map ops l),
               match refusal backend (flat_map ops l) with
               | Some e => Raise e
               | None => Ok (foldl (fun s x => upd x s) ∅ l)
               end)).
  { intros l. apply (for_each_issued backend ops upd).
    - intros uid s. apply full_body_table.
    - intros uid. apply full_table_one. }
  assert (Hp : flat_map ops l1 ≡ₚ flat_map ops l2)
    by by apply Permutation_flat_map.
  assert (Hacc2 : Forall (fun c => backend c = None) (flat_map ops l2))
    by by rewrite <- Hp.
  apply refusal_None in Hacc, Hacc2.
  exists (flat_map ops l1), (flat_map ops l2), (foldl (fun s x => upd x s) ∅ l1).
  rewrite !Heq, Hacc, Hacc2, !issued_accepted by done.
  split; [done|]. split; [|done]. do 2 f_equal. apply map_eq. intros uid.
  unfold upd.
  rewrite !(foldl_record_lookup (fun x => (full_table old meta_a meta_b x).2)).
  destruct (decide (uid ∈ l1)) as [H1|H1], (decide (uid ∈ l2)) as [H2|H2];
    try done.
  - destruct H2. by rewrite <- Hperm.
  - destruct H1. by rewrite Hperm.
Qed.

Lemma full_sync_order_independent_witness :
  let a1 := mk_event "/a/1.ics" (vevent "U1" 10 "Meet" 12 13) in
  let a2 := mk_event "/a/2.ics" (vevent "U2" 11 "Call" 14 15) in
  let meta_a : gmap string (datetime * CaldavEvent) :=
    <["U2" := (utc 11, a2)]> {["U1" := (utc 10, a1)]} in
  ∃ t1 t2 new_state,
    for_each (full_body accept_all ∅ meta_a ∅) ["U1"; "U2"] ∅
    = (t1, Ok new_state) ∧
    for_each (full_body accept_all ∅ meta_a ∅) ["U2"; "U1"] ∅
    = (t2, Ok new_state) ∧
    t1 ≡ₚ t2.
Proof.
  intros a1 a2 meta_a.
  apply (full_sync_order_independent accept_all ∅ meta_a ∅
           ["U1"; "U2"] ["U2"; "U1"]).
  - apply perm_swap.
  - apply Forall_forall. intros c _. reflexivity.
Defined.

(** ** FULL_ONEWAY mode, further *)

Lemma oneway_body_table backend old meta_src meta_tgt uid new_state :
  oneway_body backend old meta_src meta_tgt uid new_state =
    let row := oneway_table old meta_src meta_tgt uid in
    (row.1, match refusal backend row.1 with
            | Some e => Raise e
            | None => Ok (record_ts uid row.2 new_state)
            end).
Proof.
  unfold oneway_body, oneway_table.
  destruct (old !! uid) as [p|] eqn:EP;
    destruct (meta_src !! uid) as [[lm_s raw]|] eqn:ES;
    destruct (meta_tgt !! uid) as [[lm_t te]|] eqn:ET;
    unfold_body;
    repeat match goal with
      | |- context [dt_gt ?a ?b] => destruct (dt_gt a b)
      end; simpl;
    run_calls backend; reflexivity.
Qed.

Lemma oneway_table_one P S T uid : (length (oneway_table P S T uid).1 ≤ 1)%nat.
Proof.
  unfold oneway_table.
  destruct (S !! uid) as [[? ?]|], (T !! uid) as [[? ?]|];
    simpl; repeat case_match; simpl; lia.
Qed.

(** A run of FULL_ONEWAY mode whose views can be keyed, in one equation. *)
Lemma oneway_run_eq backend old src_events tgt_events meta_src meta_tgt :
  build_meta_src src_events ∅ = Ok meta_src →
  build_meta tgt_events ∅ = Ok meta_tgt →
  let l := elements (dom old ∪ dom meta_src ∪ dom meta_tgt) in
  let plan := flat_map (fun uid => (oneway_table old meta_src meta_tgt uid).1) l in
  sync_caldav_full_oneway backend old src_events tgt_events
  = (issued backend plan,
     match refusal backend plan with
     | Some e => Raise e
     | None =>
         Ok (foldl (fun s uid =>
                      record_ts uid (oneway_table old meta_src meta_tgt uid).2 s)
               ∅ l)
     end).
Proof.
  intros Hs Ht l plan. unfold sync_caldav_full_oneway. rewrite Hs, Ht.
  unfold lift, mbind, M_bind. simpl.
  rewrite (for_each_issued backend
             (fun uid => (oneway_table old meta_src meta_tgt uid).1)
             (fun uid => record_ts uid (oneway_table old meta_src meta_tgt uid).2)).
  - done.
  - intros uid s. apply oneway_body_table.
  - intros uid. apply oneway_table_one.
Qed.

(** Where an entry of the source view of FULL_ONEWAY mode comes from. *)
Lemma build_meta_src_lookup evts :
  ∀ meta meta' uid lm raw,
    build_meta_src evts meta = Ok meta' →
    meta' !! uid = Some (lm, raw) →
    meta !! uid = Some (lm, raw) ∨
    ∃ e walk, e ∈ evts ∧ to_ical e = raw ∧ from_ical raw = Ok walk ∧
      first_summary walk ≠ Some "Busy" ∧
      _parse_ical_metadata raw = Ok (uid, lm).
Proof.
  induction evts as [|e0 evts IH]; intros meta meta' uid lm raw; simpl.
  - intros [= <-]. auto.
  - destruct (from_ical (to_ical e0)) as [walk|err] eqn:Ef; simpl;
      [|discriminate].
    case_bool_decide as Hb.
    + intros Hbuild Hl. destruct (IH _ _ _ _ _ Hbuild Hl) as [?|(e & w & ? & ?)];
        [by left|]. right. exists e, w. split; [by apply list_elem_of_further|done].
    + destruct (_parse_ical_metadata (to_ical e0)) as [[uid0 lm0]|err] eqn:Ep;
        simpl; [|discriminate].
      intros Hbuild Hl.
      destruct (IH _ _ _ _ _ Hbuild Hl) as [Hprev|(e & w & ? & ?)].
      * destruct (decide (uid0 = uid)) as [->|Hne].
        -- rewrite lookup_insert_eq in Hprev. injection Hprev as -> <-.
           right. exists e0, walk. split; [apply list_elem_of_here|done].
        -- rewrite lookup_insert_ne in Hprev by done. auto.
      * right. exists e, w. split; [by apply list_elem_of_further|done].
Qed.



(** X12.  FULL_ONEWAY mode writes on the target only, and what it writes there is
    the payload of an event of the source view, taken as it is, whose first
    VEVENT does not have the SUMMARY Busy: a run never calls the source
    client, and never copies a Busy event. *)
Theorem oneway_copies_source_payloads (backend : call → option exn)
    (old : gmap string datetime) (src_events tgt_events : list CaldavEvent)
    (c : call) :
  c ∈ (sync_caldav_full_oneway backend old src_events tgt_events).1 →
  call_client c = client_target ∧
  ∀ raw, call_payload c = Some raw →
    ∃ e walk, e ∈ src_events ∧ to_ical e = raw ∧ from_ical raw = Ok walk ∧
      first_summary walk ≠ Some "Busy".
Proof.
  intros Hin.
  destruct (build_meta_src_result src_events ∅) as [[meta_src Hs]|Hs];
    [|unfold sync_caldav_full_oneway in Hin; rewrite Hs in Hin;
      by apply elem_of_nil in Hin].
  destruct (build_meta_result tgt_events ∅) as [[meta_tgt Ht]|Ht];
    [|unfold sync_caldav_full_oneway in Hin; rewrite Hs, Ht in Hin;
      by apply elem_of_nil in Hin].
  rewrite (oneway_run_eq backend old _ _ _ _ Hs Ht) in Hin. simpl in Hin.
  apply issued_subseteq in Hin. apply list_elem_of_In in Hin.
  apply in_flat_map in Hin as (uid & _ & Hin). apply list_elem_of_In in Hin.
  assert (Hsrc : ∀ lm raw, meta_src !! uid = Some (lm, raw) →
            ∃ e walk, e ∈ src_events ∧ to_ical e = raw ∧
              from_ical raw = Ok walk ∧ first_summary walk ≠ Some "Busy").
  { intros lm raw Hl.
    destruct (build_meta_src_lookup _ _ _ _ _ _ Hs Hl)
      as [He|(e & w & ? & ? & ? & ? & _)]; [by rewrite lookup_empty in He|].
    by exists e, w. }
  unfold oneway_table in Hin.
  destruct (meta_src !! uid) as [[lm_s raw_s]|] eqn:ES;
    destruct (meta_tgt !! uid) as [[lm_t te]|] eqn:ET;
    simpl in Hin; repeat case_match; simpl in Hin;
    repeat match goal with
      | H : _ ∈ [] |- _ => by apply elem_of_nil in H
      | H : _ ∈ [_] |- _ => apply list_elem_of_singleton in H; subst c
      end; (split; [reflexivity|]); simpl; intros raw Hr;
    first [discriminate Hr | injection Hr as <-; by eapply Hsrc].
Qed.

Lemma oneway_copies_source_payloads_witness :
  let s1 := mk_event "/s/1.ics" (vevent "U1" 10 "Meet" 12 13) in
  let c := create_event client_target (to_ical s1) in
  call_client c = client_target ∧
  ∀ raw, call_payload c = Some raw →
    ∃ e walk, e ∈ [s1] ∧ to_ical e = raw ∧ from_ical raw = Ok walk ∧
      first_summary walk ≠ Some "Busy".
Proof.
  intros s1 c.
  apply (oneway_copies_source_payloads accept_all ∅ [s1] [] c).
  vm_compute. apply list_elem_of_here.
Defined.

(** ** BUSY mode, further *)

(** The uids the index of the target view holds, in terms of the events of
    the view: [cur_real_uids] has the uids of the events that are not Busy,
    [busy_meta] is keyed by the uids of the events that are. *)
Lemma build_tgt_index_uids evts :
  ∀ ix0 ix, build_tgt_index evts ix0 = Ok ix →
  ∀ uid,
    (uid ∈ cur_real_uids ix ↔
       uid ∈ cur_real_uids ix0 ∨
       ∃ e lm, e ∈ evts ∧ _parse_ical_metadata (to_ical e) = Ok (uid, lm) ∧
               ¬ is_busy e) ∧
    (uid ∈ dom (busy_meta ix) ↔
       uid ∈ dom (busy_meta ix0) ∨
       ∃ e lm, e ∈ evts ∧ _parse_ical_metadata (to_ical e) = Ok (uid, lm) ∧
               is_busy e).
Proof.
  induction evts as [|e0 evts IH]; intros ix0 ix; simpl.
  - intros [= <-] uid.
    split; (split; [auto|]); intros [?|(e & lm & Hin & _)]; try done;
      by apply elem_of_nil in Hin.
  - destruct (_parse_ical_metadata (to_ical e0)) as [[uid0 lm0]|err] eqn:Ep;
      simpl; [|discriminate].
    destruct (_get_summary (to_ical e0)) as [summary|err] eqn:Es; simpl;
      [|discriminate].
    assert (Hcons : ∀ (Q : CaldavEvent → Prop) uid,
              (∃ e lm, e ∈ e0 :: evts ∧
                 _parse_ical_metadata (to_ical e) = Ok (uid, lm) ∧ Q e) ↔
              (uid0 = uid ∧ Q e0) ∨
              (∃ e lm, e ∈ evts ∧
                 _parse_ical_metadata (to_ical e) = Ok (uid, lm) ∧ Q e)).
    { intros Q uid. split.
      - intros (e & lm & Hin & Hp & HQ).
        apply elem_of_cons in Hin as [->|Hin]; [left|right; eauto].
        rewrite Ep in Hp. by injection Hp as -> _.
      - intros [[<- HQ]|(e & lm & Hin & Hp & HQ)].
        + exists e0, lm0. split; [apply list_elem_of_here|done].
        + exists e, lm. split; [by apply list_elem_of_further|done]. }
    case_bool_decide as Hb; intros Hbuild uid;
      destruct (IH _ _ Hbuild uid) as [IHr IHb]; simpl in IHr, IHb;
      rewrite IHr, IHb, !Hcons; unfold is_busy; rewrite Es.
    + assert (Hne : Ok summary ≠ Ok (Some "Busy")) by congruence.
      rewrite elem_of_union, elem_of_singleton.
      split; intuition (subst; auto).
    + assert (summary = Some "Busy") as ->
        by (by destruct (decide (summary = Some "Busy"))).
      rewrite dom_insert, elem_of_union, elem_of_singleton.
      split; intuition (subst; auto).
Qed.

Lemma is_busy_dec e : is_busy e ∨ ¬ is_busy e.
Proof.
  unfold is_busy. destruct (_get_summary (to_ical e)) as [[s|]|err];
    [|right; congruence..].
  destruct (decide (s = "Busy")) as [->|Hne]; [by left|right; congruence].
Qed.

(** The source view keyed by uid has the uids of the events of the view. *)
Lemma build_src_meta_uids src_events src0 uid :
  build_src_meta src_events ∅ = Ok src0 →
  uid ∈ dom src0 ↔
  ∃ e lm, e ∈ src_events ∧ _parse_ical_metadata (to_ical e) = Ok (uid, lm).
Proof.
  intros Hs. split.
  - intros Hd. apply elem_of_dom in Hd as [[[e raw] lm] Hl].
    destruct (build_src_meta_lookup _ _ _ _ _ _ _ Hs Hl) as [He|(? & -> & ?)];
      [by rewrite lookup_empty in He|]. by exists e, lm.
  - intros (e & lm & Hin & Hp).
    by apply (proj2 (build_src_meta_dom _ _ _ Hs) e uid lm).
Qed.

(** A run that ends normally could key both views. *)
Lemma busy_run_builds backend now old src_events tgt_events t st :
  sync_caldav_busy backend now old src_events tgt_events = (t, Ok st) →
  ∃ src0 ix,
    build_src_meta src_events ∅ = Ok src0 ∧
    build_tgt_index tgt_events (mk_tgt_index ∅ ∅ ∅) = Ok ix.
Proof.
  unfold sync_caldav_busy.
  destruct (build_src_meta_result src_events ∅) as [[src0 Hs]|Hs]; rewrite Hs;
    [|discriminate].
  destruct (build_tgt_index_result tgt_events (mk_tgt_index ∅ ∅ ∅))
    as [[ix Hi]|Hi]; rewrite Hi; [eauto|discriminate].
Qed.

(** X13.  BUSY mode never creates an event on the source, and every payload it
    writes on the target, by a creation or by an update, is a placeholder
    built by [_build_busy_ical]: of the source event it has the uid and a
    time range, and nothing else. *)
Theorem busy_writes_placeholders (backend : call → option exn)
    (now : string → datetime) (old : busy_state)
    (src_events tgt_events : list CaldavEvent) (c : call) :
  c ∈ (sync_caldav_busy backend now old src_events tgt_events).1 →
  (∀ raw, c ≠ create_event client_source raw) ∧
  (call_client c = client_target →
   ∀ raw, call_payload c = Some raw →
     ∃ uid dtstart dtend,
       raw = _build_busy_ical (now uid) uid dtstart dtend).
Proof.
  intros Hin.
  destruct (busy_run_views _ _ _ _ _ _ Hin) as (src0 & ix & Hs & Hi).
  pose proof (busy_run_calls backend now old _ _ _ _ Hs Hi) as Hcalls.
  rewrite Forall_forall in Hcalls.
  destruct (Hcalls _ Hin)
    as [(uid & e & r & lm & -> & _)
       |[(uid & e & r & lm & -> & _)
        |[(uid & e & r & lm & -> & _)
         |[(uid & ds & de & -> & _)
          |[(uid & e & r & lm & ds & de & -> & _)
           |(uid & e & r & lm & upd & -> & _)]]]]];
    (split; [intros raw Heq; discriminate Heq|]); simpl;
    intros Hc raw Hr; try discriminate; injection Hr as <-; eauto.
Qed.

Lemma busy_writes_placeholders_witness :
  let s1 := mk_event "/s/1.ics" (vevent "U1" 10 "Meet" 12 13) in
  let now := fun _ : string => utc 20 in
  let c := create_event client_target
             (_build_busy_ical (utc 20) "U1" (dt_datetime (utc 12))
                (dt_datetime (utc 13))) in
  (∀ raw, c ≠ create_event client_source raw) ∧
  (call_client c = client_target →
   ∀ raw, call_payload c = Some raw →
     ∃ uid dtstart dtend,
       raw = _build_busy_ical (now uid) uid dtstart dtend).
Proof.
  intros s1 now c.
  apply (busy_writes_placeholders accept_all now empty_busy_state [s1] [] c).
  vm_compute. apply list_elem_of_here.
Defined.

(** X14.  BUSY mode deletes an event of the source only when its uid was recorded
    by an earlier run and the target view no longer shows what was
    recorded: the uid is in the previous [real_uids] and no event of the
    target view that is not Busy has it, or it is in the previous
    [busy_uids] and no Busy event of the target view has it. *)
Theorem busy_source_deletes (backend : call → option exn)
    (now : string → datetime) (old : busy_state)
    (src_events tgt_events : list CaldavEvent) (u : string) :
  delete_event client_source u
    ∈ (sync_caldav_busy backend now old src_events tgt_events).1 →
  ∃ e uid lm,
    e ∈ src_events ∧ url e = u ∧
    _parse_ical_metadata (to_ical e) = Ok (uid, lm) ∧
    ((uid ∈ real_uids old ∧
      ∀ e' lm', e' ∈ tgt_events →
                _parse_ical_metadata (to_ical e') = Ok (uid, lm') →
                is_busy e') ∨
     (uid ∈ busy_uids old ∧
      ∀ e' lm', e' ∈ tgt_events →
                _parse_ical_metadata (to_ical e') = Ok (uid, lm') →
                ¬ is_busy e')).
Proof.
  intros Hin.
  destruct (busy_run_views _ _ _ _ _ _ Hin) as (src0 & ix & Hs & Hi).
  pose proof (busy_run_calls backend now old _ _ _ _ Hs Hi) as Hcalls.
  rewrite Forall_forall in Hcalls.
  destruct (Hcalls _ Hin)
    as [(uid & e & r & lm & Heq & _)
       |[(uid & e & r & lm & Heq & Hl & Hwhy)
        |[(uid & e & r & lm & Heq & _)
         |[(uid & ds & de & Heq & _)
          |[(uid & e & r & lm & ds & de & Heq & _)
           |(uid & e & r & lm & upd & Heq & _)]]]]]; try discriminate.
  injection Heq as ->.
  destruct (build_src_meta_lookup _ _ _ _ _ _ _ Hs Hl) as [He|(He & -> & Hp)];
    [by rewrite lookup_empty in He|].
  exists e, uid, lm. repeat split; try done.
  pose proof (build_tgt_index_uids _ _ _ Hi uid) as [Hreal Hbusy].
  simpl in Hreal, Hbusy. rewrite dom_empty in Hbusy.
  destruct Hwhy as [Hd|Hd]; apply elem_of_difference in Hd as [Hold Hgone].
  - left. split; [done|]. intros e' lm' Hin' Hp'.
    destruct (is_busy_dec e') as [Hb|Hb]; [done|].
    destruct Hgone. apply Hreal. right. by exists e', lm'.
  - right. split; [done|]. intros e' lm' Hin' Hp' Hb.
    destruct Hgone. apply Hbusy. right. by exists e', lm'.
Qed.

Lemma busy_source_deletes_witness :
  let s1 := mk_event "/s/1.ics" (vevent "U1" 10 "Meet" 12 13) in
  let old := mk_busy_state {["U1" := utc 10]} {["U1"]} ∅ ∅ in
  ∃ e uid lm,
    e ∈ [s1] ∧ url e = "/s/1.ics" ∧
    _parse_ical_metadata (to_ical e) = Ok (uid, lm) ∧
    ((uid ∈ real_uids old ∧
      ∀ e' lm', e' ∈ [] →
                _parse_ical_metadata (to_ical e') = Ok (uid, lm') →
                is_busy e') ∨
     (uid ∈ busy_uids old ∧
      ∀ e' lm', e' ∈ [] →
                _parse_ical_metadata (to_ical e') = Ok (uid, lm') →
                ¬ is_busy e')).
Proof.
  intros s1 old.
  apply (busy_source_deletes accept_all (fun _ => utc 20) old [s1] []
           "/s/1.ics").
  vm_compute. apply list_elem_of_here.
Defined.

(** X17.  What a BUSY run that ends normally persists as [real_uids] and as
    [busy_uids]: [real_uids] is the set of the uids of the events of the
    target view that are not Busy, whatever the run has deleted; a uid of
    [busy_uids] is the uid of an event of the source view and not the uid
    of an event of the target view that is not Busy. *)
Theorem busy_next_state_uids (backend : call → option exn)
    (now : string → datetime) (old : busy_state)
    (src_events tgt_events : list CaldavEvent)
    (t : list call) (st : busy_state) :
  sync_caldav_busy backend now old src_events tgt_events = (t, Ok st) →
  (∀ uid, uid ∈ real_uids st ↔
     ∃ e lm, e ∈ tgt_events ∧
       _parse_ical_metadata (to_ical e) = Ok (uid, lm) ∧ ¬ is_busy e) ∧
  (∀ uid, uid ∈ busy_uids st →
     (uid ∉ real_uids st) ∧
     ∃ e lm, e ∈ src_events ∧
       _parse_ical_metadata (to_ical e) = Ok (uid, lm)).
Proof.
  intros Hrun.
  destruct (busy_run_builds _ _ _ _ _ _ _ Hrun) as (src0 & ix & Hs & Hi).
  destruct (busy_run_phases _ _ _ _ _ _ _ _ _ Hs Hi Hrun)
    as (t1 & t5 & t6 & t7 & src1 & src2 & tomb3 & acc & -> & -> & _ & _
        & _ & _ & _ & Hs1 & Hs2 & _ & Hinv).
  simpl. split.
  - intros uid.
    pose proof (build_tgt_index_uids _ _ _ Hi uid) as [Hreal _].
    simpl in Hreal. rewrite Hreal. split; [|auto].
    intros [Hin|?]; [by apply not_elem_of_empty in Hin|done].
  - intros uid Hb. destruct (inv_busy _ _ _ _ _ _ Hinv uid Hb)
      as (_ & Hsrc & Hnr & _).
    split; [done|]. apply (build_src_meta_uids _ _ _ Hs).
    apply elem_of_dom in Hsrc as [v Hv]. apply elem_of_dom. exists v.
    rewrite Hs2 in Hv. case_decide; [done|]. rewrite Hs1 in Hv.
    by case_decide.
Qed.

Lemma busy_next_state_uids_witness :
  let s1 := mk_event "/s/1.ics" (vevent "U1" 10 "Meet" 12 13) in
  let b2 := mk_event "/t/2.ics" (vevent "U2" 11 "Lunch" 14 15) in
  let st := mk_busy_state {["U1" := utc 10]} {["U1"]} ∅ {["U2"]} in
  (∀ uid, uid ∈ real_uids st ↔
     ∃ e lm, e ∈ [b2] ∧
       _parse_ical_metadata (to_ical e) = Ok (uid, lm) ∧ ¬ is_busy e) ∧
  (∀ uid, uid ∈ busy_uids st →
     (uid ∉ real_uids st) ∧
     ∃ e lm, e ∈ [s1] ∧
       _parse_ical_metadata (to_ical e) = Ok (uid, lm)).
Proof.
  intros s1 b2 st.
  apply (busy_next_state_uids accept_all (fun _ => utc 20) empty_busy_state
           [s1] [b2]
           [create_event client_target
              (_build_busy_ical (utc 20) "U1" (dt_datetime (utc 12))
                 (dt_datetime (utc 13)))] st).
  vm_compute. reflexivity.
Defined.

(** X18.  Where the tombstones a BUSY run persists come from: a tombstone is a
    tombstone of the previous state, or a uid of the previous [busy_uids]
    that no Busy event of the target view has, or a uid of the previous
    [real_uids] that is missing on one side: no event of the target view
    that is not Busy has it, or no event of the source view has it.  A run
    that starts from the empty state persists no tombstone. *)
Theorem busy_tombstone_provenance (backend : call → option exn)
    (now : string → datetime) (old : busy_state)
    (src_events tgt_events : list CaldavEvent)
    (t : list call) (st : busy_state) :
  sync_caldav_busy backend now old src_events tgt_events = (t, Ok st) →
  (∀ uid, uid ∈ tombstones st →
     uid ∈ tombstones old ∨
     (uid ∈ busy_uids old ∧
      ∀ e lm, e ∈ tgt_events →
              _parse_ical_metadata (to_ical e) = Ok (uid, lm) →
              ¬ is_busy e) ∨
     (uid ∈ real_uids old ∧
      ((∀ e lm, e ∈ tgt_events →
                _parse_ical_metadata (to_ical e) = Ok (uid, lm) →
                is_busy e) ∨
       (∀ e lm, e ∈ src_events →
                _parse_ical_metadata (to_ical e) ≠ Ok (uid, lm))))) ∧
  (old = empty_busy_state → tombstones st = ∅).
Proof.
  intros Hrun.
  destruct (busy_run_builds _ _ _ _ _ _ _ Hrun) as (src0 & ix & Hs & Hi).
  destruct (busy_run_phases _ _ _ _ _ _ _ _ _ Hs Hi Hrun)
    as (t1 & t5 & t6 & t7 & src1 & src2 & tomb3 & acc & -> & -> & _ & _
        & _ & _ & Htomb & _ & _ & _ & Hinv).
  pose proof (inv_tombs_sub _ _ _ _ _ _ Hinv) as Hsub. simpl.
  split.
  - intros uid Hin. apply Hsub in Hin. rewrite Htomb in Hin.
    pose proof (build_tgt_index_uids _ _ _ Hi uid) as [Hreal Hbusy].
    simpl in Hreal, Hbusy. rewrite dom_empty in Hbusy.
    rewrite !elem_of_union, !elem_of_difference in Hin.
    destruct Hin as [[[[Hold Hgone]|[Hold Hgone]]|[Hold Hgone]]|Hold].
    + right; left. split; [done|]. intros e lm He Hp Hb.
      destruct Hgone. apply Hbusy. right. by exists e, lm.
    + right; right. split; [done|]. left. intros e lm He Hp.
      destruct (is_busy_dec e) as [Hb|Hb]; [done|].
      destruct Hgone. apply Hreal. right. by exists e, lm.
    + right; right. split; [done|]. right. intros e lm He Hp.
      destruct Hgone. apply (build_src_meta_uids _ _ _ Hs). by exists e, lm.
    + by left.
  - intros ->. simpl in Htomb. apply set_eq. intros uid.
    split; [|by intros H; apply not_elem_of_empty in H].
    intros Hin. apply Hsub in Hin. rewrite Htomb in Hin. set_solver.
Qed.

Lemma busy_tombstone_provenance_witness :
  let s1 := mk_event "/s/1.ics" (vevent "U1" 10 "Meet" 12 13) in
  let old := mk_busy_state {["U1" := utc 10]} {["U1"]} ∅ ∅ in
  let st := mk_busy_state ∅ ∅ {["U1"]} ∅ in
  (∀ uid, uid ∈ tombstones st →
     uid ∈ tombstones old ∨
     (uid ∈ busy_uids old ∧
      ∀ e lm, e ∈ [] →
              _parse_ical_metadata (to_ical e) = Ok (uid, lm) →
              ¬ is_busy e) ∨
     (uid ∈ real_uids old ∧
      ((∀ e lm, e ∈ [] →
                _parse_ical_metadata (to_ical e) = Ok (uid, lm) →
                is_busy e) ∨
       (∀ e lm, e ∈ [s1] →
                _parse_ical_metadata (to_ical e) ≠ Ok (uid, lm))))) ∧
  (old = empty_busy_state → tombstones st = ∅).
Proof.
  intros s1 old st.
  apply (busy_tombstone_provenance accept_all (fun _ => utc 20) old [s1] []
           [delete_event client_source "/s/1.ics"] st).
  vm_compute. reflexivity.
Defined.

Section BusyWriteBack.
Variable backend : call → option exn.
Variable now : string → datetime.
Variable old_synced : gmap string datetime.
Variable src_meta : gmap string meta3.
Variable ix : tgt_index.
Variable tgt_events : list CaldavEvent.
Hypothesis Hix : tgt_index_ok tgt_events ix.

Lemma busy_body_write_back uid acc :
  Forall (busy_write_back src_meta ix)
    (busy_body backend now old_synced src_meta ix tgt_events uid acc).1.
Proof.
  unfold busy_body.
  destruct (decide (uid ∈ cur_real_uids ix)) as [Hreal|Hreal].
  { rewrite bool_decide_eq_true_2 by done. trace_shape. }
  rewrite bool_decide_eq_false_2 by done.
  destruct (old_synced !! uid) as [p|] eqn:EP;
    destruct (src_meta !! uid) as [[[e_src raw_src] lm_src]|] eqn:ES;
    destruct (busy_meta ix !! uid) as [[[e_tgt raw_tgt] lm_tgt]|] eqn:EB;
    unfold_body.
  all: try (pose proof (proj2 (not_elem_of_dom (busy_meta ix) uid) EB)).
  all: try (destruct (decide (uid ∈ acc_tombstones acc)) as [Htomb|Htomb];
            [rewrite bool_decide_eq_true_2 by done
            |rewrite bool_decide_eq_false_2 by done]).
  all: repeat match goal with
         | |- context [dt_gt ?a ?b] => destruct (dt_gt a b) eqn:?
         | |- context [_parse_dt_range ?raw] =>
             destruct (_parse_dt_range raw) as [[dtstart dtend]|err_dt] eqn:?
         | |- context [_update_src_ical ?raw ?a ?b] =>
             destruct (_update_src_ical raw a b) as [updated|err_up] eqn:?
         end; simpl.
  all: unfold try_except_PutError, do_call, mbind, M_bind, mret, M_ret, lift;
       simpl.
  all: repeat match goal with
         | |- context [backend ?c] => destruct (backend c) as [[]|]
         end; simpl.
  all: rewrite ?(put_fallback_nothing backend ix tgt_events Hix) by done;
       simpl.
  all: trace_shape; intros u upd Heq; try discriminate Heq;
       injection Heq as <- <-;
       exists uid, e_src, raw_src, lm_src, e_tgt, raw_tgt, lm_tgt,
              dtstart, dtend; by repeat (split; [eassumption|]).
Qed.

Lemma busy_loop_write_back l acc :
  Forall (busy_write_back src_meta ix)
    (for_each (busy_body backend now old_synced src_meta ix tgt_events)
       l acc).1.
Proof.
  destruct (for_each_inv
              (busy_body backend now old_synced src_meta ix tgt_events)
              (fun _ _ => True) (busy_write_back src_meta ix) l [] acc)
    as [HP _]; [done| |exact HP].
  intros done' uid rest s _ _. split; [apply busy_body_write_back|done].
Qed.
End BusyWriteBack.

Lemma busy_run_write_back backend now old src_events tgt_events src0 ix :
  build_src_meta src_events ∅ = Ok src0 →
  build_tgt_index tgt_events (mk_tgt_index ∅ ∅ ∅) = Ok ix →
  Forall (busy_write_back src0 ix)
    (sync_caldav_busy backend now old src_events tgt_events).1.
Proof.
  intros Hsrc Hidx.
  unfold sync_caldav_busy. rewrite Hsrc, Hidx. unfold lift.
  apply M_bind_Forall; [apply List.Forall_nil|]. intros ? [= <-].
  apply M_bind_Forall; [apply List.Forall_nil|]. intros ? [= <-].
  apply M_bind_Forall.
  { eapply Forall_impl; [apply deleted_on_a_pass|].
    intros c (uid & e & raw & lm & -> & _) u upd Heq. discriminate Heq. }
  intros tomb1 H1. apply M_bind_Forall.
  { eapply Forall_impl; [apply deleted_on_b_pass|].
    intros c (uid & e & raw & lm & -> & _) u upd Heq. discriminate Heq. }
  intros [src1 tomb2] H5. apply M_bind_Forall.
  { eapply Forall_impl; [apply deleted_on_b_pass|].
    intros c (uid & e & raw & lm & -> & _) u upd Heq. discriminate Heq. }
  intros [src2 tomb3] H6.
  destruct (busy_passes_state backend old src0 ix _ _ _ _ _ H1 H5 H6)
    as (_ & Hs1 & Hs2).
  apply M_bind_Forall; [|intros acc _; apply List.Forall_nil].
  eapply Forall_impl;
    [apply (busy_loop_write_back backend now (synced old) src2 ix tgt_events
              (busy_index_ok _ _ Hidx))|].
  intros c Hc u upd Heq.
  destruct (Hc u upd Heq)
    as (uid & e_src & raw_src & lm_src & e_tgt & raw_tgt & lm_tgt & ds & de
        & Hl & ?).
  exists uid, e_src, raw_src, lm_src, e_tgt, raw_tgt, lm_tgt, ds, de.
  split; [|done]. rewrite Hs2 in Hl. case_decide; [done|].
  rewrite Hs1 in Hl. by case_decide.
Qed.

(** X15.  The only payload BUSY mode writes on the source is a write-back of
    times: the updated event is an event of the source view, there is a
    Busy event of the target view with the same uid and a later timestamp,
    and the payload is the payload of the source event patched by
    [_update_src_ical] to the time range of that Busy event. *)
Theorem busy_write_back_payload (backend : call → option exn)
    (now : string → datetime) (old : busy_state)
    (src_events tgt_events : list CaldavEvent)
    (u : string) (updated : ical_bytes) :
  update_event client_source u updated
    ∈ (sync_caldav_busy backend now old src_events tgt_events).1 →
  ∃ e_src e_tgt uid lm_src lm_tgt dtstart dtend,
    e_src ∈ src_events ∧ url e_src = u ∧
    e_tgt ∈ tgt_events ∧ is_busy e_tgt ∧
    _parse_ical_metadata (to_ical e_src) = Ok (uid, lm_src) ∧
    _parse_ical_metadata (to_ical e_tgt) = Ok (uid, lm_tgt) ∧
    dt_gt lm_tgt lm_src = true ∧
    _parse_dt_range (to_ical e_tgt) = Ok (dtstart, dtend) ∧
    _update_src_ical (to_ical e_src) dtstart dtend = Ok updated.
Proof.
  intros Hin.
  destruct (busy_run_views _ _ _ _ _ _ Hin) as (src0 & ix & Hs & Hi).
  pose proof (busy_index_ok tgt_events ix Hi) as Hok.
  pose proof (busy_run_write_back backend now old _ _ _ _ Hs Hi) as Hcalls.
  rewrite Forall_forall in Hcalls.
  destruct (Hcalls _ Hin u updated eq_refl)
    as (uid & e_src & raw_src & lm_src & e_tgt & raw_tgt & lm_tgt & ds & de
        & Hls & Hlt & -> & Hgt & Hr & Hu).
  destruct (build_src_meta_lookup _ _ _ _ _ _ _ Hs Hls)
    as [He|(Hes & -> & Hps)]; [by rewrite lookup_empty in He|].
  destruct (ok_busy _ _ Hok _ _ _ _ Hlt) as (Het & -> & Hpt & Hb).
  by exists e_src, e_tgt, uid, lm_src, lm_tgt, ds, de.
Qed.

Lemma busy_write_back_payload_witness :
  let s1 := mk_event "/s/1.ics" (vevent "U1" 10 "Meet" 12 13) in
  let p1 := mk_event "/t/1.ics"
              (_build_busy_ical (utc 30) "U1" (dt_datetime (utc 14))
                 (dt_datetime (utc 15))) in
  ∃ e_src e_tgt uid lm_src lm_tgt dtstart dtend,
    e_src ∈ [s1] ∧ url e_src = "/s/1.ics" ∧
    e_tgt ∈ [p1] ∧ is_busy e_tgt ∧
    _parse_ical_metadata (to_ical e_src) = Ok (uid, lm_src) ∧
    _parse_ical_metadata (to_ical e_tgt) = Ok (uid, lm_tgt) ∧
    dt_gt lm_tgt lm_src = true ∧
    _parse_dt_range (to_ical e_tgt) = Ok (dtstart, dtend) ∧
    _update_src_ical (to_ical e_src) dtstart dtend
    = Ok (vevent "U1" 10 "Meet" 14 15).
Proof.
  intros s1 p1.
  apply (busy_write_back_payload accept_all (fun _ => utc 40)
           (mk_busy_state {["U1" := utc 10]} {["U1"]} ∅ ∅) [s1] [p1]
           "/s/1.ics" (vevent "U1" 10 "Meet" 14 15)).
  vm_compute. apply list_elem_of_here.
Defined.

Lemma deleted_on_a_issued backend (real_meta : gmap string meta3) l :
  ∀ tombs t tombs' uid e raw lm,
    for_each (deleted_on_a_body backend real_meta) l tombs = (t, Ok tombs') →
    uid ∈ l → real_meta !! uid = Some (e, raw, lm) →
    delete_event client_target (url e) ∈ t.
Proof.
  induction l as [|x l IH]; intros tombs t tombs' uid e raw lm Hrun Hin Hl.
  - by apply elem_of_nil in Hin.
  - rewrite for_each_cons in Hrun.
    apply M_bind_Ok in Hrun as (t1 & tb1 & t2 & Hb & Hrest & ->).
    apply elem_of_app. destruct (decide (x = uid)) as [->|Hne].
    + left. unfold deleted_on_a_body in Hb. revert Hb. unfold_body.
      run_calls backend; intros [= <- _]; apply list_elem_of_here.
    + right. apply elem_of_cons in Hin as [?|Hin]; [done|].
      by eapply (IH tb1 t2 tombs' uid e raw lm).
Qed.

(** X16.  BUSY mode carries a deletion on the source over to a real event of the
    target: when a uid of the previous [real_uids] has no event in the
    source view and the target view has an event with it that is not Busy,
    a run that ends normally deletes that event on the target, persists
    the uid as a tombstone and still persists it among [real_uids]. *)
Theorem busy_propagates_source_deletion (backend : call → option exn)
    (now : string → datetime) (old : busy_state)
    (src_events tgt_events : list CaldavEvent) (ix : tgt_index)
    (t : list call) (st : busy_state)
    (uid : string) (e : CaldavEvent) (raw : ical_bytes) (lm : datetime) :
  build_tgt_index tgt_events (mk_tgt_index ∅ ∅ ∅) = Ok ix →
  sync_caldav_busy backend now old src_events tgt_events = (t, Ok st) →
  uid ∈ real_uids old →
  (∀ e' lm', e' ∈ src_events →
             _parse_ical_metadata (to_ical e') ≠ Ok (uid, lm')) →
  real_meta ix !! uid = Some (e, raw, lm) →
  e ∈ tgt_events ∧ ¬ is_busy e ∧
  delete_event client_target (url e) ∈ t ∧
  uid ∈ tombstones st ∧ uid ∈ real_uids st.
Proof.
  intros Hi Hrun Hold Hnosrc Hl.
  destruct (busy_run_builds _ _ _ _ _ _ _ Hrun) as (src0 & ix' & Hs & Hi').
  rewrite Hi in Hi'. injection Hi' as <-.
  pose proof (busy_index_ok tgt_events ix Hi) as Hok.
  assert (Hns : uid ∉ dom src0).
  { intros Hd. apply (build_src_meta_uids _ _ _ Hs) in Hd
      as (e' & lm' & He' & Hp'). by apply (Hnosrc e' lm'). }
  assert (Hcur : uid ∈ cur_real_uids ix).
  { rewrite <- (ok_real_dom _ _ Hok). apply elem_of_dom. eauto. }
  destruct (ok_real _ _ Hok _ _ _ _ Hl) as (He & _ & _ & Hnb).
  destruct (busy_run_ok backend now old _ _ _ _ Hs Hi _ _ Hrun)
    as (t1 & tomb1 & t5 & src1 & tomb2 & t6 & src2 & tomb3 & t7 & acc
        & H1 & H5 & H6 & H7 & -> & ->).
  destruct (busy_passes_state backend old src0 ix tomb1 src1 tomb2 src2 tomb3)
    as (Htomb & Hs1 & Hs2); [by rewrite ?H1, ?H5, ?H6..|].
  destruct (busy_loop backend now (synced old) src2 ix tgt_events Hok tomb3
              (dom (synced old) ∪ dom src2 ∪ dom (busy_meta ix)))
    as [_ Hinv].
  rewrite H7 in Hinv. specialize (Hinv acc eq_refl).
  split; [done|]. split; [done|]. split; [|split; [|done]].
  - apply elem_of_app. left.
    apply (deleted_on_a_issued backend _ _ _ _ _ uid e raw lm H1); [|done].
    apply elem_of_elements, elem_of_difference. done.
  - simpl. destruct (inv_tombs_kept _ _ _ _ _ _ Hinv uid) as [?|(_ & _ & _ & _ & Hn)];
      [|done|done].
    rewrite Htomb. set_solver.
Qed.

Lemma busy_propagates_source_deletion_witness :
  let b2 := mk_event "/t/2.ics" (vevent "U2" 11 "Lunch" 14 15) in
  let st := mk_busy_state ∅ ∅ {["U2"]} {["U2"]} in
  b2 ∈ [b2] ∧ ¬ is_busy b2 ∧
  delete_event client_target (url b2)
    ∈ [delete_event client_target "/t/2.ics"] ∧
  "U2" ∈ tombstones st ∧ "U2" ∈ real_uids st.
Proof.
  intros b2 st.
  apply (busy_propagates_source_deletion accept_all (fun _ => utc 20)
           (mk_busy_state ∅ ∅ ∅ {["U2"]}) [] [b2]
           (mk_tgt_index {["U2" := (b2, to_ical b2, utc 11)]} ∅ {["U2"]})
           [delete_event client_target "/t/2.ics"] st
           "U2" b2 (to_ical b2) (utc 11)).
  - vm_compute. reflexivity.
  - vm_compute. reflexivity.
  - vm_compute. reflexivity.
  - intros e' lm' Hin. by apply elem_of_nil in Hin.
  - reflexivity.
Defined.

(** ** The state store, further *)

Section StateRoundTrip.
Variable fromisoformat : string → option datetime.
Variable isoformat : datetime → string.

Lemma parse_entries_json (l : list (string * datetime)) :
  (∀ kv, kv ∈ l → fromisoformat (isoformat kv.2) = Some kv.2) →
  ∀ acc,
    parse_entries fromisoformat
      ((fun kv => (kv.1, JString (isoformat kv.2))) <$> l) acc
    = Ok (foldl (fun m kv => <[kv.1 := kv.2]> m) acc l).
Proof.
  induction l as [|[k v] l IH]; intros Hrt acc; simpl; [done|].
  pose proof (Hrt (k, v) (list_elem_of_here _ _)) as Hkv. simpl in Hkv.
  rewrite Hkv. simpl. apply IH. intros kv Hin. apply Hrt. by apply list_elem_of_further.
Qed.

Lemma oneway_entries_json (l : list (string * datetime)) :
  (∀ kv, kv ∈ l → fromisoformat (isoformat kv.2) = Some kv.2) →
  (∀ kv, kv ∈ l → kv.1 ≠ "__mode") →
  ∀ acc,
    oneway_entries fromisoformat
      ((fun kv => (kv.1, JString (isoformat kv.2))) <$> l) acc
    = ([], foldl (fun m kv => <[kv.1 := kv.2]> m) acc l).
Proof.
  induction l as [|[k v] l IH]; intros Hrt Hk acc; simpl; [done|].
  pose proof (Hrt (k, v) (list_elem_of_here _ _)) as Hkv. simpl in Hkv.
  pose proof (Hk (k, v) (list_elem_of_here _ _)) as Hne. simpl in Hne.
  rewrite bool_decide_eq_false_2 by done. rewrite Hkv.
  apply IH; intros kv Hin; [apply Hrt|apply Hk]; by apply list_elem_of_further.
Qed.

Lemma foldl_insert_list_to_map (l : list (string * datetime)) :
  NoDup l.*1 →
  ∀ acc : gmap string datetime,
    foldl (fun m kv => <[kv.1 := kv.2]> m) acc l = list_to_map l ∪ acc.
Proof.
  induction l as [|[k v] l IH]; intros Hnd acc; simpl.
  - by rewrite (left_id_L ∅ (∪)).
  - apply NoDup_cons in Hnd as [Hk Hnd]. rewrite IH by done.
    rewrite <- insert_union_r by by apply not_elem_of_list_to_map_1.
    by rewrite insert_union_l.
Qed.

Lemma foldl_insert_map_to_list (state : gmap string datetime) :
  foldl (fun m kv => <[kv.1 := kv.2]> m) ∅ (map_to_list state) = state.
Proof.
  rewrite foldl_insert_list_to_map by apply NoDup_fst_map_to_list.
  by rewrite list_to_map_to_list, (right_id_L ∅ (∪)).
Qed.

Lemma entries_round_trip (state : gmap string datetime) :
  (∀ uid d, state !! uid = Some d → fromisoformat (isoformat d) = Some d) →
  parse_entries fromisoformat (entries_json isoformat state) ∅ = Ok state.
Proof.
  intros Hrt. unfold entries_json. rewrite parse_entries_json.
  - by rewrite foldl_insert_map_to_list.
  - intros [k v] Hin. apply elem_of_map_to_list in Hin. by apply (Hrt k).
Qed.

Lemma set_of_items_strings (l : list string) :
  set_of_items (JString <$> l) = Ok (list_to_set l).
Proof.
  induction l as [|x l IH]; [done|].
  rewrite fmap_cons. cbn [set_of_items]. by rewrite IH.
Qed.

Lemma set_round_trip (s : gset string) : py_set (set_json s) = Ok s.
Proof.
  unfold set_json, py_set. rewrite set_of_items_strings.
  by rewrite list_to_set_elements_L.
Qed.
End StateRoundTrip.

(** The loader of FULL_ONEWAY mode at a document without the mode mark. *)
Lemma mode_mark_other {X} (v : option json) (a b : X) :
  v ≠ Some (JString "full_oneway") →
  match v with
  | Some (JString "full_oneway") => a
  | _ => b
  end = b.
Proof.
  intros Hne. destruct v as [[| | |s| |]|]; try done.
  repeat (destruct s as [|[[] [] [] [] [] [] [] []] s]; try done).
Qed.

(** X19.  What FULL mode writes, FULL mode reads back: the loader of
    [sync_caldav_caldav] at the document the mode has persisted gives the
    state that was persisted, when [fromisoformat] reads the timestamps of
    the state back from their [isoformat] text. *)
Theorem full_state_round_trip (fromisoformat : string → option datetime)
    (isoformat : datetime → string) (state : gmap string datetime) :
  (∀ uid d, state !! uid = Some d → fromisoformat (isoformat d) = Some d) →
  load_full fromisoformat (document (full_json isoformat state)) = Ok state.
Proof. intros Hrt. simpl. by apply entries_round_trip. Qed.

Lemma full_state_round_trip_witness :
  load_full sample_fromisoformat
    (document (full_json sample_isoformat {["U1" := utc 10]}))
  = Ok {["U1" := utc 10]}.
Proof.
  apply (full_state_round_trip sample_fromisoformat sample_isoformat).
  intros uid d Hl. apply lookup_singleton_Some in Hl as [_ <-]. reflexivity.
Defined.

(** X20.  What BUSY mode writes, BUSY mode reads back: the synced map, and the
    three sets, which are written as arrays. *)
Theorem busy_state_round_trip (fromisoformat : string → option datetime)
    (isoformat : datetime → string) (st : busy_state) :
  (∀ uid d, synced st !! uid = Some d →
            fromisoformat (isoformat d) = Some d) →
  load_busy fromisoformat (document (busy_json isoformat st)) = Ok st.
Proof.
  intros Hrt. destruct st as [sy bu to re]. simpl in Hrt.
  unfold load_busy, busy_json.
  change (dict_get (JObject ?m) "synced" ?d) with (Ok (JObject (entries_json isoformat sy)) : result json).
  simpl.
  rewrite (entries_round_trip fromisoformat isoformat sy Hrt). simpl.
  rewrite !set_of_items_strings. simpl. by rewrite !list_to_set_elements_L.
Qed.

Lemma busy_state_round_trip_witness :
  let st := mk_busy_state {["U1" := utc 10]} {["U1"]} {["U3"]} {["U2"]} in
  load_busy sample_fromisoformat (document (busy_json sample_isoformat st))
  = Ok st.
Proof.
  intros st.
  apply (busy_state_round_trip sample_fromisoformat sample_isoformat st).
  intros uid d Hl. unfold st in Hl. simpl in Hl.
  apply lookup_singleton_Some in Hl as [_ <-]. reflexivity.
Defined.

(** X21.  What FULL_ONEWAY mode writes, FULL_ONEWAY mode reads back without a
    warning, as long as no uid of the state is the text [__mode]. *)
Theorem oneway_state_round_trip (fromisoformat : string → option datetime)
    (isoformat : datetime → string) (state : gmap string datetime) :
  state !! "__mode" = None →
  (∀ uid d, state !! uid = Some d → fromisoformat (isoformat d) = Some d) →
  load_oneway fromisoformat (document (oneway_json isoformat state))
  = ([], state).
Proof.
  intros Hm Hrt. unfold oneway_json. rewrite Hm.
  rewrite delete_id by done. simpl.
  unfold entries_json. rewrite oneway_entries_json.
  - by rewrite foldl_insert_map_to_list.
  - intros [k v] Hin. apply elem_of_map_to_list in Hin. by apply (Hrt k).
  - intros [k v] Hin. apply elem_of_map_to_list in Hin. simpl.
    intros ->. by rewrite Hm in Hin.
Qed.

Lemma oneway_state_round_trip_witness :
  load_oneway sample_fromisoformat
    (document (oneway_json sample_isoformat {["U1" := utc 10]}))
  = ([], {["U1" := utc 10]}).
Proof.
  apply (oneway_state_round_trip sample_fromisoformat sample_isoformat).
  - reflexivity.
  - intros uid d Hl. apply lookup_singleton_Some in Hl as [_ <-]. reflexivity.
Defined.

(** X22.  The mode mark of a FULL_ONEWAY state file shares the dictionary with
    the uids: when the state has the uid [__mode], [to_save.update]
    overwrites the mark with the timestamp of that uid, and the next load
    takes the file for one of another mode and starts from the empty
    state. *)
Theorem oneway_state_lost_with_mode_uid
    (fromisoformat : string → option datetime)
    (isoformat : datetime → string) (state : gmap string datetime)
    (ts : datetime) :
  state !! "__mode" = Some ts →
  isoformat ts ≠ "full_oneway" →
  load_oneway fromisoformat (document (oneway_json isoformat state))
  = ([INFO], ∅).
Proof.
  intros Hm Hne. unfold oneway_json, load_oneway. rewrite Hm.
  apply mode_mark_other. cbn [assoc]. rewrite bool_decide_eq_true_2 by done.
  by intros [= Heq].
Qed.

Lemma oneway_state_lost_with_mode_uid_witness :
  load_oneway sample_fromisoformat
    (document (oneway_json sample_isoformat
                 (<["__mode" := utc 10]> {["U1" := utc 10]})))
  = ([INFO], ∅).
Proof.
  apply (oneway_state_lost_with_mode_uid sample_fromisoformat
           sample_isoformat _ (utc 10)).
  - reflexivity.
  - discriminate.
Defined.

(** X23.  The FULL_ONEWAY loader takes no state from a file of another mode: at
    a document FULL mode or BUSY mode has persisted it logs that it
    ignores the file and starts from the empty state, whatever the file
    holds. *)
Theorem oneway_ignores_other_modes (fromisoformat : string → option datetime)
    (isoformat : datetime → string) (state : gmap string datetime)
    (st : busy_state) :
  (∀ d, isoformat d ≠ "full_oneway") →
  load_oneway fromisoformat (document (full_json isoformat state))
  = ([INFO], ∅) ∧
  load_oneway fromisoformat (document (busy_json isoformat st))
  = ([INFO], ∅).
Proof.
  intros Hne. split; [|reflexivity].
  unfold load_oneway, full_json. apply mode_mark_other.
  unfold entries_json.
  induction (map_to_list state) as [|[k v] l IH]; [done|].
  rewrite fmap_cons. cbn [assoc fst snd].
  case_bool_decide; [|exact IH]. intros [= Heq]. by apply (Hne v).
Qed.

Lemma oneway_ignores_other_modes_witness :
  load_oneway sample_fromisoformat
    (document (full_json sample_isoformat {["U1" := utc 10]}))
  = ([INFO], ∅) ∧
  load_oneway sample_fromisoformat
    (document (busy_json sample_isoformat empty_busy_state))
  = ([INFO], ∅).
Proof.
  apply (oneway_ignores_other_modes sample_fromisoformat sample_isoformat).
  intros d. unfold sample_isoformat. destruct (instant d =? 10)%Z; discriminate.
Defined.

(** X24.  The loader of FULL mode has no such check: at a document FULL_ONEWAY
    mode has persisted it meets the mode mark as if it were a uid, and
    [fromisoformat] raises on its value. *)
Theorem full_loader_rejects_oneway_file
    (fromisoformat : string → option datetime)
    (isoformat : datetime → string) (state : gmap string datetime) :
  state !! "__mode" = None →
  fromisoformat "full_oneway" = None →
  load_full fromisoformat (document (oneway_json isoformat state))
  = Raise ValueError.
Proof.
  intros Hm Hf. unfold oneway_json. rewrite Hm. simpl. by rewrite Hf.
Qed.

Lemma full_loader_rejects_oneway_file_witness :
  load_full sample_fromisoformat
    (document (oneway_json sample_isoformat {["U1" := utc 10]}))
  = Raise ValueError.
Proof.
  apply (full_loader_rejects_oneway_file sample_fromisoformat
           sample_isoformat); reflexivity.
Defined.

Lemma oneway_entries_json_app fromisoformat isoformat
    (l : list (string * datetime)) rest :
  (∀ kv, kv ∈ l → fromisoformat (isoformat kv.2) = Some kv.2) →
  (∀ kv, kv ∈ l → kv.1 ≠ "__mode") →
  ∀ acc,
    oneway_entries fromisoformat
      (((fun kv => (kv.1, JString (isoformat kv.2))) <$> l) ++ rest) acc
    = oneway_entries fromisoformat rest
        (foldl (fun m kv => <[kv.1 := kv.2]> m) acc l).
Proof.
  induction l as [|[k v] l IH]; intros Hrt Hk acc; [done|].
  rewrite fmap_cons. cbn [app oneway_entries fst snd foldl].
  pose proof (Hrt (k, v) (list_elem_of_here _ _)) as Hkv. simpl in Hkv.
  pose proof (Hk (k, v) (list_elem_of_here _ _)) as Hne. simpl in Hne.
  rewrite bool_decide_eq_false_2 by done.
  cbn [py_fromisoformat]. rewrite Hkv.
  apply IH; intros kv Hin; [apply Hrt|apply Hk]; by apply list_elem_of_further.
Qed.

(** X25.  The FULL_ONEWAY loader fills the state entry by entry inside its
    [try]: when it meets a value it cannot read, it logs that it starts
    fresh, and the run goes on with the entries read before that value;
    the entries after it are dropped. *)
Theorem oneway_loader_keeps_prefix (fromisoformat : string → option datetime)
    (isoformat : datetime → string) (state : gmap string datetime)
    (uid : string) (bad : json) (rest : list (string * json)) (e : exn) :
  state !! "__mode" = None →
  (∀ k d, state !! k = Some d → fromisoformat (isoformat d) = Some d) →
  uid ≠ "__mode" →
  py_fromisoformat fromisoformat bad = Raise e →
  load_oneway fromisoformat
    (document (JObject (("__mode", JString "full_oneway")
                          :: entries_json isoformat state
                          ++ (uid, bad) :: rest)))
  = ([WARNING], state).
Proof.
  intros Hm Hrt Hu Hbad. simpl. unfold entries_json.
  rewrite oneway_entries_json_app.
  - rewrite foldl_insert_map_to_list. cbn [oneway_entries].
    rewrite bool_decide_eq_false_2 by done. by rewrite Hbad.
  - intros [k v] Hin. apply elem_of_map_to_list in Hin. by apply (Hrt k).
  - intros [k v] Hin. apply elem_of_map_to_list in Hin. simpl.
    intros ->. by rewrite Hm in Hin.
Qed.

Lemma oneway_loader_keeps_prefix_witness :
  load_oneway sample_fromisoformat
    (document (JObject (("__mode", JString "full_oneway")
                          :: entries_json sample_isoformat {["U1" := utc 10]}
                          ++ ("U2", JNull) :: [("U3", JString "x")])))
  = ([WARNING], {["U1" := utc 10]}).
Proof.
  apply (oneway_loader_keeps_prefix sample_fromisoformat sample_isoformat
           {["U1" := utc 10]} "U2" JNull [("U3", JString "x")] TypeError).
  - reflexivity.
  - intros k d Hl. apply lookup_singleton_Some in Hl as [_ <-]. reflexivity.
  - discriminate.
  - reflexivity.
Defined.

(** ** FULL mode at rest *)

Lemma issued_nil backend plan : issued backend plan = [] ↔ plan = [].
Proof. by destruct plan. Qed.

Lemma flat_map_nil {A B} (f : A → list B) l :
  flat_map f l = [] ↔ ∀ x, x ∈ l → f x = [].
Proof.
  induction l as [|a l IH]; simpl.
  - split; [|done]. intros _ x Hx. by apply elem_of_nil in Hx.
  - split.
    + intros H. apply app_eq_nil in H as [Ha Hl]. intros x Hx.
      apply elem_of_cons in Hx as [->|Hx]; [done|]. by apply IH.
    + intros H. rewrite (H a) by apply list_elem_of_here. simpl.
      apply IH. intros x Hx. apply H. by apply list_elem_of_further.
Qed.

Lemma full_table_idle P A B uid :
  (full_table P A B uid).1 = [] ↔
  match A !! uid, B !! uid with
  | Some (ts_a, _), Some (ts_b, _) => instant ts_a = instant ts_b
  | None, None => True
  | _, _ => False
  end.
Proof.
  unfold full_table.
  destruct (P !! uid), (A !! uid) as [[ts_a a]|], (B !! uid) as [[ts_b b]|];
    simpl; try done;
    rewrite ?Z.gtb_ltb;
    destruct (Z.ltb_spec (instant ts_b) (instant ts_a));
    destruct (Z.ltb_spec (instant ts_a) (instant ts_b)); simpl;
    split; intros; try done; lia.
Qed.

(** X9.  When FULL mode has nothing to do: a run issues no call exactly when
    the two views have the same uids and, at each uid, timestamps of the
    same instant.  The previous state has no part in it: a uid that is on
    one side only is either deleted there or created on the other. *)
Theorem full_sync_idle_iff (backend : call → option exn)
    (old : gmap string datetime) (evts_a evts_b : list CaldavEvent)
    (meta_a meta_b : gmap string (datetime * CaldavEvent)) :
  build_meta evts_a ∅ = Ok meta_a →
  build_meta evts_b ∅ = Ok meta_b →
  (sync_caldav_caldav backend old evts_a evts_b).1 = [] ↔
  ∀ uid,
    match meta_a !! uid, meta_b !! uid with
    | Some (ts_a, _), Some (ts_b, _) => instant ts_a = instant ts_b
    | None, None => True
    | _, _ => False
    end.
Proof.
  intros Ha Hb.
  destruct (full_run_eq backend old _ _ _ _ Ha Hb
              (elements (dom old ∪ dom meta_a ∪ dom meta_b))) as [Heq Hrun].
  rewrite Hrun, Heq. simpl. rewrite issued_nil, flat_map_nil.
  split.
  - intros H uid.
    destruct (decide (uid ∈ dom old ∪ dom meta_a ∪ dom meta_b)) as [Hin|Hout].
    + apply full_table_idle with (P := old), H. by apply elem_of_elements.
    + rewrite !not_elem_of_union, !not_elem_of_dom in Hout.
      destruct Hout as [[_ ->] ->]. done.
  - intros H uid _. apply full_table_idle, H.
Qed.

Lemma full_sync_idle_iff_witness :
  let a1 := mk_event "/a/1.ics" (vevent "U1" 10 "Meet" 12 13) in
  let b1 := mk_event "/b/1.ics" (vevent "U1" 10 "Meet" 12 13) in
  let meta_a : gmap string (datetime * CaldavEvent) :=
    {["U1" := (utc 10, a1)]} in
  let meta_b : gmap string (datetime * CaldavEvent) :=
    {["U1" := (utc 10, b1)]} in
  (sync_caldav_caldav accept_all ∅ [a1] [b1]).1 = [] ↔
  ∀ uid,
    match meta_a !! uid, meta_b !! uid with
    | Some (ts_a, _), Some (ts_b, _) => instant ts_a = instant ts_b
    | None, None => True
    | _, _ => False
    end.
Proof.
  intros a1 b1 meta_a meta_b.
  apply (full_sync_idle_iff accept_all ∅ [a1] [b1] meta_a meta_b);
    reflexivity.
Defined.

(** ** FULL mode against the server: one run settles the two calendars *)

Lemma build_meta_total evts :
  (∀ e, e ∈ evts →
     ∃ uid lm, _parse_ical_metadata (to_ical e) = Ok (uid, lm)) →
  ∀ meta, ∃ meta', build_meta evts meta = Ok meta'.
Proof.
  induction evts as [|e0 evts IH]; intros Hall meta; simpl; [eauto|].
  destruct (Hall e0) as (uid & lm & ->); [apply list_elem_of_here|]. simpl.
  apply IH. intros e He. apply Hall. by apply list_elem_of_further.
Qed.

Lemma build_meta_dom evts :
  ∀ meta meta',
    build_meta evts meta = Ok meta' →
    dom meta ⊆ dom meta' ∧
    ∀ e uid lm, e ∈ evts → _parse_ical_metadata (to_ical e) = Ok (uid, lm) →
                uid ∈ dom meta'.
Proof.
  induction evts as [|e0 evts IH]; intros meta meta'; simpl.
  - intros [= <-]. split; [done|]. intros e uid lm H. by apply elem_of_nil in H.
  - destruct (_parse_ical_metadata (to_ical e0)) as [[uid0 lm0]|err] eqn:Ep;
      simpl; [|discriminate].
    intros Hb. destruct (IH _ _ Hb) as [Hsub Hall].
    rewrite dom_insert_L in Hsub. split; [set_solver|].
    intros e uid lm Hin Hp. apply elem_of_cons in Hin as [->|Hin].
    + rewrite Ep in Hp. injection Hp as <- <-. set_solver.
    + by eapply Hall.
Qed.

(** A view in which each event is the entry of its uid is keyed by
    [build_meta] as it stands. *)
Lemma keyed_build evts meta :
  keyed evts meta → build_meta evts ∅ = Ok meta.
Proof.
  intros [K1 K2].
  destruct (build_meta_total evts) with (meta := (∅ : gmap string (datetime * CaldavEvent)))
    as [meta' Hb].
  { intros e He. destruct (K2 e He) as (uid & lm & ? & _). eauto. }
  rewrite Hb. f_equal. apply map_eq. intros uid.
  destruct (meta' !! uid) as [[lm e]|] eqn:E.
  - destruct (build_meta_lookup _ _ _ _ _ _ Hb E) as [He|[He Hp]];
      [by rewrite lookup_empty in He|].
    destruct (K2 e He) as (uid' & lm' & Hp' & Hl).
    rewrite Hp in Hp'. by injection Hp' as <- <-.
  - destruct (meta !! uid) as [[lm e]|] eqn:E'; [|done].
    destruct (K1 _ _ _ E') as [He Hp].
    pose proof (proj2 (build_meta_dom _ _ _ Hb) e uid lm He Hp) as Hd.
    apply elem_of_dom in Hd as [v Hv]. congruence.
Qed.

Section Calendar.
Variable new_url : client → ical_bytes → string.
Variable c : client.
Variable evts0 : list CaldavEvent.
Variable t : list call.

Lemma serve_calendar_other op evts :
  call_client op ≠ c → serve_calendar new_url c op evts = evts.
Proof.
  destruct op; simpl; intros Hne; by rewrite bool_decide_eq_false_2.
Qed.

Lemma cal_delete evts m uid lm e :
  cal_ok new_url c evts0 t evts m →
  m !! uid = Some (lm, e) →
  cal_ok new_url c evts0 t
    (serve_calendar new_url c (delete_event c (url e)) evts) (delete uid m).
Proof.
  intros [[K1 K2] Hinj Hprov] Hl. simpl.
  rewrite bool_decide_eq_true_2 by done.
  destruct (K1 _ _ _ Hl) as [He Hp].
  split; [split|..].
  - intros uid' lm' e' Hl'.
    apply lookup_delete_Some in Hl' as [Hne Hl'].
    destruct (K1 _ _ _ Hl') as [He' Hp']. split; [|done].
    apply list_elem_of_filter. split; [|done]. intros Hu.
    apply Hne. pose proof (Hinj _ _ He' He Hu) as ->. congruence.
  - intros e' He'. apply list_elem_of_filter in He' as [Hu He'].
    destruct (K2 e' He') as (uid' & lm' & Hp' & Hl').
    exists uid', lm'. split; [done|].
    rewrite lookup_delete_ne; [done|]. intros <-. congruence.
  - intros e1 e2 H1 H2. apply list_elem_of_filter in H1 as [_ H1].
    apply list_elem_of_filter in H2 as [_ H2]. by apply Hinj.
  - intros e' He'. apply list_elem_of_filter in He' as [_ He']. by apply Hprov.
Qed.

Lemma cal_create evts m uid lm raw :
  cal_ok new_url c evts0 t evts m →
  m !! uid = None →
  _parse_ical_metadata raw = Ok (uid, lm) →
  create_event c raw ∈ t →
  (∀ e, e ∈ evts0 → url e ≠ new_url c raw) →
  (∀ raw', create_event c raw' ∈ t → new_url c raw' = new_url c raw →
           raw' = raw) →
  cal_ok new_url c evts0 t
    (serve_calendar new_url c (create_event c raw) evts)
    (<[uid := (lm, mk_event (new_url c raw) raw)]> m).
Proof.
  intros [[K1 K2] Hinj Hprov] Hl Hp Hin Hfresh Hone. simpl.
  rewrite bool_decide_eq_true_2 by done.
  assert (Hnew : ∀ e, e ∈ evts → url e ≠ new_url c raw).
  { intros e He Hu. destruct (Hprov e He) as [(e0 & He0 & Hu0)|(raw' & Hc & ->)].
    - apply (Hfresh e0 He0). congruence.
    - simpl in Hu. pose proof (Hone raw' Hc Hu) as ->.
      destruct (K2 _ He) as (uid' & lm' & Hp' & Hl'). simpl in Hp'.
      rewrite Hp in Hp'. injection Hp' as <- <-. congruence. }
  split; [split|..].
  - intros uid' lm' e' Hl'. destruct (decide (uid = uid')) as [<-|Hne].
    + rewrite lookup_insert_eq in Hl'. injection Hl' as <- <-.
      split; [|done]. apply elem_of_app. right. apply list_elem_of_here.
    + rewrite lookup_insert_ne in Hl' by done.
      destruct (K1 _ _ _ Hl') as [He' Hp']. split; [|done].
      apply elem_of_app. by left.
  - intros e' He'. apply elem_of_app in He' as [He'|He'].
    + destruct (K2 e' He') as (uid' & lm' & Hp' & Hl').
      exists uid', lm'. split; [done|].
      rewrite lookup_insert_ne; [done|]. intros <-. congruence.
    + apply list_elem_of_singleton in He' as ->. exists uid, lm.
      split; [done|]. by rewrite lookup_insert_eq.
  - intros e1 e2 H1 H2 Hu.
    apply elem_of_app in H1 as [H1|H1]; apply elem_of_app in H2 as [H2|H2].
    + by apply Hinj.
    + apply list_elem_of_singleton in H2 as ->. by destruct (Hnew e1 H1).
    + apply list_elem_of_singleton in H1 as ->. by destruct (Hnew e2 H2).
    + apply list_elem_of_singleton in H1 as ->.
      by apply list_elem_of_singleton in H2 as ->.
  - intros e' He'. apply elem_of_app in He' as [He'|He']; [by apply Hprov|].
    apply list_elem_of_singleton in He' as ->. right. by exists raw.
Qed.

Lemma cal_update evts m uid lm0 e lm raw :
  cal_ok new_url c evts0 t evts m →
  m !! uid = Some (lm0, e) →
  e ∈ evts0 →
  _parse_ical_metadata raw = Ok (uid, lm) →
  cal_ok new_url c evts0 t
    (serve_calendar new_url c (update_event c (url e) raw) evts)
    (<[uid := (lm, mk_event (url e) raw)]> m).
Proof.
  intros [[K1 K2] Hinj Hprov] Hl He0 Hp. simpl.
  rewrite bool_decide_eq_true_2 by done.
  destruct (K1 _ _ _ Hl) as [He Hpe].
  set (f := fun e' : CaldavEvent =>
              if bool_decide (url e' = url e) then mk_event (url e) raw
              else e').
  assert (Hf : ∀ e', e' ∈ f <$> evts →
            (e' = mk_event (url e) raw) ∨ (e' ∈ evts ∧ url e' ≠ url e)).
  { intros e' He'. apply list_elem_of_fmap in He' as (e1 & -> & He1).
    unfold f. case_bool_decide; [by left|by right]. }
  split; [split|..].
  - intros uid' lm' e' Hl'. destruct (decide (uid = uid')) as [<-|Hne].
    + rewrite lookup_insert_eq in Hl'. injection Hl' as <- <-.
      split; [|done]. apply list_elem_of_fmap. exists e.
      split; [|done]. unfold f. by rewrite bool_decide_eq_true_2.
    + rewrite lookup_insert_ne in Hl' by done.
      destruct (K1 _ _ _ Hl') as [He' Hp']. split; [|done].
      apply list_elem_of_fmap. exists e'. split; [|done].
      unfold f. rewrite bool_decide_eq_false_2; [done|].
      intros Hu. pose proof (Hinj _ _ He' He Hu) as ->. congruence.
  - intros e' He'. destruct (Hf e' He') as [->|[He1 Hu]].
    + exists uid, lm. split; [done|]. by rewrite lookup_insert_eq.
    + destruct (K2 e' He1) as (uid' & lm' & Hp' & Hl').
      exists uid', lm'. split; [done|].
      rewrite lookup_insert_ne; [done|]. intros <-.
      rewrite Hl in Hl'. by injection Hl' as _ <-.
  - intros e1 e2 H1 H2 Hu.
    destruct (Hf e1 H1) as [->|[H1' Hu1]], (Hf e2 H2) as [->|[H2' Hu2]];
      simpl in *; try done; try congruence. by apply Hinj.
  - intros e' He'. destruct (Hf e' He') as [->|[He1 _]]; [|by apply Hprov].
    left. by exists e.
Qed.
End Calendar.

Section Settle.
Variable new_url : client → ical_bytes → string.
Variable old : gmap string datetime.
Variable meta_a meta_b : gmap string (datetime * CaldavEvent).
Variable evts_a evts_b : list CaldavEvent.
Variable t : list call.
Hypothesis Hka : keyed evts_a meta_a.
Hypothesis Hkb : keyed evts_b meta_b.
Hypothesis Hfresh : fresh_urls new_url evts_a evts_b t.

Lemma settle_step done r ma mb uid :
  (∀ c, c ∈ (full_table old meta_a meta_b uid).1 → c ∈ t) →
  uid ∉ done →
  settle_inv new_url old meta_a meta_b evts_a evts_b t done r ma mb →
  ∃ ma' mb',
    settle_inv new_url old meta_a meta_b evts_a evts_b t (done ++ [uid])
      (serve_all new_url r (full_table old meta_a meta_b uid).1) ma' mb'.
Proof.
  intros Hplan Hnew [Ha Hb Hdone Htodo].
  destruct (Htodo uid Hnew) as [Hma Hmb].
  destruct Hfresh as [Hfr Hone].
  assert (Hfinish : ∀ r' ma' mb',
    cal_ok new_url client_source evts_a t (cal_source r') ma' →
    cal_ok new_url client_target evts_b t (cal_target r') mb' →
    (∀ u, u ≠ uid → ma' !! u = ma !! u ∧ mb' !! u = mb !! u) →
    fst <$> ma' !! uid = (full_table old meta_a meta_b uid).2 →
    (fun v => instant v.1) <$> mb' !! uid
    = instant <$> (full_table old meta_a meta_b uid).2 →
    settle_inv new_url old meta_a meta_b evts_a evts_b t (done ++ [uid])
      r' ma' mb').
  { intros r' ma' mb' Ha' Hb' Hother Hrow_a Hrow_b. split; [done|done|..].
    - intros u Hu. apply elem_of_app in Hu as [Hu|Hu].
      + assert (u ≠ uid) as Hne by (by intros ->).
        destruct (Hother u Hne) as [-> ->]. by apply Hdone.
      + by apply list_elem_of_singleton in Hu as ->.
    - intros u Hu. apply not_elem_of_app in Hu as [Hu Hne].
      rewrite not_elem_of_cons in Hne. destruct Hne as [Hne _].
      destruct (Hother u Hne) as [-> ->]. by apply Htodo. }
  assert (Hpa : ∀ ts a, meta_a !! uid = Some (ts, a) →
            a ∈ evts_a ∧ _parse_ical_metadata (to_ical a) = Ok (uid, ts))
    by (intros ts a; apply (proj1 Hka)).
  assert (Hpb : ∀ ts b, meta_b !! uid = Some (ts, b) →
            b ∈ evts_b ∧ _parse_ical_metadata (to_ical b) = Ok (uid, ts))
    by (intros ts b; apply (proj1 Hkb)).
  revert Hplan Hfinish. unfold full_table.
  destruct (old !! uid) as [p|] eqn:EP;
    destruct (meta_a !! uid) as [[ts_a a]|] eqn:EA;
    destruct (meta_b !! uid) as [[ts_b b]|] eqn:EB;
    try (destruct (instant ts_a >? instant ts_b)%Z eqn:Hab;
         [|destruct (instant ts_b >? instant ts_a)%Z eqn:Hba]);
    cbn [fst snd]; intros Hplan Hfinish;
    try (specialize (Hplan _ (list_elem_of_here _ _)));
    try (destruct (Hpa _ _ eq_refl) as [Hina Hparse_a]);
    try (destruct (Hpb _ _ eq_refl) as [Hinb Hparse_b]).
  all: cbn [serve_all foldl serve].
  all: rewrite ?(serve_calendar_other new_url client_source) by done.
  all: rewrite ?(serve_calendar_other new_url client_target) by done.
  (* both sides, A newer *)
  1,7: exists ma, (<[uid := (ts_a, mk_event (url b) (to_ical a))]> mb);
       apply Hfinish; cbn [cal_source cal_target];
       [ done
       | by eapply cal_update
       | intros u Hne; by rewrite lookup_insert_ne
       | by rewrite Hma
       | by rewrite lookup_insert_eq ].
  (* both sides, B newer *)
  1,6: exists (<[uid := (ts_b, mk_event (url a) (to_ical b))]> ma), mb;
       apply Hfinish; cbn [cal_source cal_target];
       [ by eapply cal_update
       | done
       | intros u Hne; by rewrite lookup_insert_ne
       | by rewrite lookup_insert_eq
       | by rewrite Hmb ].
  (* both sides, the same instant *)
  1,5: exists ma, mb; apply Hfinish;
       [ done | done | done | by rewrite Hma
       | rewrite Hmb; simpl; f_equal; lia ].
  (* deleted on B *)
  1: exists (delete uid ma), mb; apply Hfinish; cbn [cal_source cal_target];
     [ by eapply cal_delete
     | done
     | intros u Hne; by rewrite lookup_delete_ne
     | by rewrite lookup_delete_eq
     | by rewrite Hmb ].
  (* deleted on A *)
  1: exists ma, (delete uid mb); apply Hfinish; cbn [cal_source cal_target];
     [ done
     | by eapply cal_delete
     | intros u Hne; by rewrite lookup_delete_ne
     | by rewrite Hma
     | by rewrite lookup_delete_eq ].
  (* gone from both *)
  1: exists ma, mb; apply Hfinish;
     [ done | done | done | by rewrite Hma | by rewrite Hmb ].
  (* new on A *)
  1: exists ma,
       (<[uid := (ts_a, mk_event (new_url client_target (to_ical a))
                          (to_ical a))]> mb);
     apply Hfinish; cbn [cal_source cal_target];
     [ done
     | apply cal_create; try done;
       [ intros e He; by apply (Hfr client_target)
       | intros raw' Hc Hu; by apply (Hone client_target) ]
     | intros u Hne; by rewrite lookup_insert_ne
     | by rewrite Hma
     | by rewrite lookup_insert_eq ].
  (* new on B *)
  1: exists (<[uid := (ts_b, mk_event (new_url client_source (to_ical b))
                               (to_ical b))]> ma), mb;
     apply Hfinish; cbn [cal_source cal_target];
     [ apply cal_create; try done;
       [ intros e He; by apply (Hfr client_source)
       | intros raw' Hc Hu; by apply (Hone client_source) ]
     | done
     | intros u Hne; by rewrite lookup_insert_ne
     | by rewrite lookup_insert_eq
     | by rewrite Hmb ].
  (* on neither side *)
  exists ma, mb. apply Hfinish;
    [ done | done | done | by rewrite Hma | by rewrite Hmb ].
Qed.
End Settle.

Lemma settle_loop new_url old meta_a meta_b evts_a evts_b t :
  keyed evts_a meta_a → keyed evts_b meta_b →
  fresh_urls new_url evts_a evts_b t →
  ∀ l done r ma mb,
    NoDup l → (∀ x, x ∈ l → x ∉ done) →
    (∀ c, c ∈ flat_map (fun uid => (full_table old meta_a meta_b uid).1) l →
          c ∈ t) →
    settle_inv new_url old meta_a meta_b evts_a evts_b t done r ma mb →
    ∃ ma' mb',
      settle_inv new_url old meta_a meta_b evts_a evts_b t (done ++ l)
        (serve_all new_url r
           (flat_map (fun uid => (full_table old meta_a meta_b uid).1) l))
        ma' mb'.
Proof.
  intros Hka Hkb Hfresh.
  induction l as [|x l IH]; intros done r ma mb Hnd Hnew Hplan Hinv.
  - exists ma, mb. by rewrite app_nil_r.
  - apply NoDup_cons in Hnd as [Hx Hnd]. cbn [flat_map] in *.
    unfold serve_all. rewrite foldl_app. fold (serve_all new_url).
    destruct (settle_step new_url old meta_a meta_b evts_a evts_b t
                Hka Hkb Hfresh done r ma mb x) as (ma1 & mb1 & H1).
    + intros c Hc. apply Hplan, elem_of_app. by left.
    + apply Hnew, list_elem_of_here.
    + done.
    + destruct (IH (done ++ [x])
                  (serve_all new_url r (full_table old meta_a meta_b x).1)
                  ma1 mb1 Hnd) as (ma2 & mb2 & H2).
      * intros y Hy Hin. apply elem_of_app in Hin as [Hin|Hin].
        -- by apply (Hnew y (list_elem_of_further _ _ _ Hy)).
        -- apply list_elem_of_singleton in Hin as ->. done.
      * intros c Hc. apply Hplan, elem_of_app. by right.
      * done.
      * exists ma2, mb2. by rewrite <- app_assoc in H2.
Qed.

(** X10.  One run of FULL mode settles the two calendars.  Let the uids of each
    view be distinct and its handles too, let the server store what it is
    given and give fresh handles to the events it creates, and let a run
    end normally.  Then the next run, on the calendars as the server has
    left them and from the state the first run has persisted, issues no
    call and persists the same state. *)
Theorem full_sync_settles (new_url : client → ical_bytes → string)
    (backend backend' : call → option exn) (old : gmap string datetime)
    (evts_a evts_b : list CaldavEvent)
    (meta_a meta_b : gmap string (datetime * CaldavEvent))
    (t : list call) (new_state : gmap string datetime) :
  keyed evts_a meta_a → keyed evts_b meta_b →
  url_inj evts_a → url_inj evts_b →
  fresh_urls new_url evts_a evts_b t →
  sync_caldav_caldav backend old evts_a evts_b = (t, Ok new_state) →
  let r' := serve_all new_url (mk_remote evts_a evts_b) t in
  sync_caldav_caldav backend' new_state (cal_source r') (cal_target r')
  = ([], Ok new_state).
Proof.
  intros Hka Hkb Hua Hub Hfresh Hrun r'.
  pose proof (keyed_build _ _ Hka) as Ha.
  pose proof (keyed_build _ _ Hkb) as Hb.
  pose proof (full_run_ok backend old _ _ _ _ _ _ Ha Hb Hrun) as Hstate.
  assert (Ht : t = flat_map (fun uid => (full_table old meta_a meta_b uid).1)
                     (elements (dom old ∪ dom meta_a ∪ dom meta_b))).
  { destruct (full_run_eq backend old _ _ _ _ Ha Hb
                (elements (dom old ∪ dom meta_a ∪ dom meta_b)))
      as [Heq Hrun'].
    rewrite Hrun', Heq in Hrun.
    destruct (refusal backend _) eqn:Er; [discriminate|].
    injection Hrun as <- _. by rewrite issued_accepted. }
  set (l := elements (dom old ∪ dom meta_a ∪ dom meta_b)) in *.
  destruct (settle_loop new_url old meta_a meta_b evts_a evts_b t
              Hka Hkb Hfresh l [] (mk_remote evts_a evts_b) meta_a meta_b)
    as (ma & mb & [Hca Hcb Hdone Htodo]).
  { apply NoDup_elements. }
  { intros x _ Hx. by apply elem_of_nil in Hx. }
  { intros c Hc. by rewrite Ht. }
  { split; simpl.
    - split; [done|done|]. intros e He. left. by exists e.
    - split; [done|done|]. intros e He. left. by exists e.
    - intros uid Hu. by apply elem_of_nil in Hu.
    - done. }
  rewrite <- Ht in Hca, Hcb. fold r' in Hca, Hcb.
  pose proof (keyed_build _ _ (cal_keyed _ _ _ _ _ _ Hca)) as Ha'.
  pose proof (keyed_build _ _ (cal_keyed _ _ _ _ _ _ Hcb)) as Hb'.
  assert (Hrow : ∀ uid, full_table new_state ma mb uid
                        = ([], new_state !! uid)).
  { intros uid.
    assert (fst <$> ma !! uid = new_state !! uid ∧
            (fun v => instant v.1) <$> mb !! uid
            = instant <$> new_state !! uid) as [Hma Hmb].
    { rewrite Hstate. destruct (decide (uid ∈ l)) as [Hin|Hout].
      - rewrite app_nil_l in Hdone. by apply Hdone.
      - rewrite app_nil_l in Htodo. destruct (Htodo uid Hout) as [-> ->].
        unfold l in Hout. rewrite elem_of_elements in Hout.
        rewrite (full_table_outside _ _ _ _ Hout).
        rewrite !not_elem_of_union, !not_elem_of_dom in Hout.
        destruct Hout as [[_ ->] ->]. done. }
    unfold full_table.
    destruct (new_state !! uid) as [ts|];
      destruct (ma !! uid) as [[ts_a a]|];
      destruct (mb !! uid) as [[ts_b b]|]; simpl in Hma, Hmb; try done.
    injection Hma as ->. injection Hmb as Hi. simpl.
    rewrite !Z.gtb_ltb, Hi, Z.ltb_irrefl. done. }
  destruct (full_run_eq backend' new_state _ _ _ _ Ha' Hb'
              (elements (dom new_state ∪ dom ma ∪ dom mb))) as [Heq Hrun2].
  rewrite Hrun2, Heq.
  assert (Hplan : flat_map (fun uid => (full_table new_state ma mb uid).1)
                    (elements (dom new_state ∪ dom ma ∪ dom mb)) = []).
  { apply flat_map_nil. intros uid _. by rewrite Hrow. }
  rewrite Hplan. simpl. do 2 f_equal. apply map_eq. intros uid.
  rewrite (foldl_record_lookup (fun x => (full_table new_state ma mb x).2)).
  rewrite Hrow, lookup_empty. simpl. case_decide as Hin.
  - by destruct (new_state !! uid).
  - rewrite elem_of_elements, !not_elem_of_union, !not_elem_of_dom in Hin.
    by destruct Hin as [[-> _] _].
Qed.

Lemma full_sync_settles_witness :
  let a1 := mk_event "/a/1.ics" (vevent "U1" 10 "Meet" 12 13) in
  let new_url := fun (_ : client) (_ : ical_bytes) => "/b/1.ics" in
  let t := [create_event client_target (to_ical a1)] in
  let r' := serve_all new_url (mk_remote [a1] []) t in
  sync_caldav_caldav refuse_creates {["U1" := utc 10]}
    (cal_source r') (cal_target r')
  = ([], Ok {["U1" := utc 10]}).
Proof.
  intros a1 new_url t r'.
  apply (full_sync_settles new_url accept_all refuse_creates ∅ [a1] []
           {["U1" := (utc 10, a1)]} ∅ t {["U1" := utc 10]}).
  - split.
    + intros uid lm e Hl. apply lookup_singleton_Some in Hl as [<- [= <- <-]].
      split; [apply list_elem_of_here|reflexivity].
    + intros e He. apply list_elem_of_singleton in He as ->.
      exists "U1", (utc 10). split; reflexivity.
  - split.
    + intros uid lm e Hl. by rewrite lookup_empty in Hl.
    + intros e He. by apply elem_of_nil in He.
  - intros e1 e2 H1 H2 _. apply list_elem_of_singleton in H1 as ->.
    by apply list_elem_of_singleton in H2 as ->.
  - intros e1 e2 H1. by apply elem_of_nil in H1.
  - split.
    + intros c raw e Hc He. apply list_elem_of_singleton in Hc.
      injection Hc as -> _. by apply elem_of_nil in He.
    + intros c raw raw' H1 H2 _. apply list_elem_of_singleton in H1, H2.
      congruence.
  - vm_compute. reflexivity.
Defined.
